(** * News ingestion pipeline: a shallow embedding and its properties

    The development follows the Python sources of the news application:

    - [news/providers/newsapiorg/validators.py]   ([url_validator])
    - [news/providers/newsapiorg/helpers.py]      ([normalize_articles])
    - [news/services/keyword_extraction/extractor.py]
    - [news/services/language_detect/detect.py]
    - [news/management/commands/fetch_provider_articles.py]
    - [news/management/commands/fetch_provider_sources.py]
    - [news/services/language_detect/helpers.py]  ([clean_text])
    - [news/services/language_detect/model_loader.py]
    - [news/views.py]                             ([_derive_keyword_phrases])
    - [news/serializers.py]                       ([get_content_preview])

    Conventions.  A Python [str] is a Rocq [string]; every character stands
    for one code point below 256.  A Python exception is a value
    [Raised e] of the [result] type, and [try ... except Exception] is a
    match on it.  Floats (keyword scores, detection confidence) are only
    compared with constants, and are carried as rationals.  Collaborators
    that live outside the repository (the YAKE extractor, the fastText
    model, the clock, the database's verdict on a bulk insert) are Section
    variables. *)

From Stdlib Require Import ZArith QArith Ascii String List Bool Lia.
From stdpp Require Import base gmap sets list strings.

Local Open Scope string_scope.

(** ** Exceptions *)

Inductive exception : Type :=
| ValueError
| AttributeError
| TypeError
| IndexError
| KeywordExtractionError
| DatabaseError.

Inductive result (A : Type) : Type :=
| Returned (a : A)
| Raised (e : exception).

Arguments Returned {A} a.
Arguments Raised {A} e.

#[global] Instance result_ret : MRet result := fun _ a => Returned a.

#[global] Instance result_bind : MBind result := fun _ _ k r =>
  match r with
  | Returned a => k a
  | Raised e => Raised e
  end.

(** [list(map(f, l))] for an [f] that may raise. *)
Fixpoint map_raising {A B : Type} (f : A -> result B) (l : list A) : result (list B) :=
  match l with
  | [] => Returned []
  | a :: l' => b ← f a; bs ← map_raising f l'; Returned (b :: bs)
  end.

(** ** Python string primitives *)

Module PyStr.

Definition code (c : ascii) : nat := nat_of_ascii c.

Definition in_range (lo hi : nat) (c : ascii) : bool :=
  Nat.leb lo (code c) && Nat.leb (code c) hi.

(** [0-9], the characters matched by [\d] and accepted by [int]. *)
Definition is_decimal (c : ascii) : bool := in_range 48 57 c.

(** [str.isdigit] also accepts the superscripts U+00B2, U+00B3, U+00B9. *)
Definition is_digit_char (c : ascii) : bool :=
  is_decimal c || Nat.eqb (code c) 178 || Nat.eqb (code c) 179
  || Nat.eqb (code c) 185.

Definition is_upper (c : ascii) : bool := in_range 65 90 c.
Definition is_lower (c : ascii) : bool := in_range 97 122 c.
Definition is_alpha (c : ascii) : bool := is_upper c || is_lower c.

(** Whitespace as [str.strip], [str.split] and [\s] see it. *)
Definition is_space (c : ascii) : bool :=
  in_range 9 13 c || in_range 28 32 c || Nat.eqb (code c) 133
  || Nat.eqb (code c) 160.

Definition lower_char (c : ascii) : ascii :=
  if is_upper c then ascii_of_nat (code c + 32)
  else if in_range 192 222 c && negb (Nat.eqb (code c) 215)
       then ascii_of_nat (code c + 32)
       else c.

Fixpoint lower (s : string) : string :=
  match s with
  | EmptyString => EmptyString
  | String c s' => String (lower_char c) (lower s')
  end.

Fixpoint forallb (p : ascii -> bool) (s : string) : bool :=
  match s with
  | EmptyString => true
  | String c s' => p c && forallb p s'
  end.

Definition is_empty (s : string) : bool :=
  match s with EmptyString => true | _ => false end.

(** [s.isdigit()]: non-empty and made of digits. *)
Definition isdigit (s : string) : bool := negb (is_empty s) && forallb is_digit_char s.

(** [s.replace(c, '')] for a one-character [c]. *)
Fixpoint remove_char (c : ascii) (s : string) : string :=
  match s with
  | EmptyString => EmptyString
  | String d s' =>
      if Ascii.eqb c d then remove_char c s' else String d (remove_char c s')
  end.

(** [s.split(c)]: the pieces between the separators, empty ones kept. *)
Fixpoint split_on (c : ascii) (s : string) : list string :=
  match s with
  | EmptyString => [EmptyString]
  | String d s' =>
      if Ascii.eqb c d then EmptyString :: split_on c s'
      else match split_on c s' with
           | [] => [String d EmptyString]
           | w :: ws => String d w :: ws
           end
  end.

(** [s.lstrip(chars)] with the set of characters given as a predicate. *)
Fixpoint lstrip_by (p : ascii -> bool) (s : string) : string :=
  match s with
  | EmptyString => EmptyString
  | String c s' => if p c then lstrip_by p s' else s
  end.

Fixpoint rstrip_by (p : ascii -> bool) (s : string) : string :=
  match s with
  | EmptyString => EmptyString
  | String c s' =>
      match rstrip_by p s' with
      | EmptyString => if p c then EmptyString else String c EmptyString
      | t => String c t
      end
  end.

Definition rstrip (s : string) : string := rstrip_by is_space s.
Definition strip (s : string) : string := lstrip_by is_space (rstrip s).

(** [s.split()]: maximal runs of non-whitespace characters. *)
Fixpoint split_ws_aux (cur : string) (s : string) : list string :=
  match s with
  | EmptyString => if is_empty cur then [] else [cur]
  | String c s' =>
      if is_space c
      then if is_empty cur then split_ws_aux EmptyString s'
           else cur :: split_ws_aux EmptyString s'
      else split_ws_aux (cur ++ String c EmptyString) s'
  end.

Definition split_ws (s : string) : list string := split_ws_aux EmptyString s.

(** [s[:n]]. *)
Fixpoint take (n : nat) (s : string) : string :=
  match n, s with
  | S n', String c s' => String c (take n' s')
  | _, _ => EmptyString
  end.

(** [" ".join(ws)]. *)
Fixpoint join_space (ws : list string) : string :=
  match ws with
  | [] => EmptyString
  | [w] => w
  | w :: ws' => w ++ " " ++ join_space ws'
  end.

(** [s.find(c)] for a one-character [c]; [None] is Python's -1. *)
Fixpoint find_char (c : ascii) (s : string) : option nat :=
  match s with
  | EmptyString => None
  | String d s' =>
      if Ascii.eqb c d then Some 0%nat
      else match find_char c s' with
           | Some i => Some (S i)
           | None => None
           end
  end.

Definition contains (c : ascii) (s : string) : bool :=
  match find_char c s with Some _ => true | None => false end.

(** [s[n:]]. *)
Fixpoint drop (n : nat) (s : string) : string :=
  match n, s with
  | S n', String _ s' => drop n' s'
  | _, _ => s
  end.

(** The text before the first character satisfying [p]. *)
Fixpoint take_until (p : ascii -> bool) (s : string) : string :=
  match s with
  | EmptyString => EmptyString
  | String c s' => if p c then EmptyString else String c (take_until p s')
  end.

(** [s.partition(c)[0]]. *)
Definition before (c : ascii) (s : string) : string := take_until (Ascii.eqb c) s.

(** [s.partition(c)[2]]. *)
Definition after (c : ascii) (s : string) : string :=
  match find_char c s with
  | Some i => drop (S i) s
  | None => EmptyString
  end.

(** [s.rpartition(c)[2]]: the text after the last [c], all of [s] when
    there is none. *)
Fixpoint after_last (c : ascii) (s : string) : string :=
  match s with
  | EmptyString => EmptyString
  | String d s' =>
      if contains c s' then after_last c s'
      else if Ascii.eqb c d then s' else s
  end.

Definition digit_value (c : ascii) : Z := Z.of_nat (code c) - 48.

Fixpoint int_acc (acc : Z) (s : string) : Z :=
  match s with
  | EmptyString => acc
  | String c s' => int_acc (10 * acc + digit_value c) s'
  end.

(** [int(s)] on the strings the validator passes to it, which contain no
    sign, blank or underscore: a non-empty run of decimal digits is its
    value, anything else is a [ValueError]. *)
Definition int (s : string) : result Z :=
  if negb (is_empty s) && forallb is_decimal s
  then Returned (int_acc 0 s)
  else Raised ValueError.

End PyStr.

(** ** Regular expressions

    [re.compile(p).match(s)] for a pattern anchored by [^] and [$] asks
    whether [s], or [s] without one final newline, belongs to the language
    of [p]; membership is decided with derivatives. *)

Module Re.

Inductive regex : Type :=
| Void
| Eps
| Sym (p : ascii -> bool)
| Seq (r s : regex)
| Alt (r s : regex)
| Star (r : regex).

Fixpoint nullable (r : regex) : bool :=
  match r with
  | Void => false
  | Eps => true
  | Sym _ => false
  | Seq r s => nullable r && nullable s
  | Alt r s => nullable r || nullable s
  | Star _ => true
  end.

Definition seq (r s : regex) : regex :=
  match r, s with
  | Void, _ => Void
  | _, Void => Void
  | Eps, _ => s
  | _, Eps => r
  | _, _ => Seq r s
  end.

Definition alt (r s : regex) : regex :=
  match r, s with
  | Void, _ => s
  | _, Void => r
  | _, _ => Alt r s
  end.

Fixpoint deriv (c : ascii) (r : regex) : regex :=
  match r with
  | Void => Void
  | Eps => Void
  | Sym p => if p c then Eps else Void
  | Seq r s =>
      if nullable r then alt (seq (deriv c r) s) (deriv c s)
      else seq (deriv c r) s
  | Alt r s => alt (deriv c r) (deriv c s)
  | Star r => seq (deriv c r) (Star r)
  end.

(** The strings that a pattern denotes. *)
Inductive lang : regex -> string -> Prop :=
| lang_eps : lang Eps EmptyString
| lang_sym p c : p c = true -> lang (Sym p) (String c EmptyString)
| lang_seq r1 r2 s1 s2 :
    lang r1 s1 -> lang r2 s2 -> lang (Seq r1 r2) (s1 ++ s2)
| lang_alt_l r1 r2 s : lang r1 s -> lang (Alt r1 r2) s
| lang_alt_r r1 r2 s : lang r2 s -> lang (Alt r1 r2) s
| lang_star_nil r : lang (Star r) EmptyString
| lang_star_cons r s1 s2 :
    lang r s1 -> lang (Star r) s2 -> lang (Star r) (s1 ++ s2).

Fixpoint matches (r : regex) (s : string) : bool :=
  match s with
  | EmptyString => nullable r
  | String c s' => matches (deriv c r) s'
  end.

(** Pattern syntax. *)
Definition opt (r : regex) : regex := Alt Eps r.
Definition plus (r : regex) : regex := Seq r (Star r).

(** [r{0,n}] *)
Fixpoint upto (n : nat) (r : regex) : regex :=
  match n with
  | O => Eps
  | S n' => opt (Seq r (upto n' r))
  end.

(** [r{m,m+k}] *)
Fixpoint between (m k : nat) (r : regex) : regex :=
  match m with
  | O => upto k r
  | S m' => Seq r (between m' k r)
  end.

(** A literal character under [re.IGNORECASE]. *)
Definition chr_i (c : ascii) : regex :=
  Sym (fun d => Ascii.eqb (PyStr.lower_char d) (PyStr.lower_char c)).

Fixpoint lit_i (s : string) : regex :=
  match s with
  | EmptyString => Eps
  | String c s' => Seq (chr_i c) (lit_i s')
  end.

Definition chr (c : ascii) : regex := Sym (Ascii.eqb c).

Fixpoint lit (s : string) : regex :=
  match s with
  | EmptyString => Eps
  | String c s' => Seq (chr c) (lit s')
  end.

(** [\d] *)
Definition digit : regex := Sym PyStr.is_decimal.
(** [\s] *)
Definition space : regex := Sym PyStr.is_space.
(** [.]: any character but a newline. *)
Definition dot : regex := Sym (fun c => negb (Ascii.eqb c "010"%char)).

Fixpoint ends_with_newline (s : string) : bool :=
  match s with
  | EmptyString => false
  | String c EmptyString => Ascii.eqb c "010"%char
  | String _ s' => ends_with_newline s'
  end.

Fixpoint drop_last (s : string) : string :=
  match s with
  | EmptyString => EmptyString
  | String _ EmptyString => EmptyString
  | String c s' => String c (drop_last s')
  end.

(** [re.compile("^" + p + "$").match(s) is not None] *)
Definition match_anchored (r : regex) (s : string) : bool :=
  matches r s || (ends_with_newline s && matches r (drop_last s)).

(** Length of the longest match of [r] that starts at the head of [s]
    ([n] counts the characters consumed so far, [best] is the longest
    match seen).  For the patterns of this development, which have no
    alternation, it is the match the greedy engine of [re] returns. *)
Fixpoint longest_match (r : regex) (n : nat) (best : option nat) (s : string)
  : option nat :=
  let best' := if nullable r then Some n else best in
  match r, s with
  | Void, _ => best
  | _, EmptyString => best'
  | _, String c s' => longest_match (deriv c r) (S n) best' s'
  end.

(** [re.sub(p, '', s)] for such a pattern whose matches are not empty:
    scanning left to right, [skip] characters of a match already found
    remain to be deleted. *)
Fixpoint sub_empty (r : regex) (skip : nat) (s : string) : string :=
  match s with
  | EmptyString => EmptyString
  | String c s' =>
      match skip with
      | S k => sub_empty r k s'
      | O =>
          match longest_match r 0 None s with
          | Some (S k) => sub_empty r k s'
          | _ => String c (sub_empty r 0 s')
          end
      end
  end.

End Re.

(** ** Python values that the code tests for their type or truth *)

Inductive pyobj : Type :=
| PyNone
| PyInt (n : Z)
| PyString (s : string).

(** Truth value of an optional string: [None] and [''] are false. *)
Definition truthy (o : option string) : bool :=
  match o with
  | Some s => negb (PyStr.is_empty s)
  | None => false
  end.

(** [a or b] on an optional string and a string. *)
Definition py_or (a : option string) (b : string) : string :=
  match a with
  | Some s => if PyStr.is_empty s then b else s
  | None => b
  end.

(** A tuple of two components is never empty, so it is always true. *)
Definition pair_is_true {A B : Type} (p : A * B) : bool := true.

Definition is_nil {A : Type} (l : list A) : bool :=
  match l with [] => true | _ => false end.

Definition is_Some_b {A : Type} (o : option A) : bool :=
  match o with Some _ => true | None => false end.

(** [l[i]] *)
Definition getitem {A : Type} (l : list A) (i : nat) : result A :=
  match l !! i with
  | Some a => Returned a
  | None => Raised IndexError
  end.

(** ** [urllib.parse.urlparse(url).hostname] *)

Module UrlParse.

Definition is_c0_or_space (c : ascii) : bool := Nat.leb (PyStr.code c) 32.

Definition is_scheme_char (c : ascii) : bool :=
  PyStr.is_alpha c || PyStr.is_decimal c
  || Ascii.eqb c "+" || Ascii.eqb c "-" || Ascii.eqb c ".".

Definition is_netloc_delim (c : ascii) : bool :=
  Ascii.eqb c "/" || Ascii.eqb c "?" || Ascii.eqb c "#".

(** The leading blanks are stripped, and tabs and line breaks removed. *)
Definition sanitize (url : string) : string :=
  PyStr.remove_char "010"
    (PyStr.remove_char "013"
       (PyStr.remove_char "009" (PyStr.lstrip_by is_c0_or_space url))).

(** What is left of [url] once a leading [scheme:] is split off. *)
Definition strip_scheme (url : string) : string :=
  match PyStr.find_char ":" url, url with
  | Some (S i), String c _ =>
      if PyStr.is_alpha c && PyStr.forallb is_scheme_char (PyStr.take (S i) url)
      then PyStr.drop (S (S i)) url
      else url
  | _, _ => url
  end.

(** [urlsplit(url).netloc]; a bracket without its partner is rejected.
    The further checks that [urlsplit] makes on a netloc with both
    brackets or with characters beyond ASCII are left out: the pattern
    of [url_validator] allows neither in the host. *)
Definition netloc (url : string) : result string :=
  match strip_scheme (sanitize url) with
  | String "/" (String "/" rest) =>
      let n := PyStr.take_until is_netloc_delim rest in
      if xorb (PyStr.contains "[" n) (PyStr.contains "]" n)
      then Raised ValueError
      else Returned n
  | _ => Returned EmptyString
  end.

(** [_hostinfo[0]]: the user info and the port are cut away. *)
Definition hostinfo (n : string) : string :=
  let h := PyStr.after_last "@" n in
  if PyStr.contains "[" h
  then PyStr.before "]" (PyStr.after "[" h)
  else PyStr.before ":" h.

(** [.hostname]: lower case but for an IPv6 zone; [None] when empty. *)
Definition hostname (url : string) : result (option string) :=
  n ← netloc url;
  let h := hostinfo n in
  if PyStr.is_empty h then Returned None
  else Returned (Some (PyStr.lower (PyStr.before "%" h)
                         ++ PyStr.drop (String.length (PyStr.before "%" h)) h)).

End UrlParse.

(** ** [validators.py] *)

Module Validators.

Import Re.

(** [[A-Z0-9]] under [re.IGNORECASE] *)
Definition alnum : regex := Sym (fun c => PyStr.is_alpha c || PyStr.is_decimal c).
(** [[A-Z0-9-]] *)
Definition alnum_dash : regex :=
  Sym (fun c => PyStr.is_alpha c || PyStr.is_decimal c || Ascii.eqb c "-").
(** [[A-Z]] *)
Definition alpha : regex := Sym PyStr.is_alpha.

(** [(?:[A-Z0-9](?:[A-Z0-9-]{0,61}[A-Z0-9])?\.)+[A-Z]{2,6}\.?] *)
Definition domain : regex :=
  Seq (plus (Seq alnum (Seq (opt (Seq (upto 61 alnum_dash) alnum)) (chr "."))))
      (Seq (between 2 4 alpha) (opt (chr "."))).

(** [\d{1,3}\.\d{1,3}\.\d{1,3}\.\d{1,3}] *)
Definition dotted_quad : regex :=
  Seq (between 1 2 digit) (Seq (chr ".")
  (Seq (between 1 2 digit) (Seq (chr ".")
  (Seq (between 1 2 digit) (Seq (chr ".") (between 1 2 digit)))))).

(** The compiled pattern of [url_validator], without its anchors. *)
Definition pattern : regex :=
  Seq (lit_i "http") (Seq (opt (chr_i "s")) (Seq (lit "://")
  (Seq (Alt domain (Alt (lit_i "localhost") dotted_quad))
  (Seq (opt (Seq (chr ":") (plus digit)))
       (opt (Seq (chr "/") (Star dot))))))).

Definition octet_out_of_range (octet : Z) : bool :=
  (octet <? 0)%Z || (octet >? 255)%Z.

(** [pattern.match(url)]; only a [str] can be matched. *)
Definition pattern_match (url : pyobj) : result bool :=
  match url with
  | PyString url => Returned (match_anchored pattern url)
  | _ => Raised TypeError
  end.

(** [urlparse(url).hostname] *)
Definition parsed_hostname (url : pyobj) : result (option string) :=
  match url with
  | PyString url => UrlParse.hostname url
  | _ => Raised TypeError
  end.

(** The body of the [try] block. *)
Definition url_validator_try (url : pyobj) : result bool :=
  matched ← pattern_match url;
  if negb matched then Returned false
  else
    parsed ← parsed_hostname url;
    match parsed with
    | None => Returned false
    | Some hostname =>
        if String.eqb (PyStr.lower hostname) "localhost" then Returned false
        else if PyStr.isdigit (PyStr.remove_char "." hostname) then
          ip_parts ← map_raising PyStr.int (PyStr.split_on "." hostname);
          if negb (Nat.eqb (List.length ip_parts) 4)
             || existsb octet_out_of_range ip_parts
          then Returned false
          else
            p0 ← getitem ip_parts 0;
            if (p0 =? 10)%Z then Returned false
            else
              in_172 ← (if (p0 =? 172)%Z
                        then p1 ← getitem ip_parts 1;
                             Returned ((16 <=? p1)%Z && (p1 <=? 31)%Z)
                        else Returned false);
              if in_172 : bool then Returned false
              else
                in_192 ← (if (p0 =? 192)%Z
                          then p1 ← getitem ip_parts 1; Returned (p1 =? 168)%Z
                          else Returned false);
                if in_192 : bool then Returned false
                else if (p0 =? 127)%Z then Returned false
                else Returned true
        else Returned true
    end.

(** [url_validator]: [except Exception: return False]. *)
Definition url_validator (url : pyobj) : bool :=
  match url_validator_try url with
  | Returned b => b
  | Raised _ => false
  end.

End Validators.

(** ** [keyword_extraction/extractor.py] *)

Module Extractor.
Section Extractor.

(** [self.extractor.extract_keywords], the YAKE library. *)
Variable yake_extract : string -> result (list (string * Q)).

(** The order in which Python enumerates a [set]. *)
Variable list_of_set : gset string -> list string.

Definition extract_unique_long_words
    (text : string) (min_length max_keywords : nat) : list string :=
  let words : gset string :=
    list_to_set
      (List.filter (fun word => Nat.leb min_length (String.length word))
                   (PyStr.split_ws text)) in
  firstn max_keywords (list_of_set words).

Definition extract_keywords (text : pyobj) : result (list (string * Q)) :=
  match text with
  | PyString text =>
      if PyStr.is_empty (PyStr.strip text) then Returned []
      else
        match yake_extract text with
        | Returned keywords => Returned keywords
        | Raised _ =>
            let keywords := extract_unique_long_words text 5 10 in
            if negb (is_nil keywords)
            then Returned (map (fun kw => (kw, 0%Q)) keywords)
            else Raised KeywordExtractionError
        end
  | _ => Returned []
  end.

End Extractor.
End Extractor.

(** ** [language_detect/helpers.py] and [language_detect/detect.py] *)

Module LanguageDetect.

Import Re.

(** Characters that [clean_text] keeps: word characters, blanks and the
    letters from U+00C0 on. *)
Definition is_word (c : ascii) : bool :=
  PyStr.is_decimal c || PyStr.is_alpha c || Ascii.eqb c "_"
  || Nat.eqb (PyStr.code c) 170 || PyStr.in_range 178 179 c
  || Nat.eqb (PyStr.code c) 181 || PyStr.in_range 185 186 c
  || PyStr.in_range 188 190 c
  || (PyStr.in_range 192 255 c && negb (Nat.eqb (PyStr.code c) 215)
      && negb (Nat.eqb (PyStr.code c) 247)).

Definition kept_by_clean_text (c : ascii) : bool :=
  is_word c || PyStr.is_space c || PyStr.in_range 192 255 c.

Fixpoint filter_chars (p : ascii -> bool) (s : string) : string :=
  match s with
  | EmptyString => EmptyString
  | String c s' => if p c then String c (filter_chars p s') else filter_chars p s'
  end.

(** [http\S+] *)
Definition link : regex :=
  Seq (lit "http") (plus (Sym (fun c => negb (PyStr.is_space c)))).

(** [clean_text]; on a [str] neither [except] branch is taken. *)
Definition clean_text (text : string) : option string :=
  let text := PyStr.lower text in
  let text := sub_empty link 0 text in
  let text := filter_chars kept_by_clean_text text in
  Some (PyStr.strip text).

Definition min_confidence : Q := 7 # 10.

Definition Qlt_bool (x y : Q) : bool := negb (Qle_bool y x).

Section Detect.

(** [get_model(model_path).predict(text)], reduced to [labels[0]] and
    [probabilities[0]]; [Raised] when the model cannot be loaded or the
    prediction fails. *)
Variable predict : string -> result (string * Q).

(** What the [try] block of [detect_language] computes. *)
Definition detect_language_try (text : string) : result (option string * Q) :=
  match clean_text text with
  | None => Returned (None, 0%Q)
  | Some text =>
      if PyStr.is_empty text then Returned (None, 0%Q)
      else
        let text :=
          if Nat.ltb (String.length text) 20
          then PyStr.join_space [text; text; text] else text in
        '(label, confidence) ← predict text;
        let language := sub_empty (lit "__label__") 0 label in
        if Qlt_bool confidence min_confidence
        then Returned (None, confidence)
        else Returned (Some language, confidence)
  end.

Definition detect_language (text : string) : option string * Q :=
  match detect_language_try text with
  | Returned r => r
  | Raised _ => (None, 0%Q)
  end.

End Detect.
End LanguageDetect.

(** ** [providers/newsapiorg/helpers.py] *)

Module Helpers.

Import Re.

(** The ["source"] entry of a raw article. *)
Inductive source_entry : Type :=
| SourceKeyMissing
    (** no such key: [article.get("source", {})] is the empty dict *)
| SourceNotADict
    (** [null] or another value without a [get] method *)
| SourceDict (name : option string).

(** A raw article of the provider; [None] is a key that is missing or
    holds [null]. *)
Record RawArticle : Type := {
  raw_title : option string;
  raw_url : option string;
  raw_content : option string;
  raw_description : option string;
  raw_source : source_entry;
  raw_author : option string;
  raw_urlToImage : option string;
  raw_publishedAt : option string
}.

(** The dictionary that [normalize_articles] yields; the fetch cycle
    later assigns [keywords], [language] and [category] in place. *)
Record Article : Type := {
  title : string;
  content : string;
  description : string;
  url : string;
  category : string;
  source : string;
  author : string;
  url_to_image : option string;
  published_date : Z;
  keywords : list (string * Q);
  language : option string
}.

(** [\s+\[\+\d+\s+chars\]] *)
Definition truncation_marker : regex :=
  Seq (plus space) (Seq (lit "[+") (Seq (plus digit) (Seq (plus space) (lit "chars]")))).

(** What one turn of the generator's loop does. *)
Inductive emitted : Type :=
| Skip
| Yield (a : Article)
| Throw (e : exception).

Section Normalize.

(** [parse_datetime]: Django's, or the ISO 8601 fallback of [utils.py].
    [Returned None] is Django's answer to a string of another format. *)
Variable parse_datetime : string -> result (option Z).

(** [timezone.now()] *)
Variable now : Z.

(** Whether [url_validator(url)] is true.  The name is bound to
    [validators.url_validator] when Django cannot be imported; with
    Django it is the class [URLValidator], and the call builds a validator
    object, which is true whatever the url. *)
Variable url_validator : string -> bool.

(** [isinstance(published_date, timezone.datetime)] *)
Definition is_datetime (published_date : option Z) : bool :=
  match published_date with Some _ => true | None => false end.

Definition validate_url_and_date (url : string) (published_date : option Z)
  : bool :=
  if negb (url_validator url) then false
  else if negb (is_datetime published_date) then false
  else true.

Definition source_name (article : RawArticle) : result (option string) :=
  match raw_source article with
  | SourceKeyMissing => Returned None
  | SourceNotADict => Raised AttributeError
  | SourceDict name => Returned name
  end.

Definition normalize_article (article : RawArticle) : emitted :=
  match source_name article with
  | Raised e => Throw e
  | Returned source =>
      match raw_title article, raw_url article, raw_description article,
            source, raw_publishedAt article with
      | Some title, Some url, Some description, Some source, Some published_raw =>
          let content :=
            if negb (truthy (raw_content article)) && truthy (Some description)
            then Some (PyStr.rstrip (PyStr.take 200 description) ++ "...")
            else raw_content article in
          match content with
          | None => Skip
          | Some content =>
              let content := sub_empty truncation_marker 0 content in
              let published_date :=
                if truthy (Some published_raw)
                then match parse_datetime published_raw with
                     | Returned d => d
                     | Raised _ => Some now
                     end
                else Some now in
              match validate_url_and_date url published_date, published_date with
              | false, _ => Skip
              | true, None => Skip
              | true, Some published_date =>
                  Yield {| title := title;
                           content := content;
                           description := description;
                           url := url;
                           category := "general";
                           source := source;
                           author := py_or (raw_author article) source;
                           url_to_image := raw_urlToImage article;
                           published_date := published_date;
                           keywords := [];
                           language := Some "en" |}
              end
          end
      | _, _, _, _, _ => Skip
      end
  end.

(** The generator, run to its end: the articles it yields and the
    exception that stops it, if one does. *)
Fixpoint normalize_articles (articles : list RawArticle)
  : list Article * option exception :=
  match articles with
  | [] => ([], None)
  | article :: rest =>
      match normalize_article article with
      | Skip => normalize_articles rest
      | Throw e => ([], Some e)
      | Yield a =>
          let '(yielded, raised) := normalize_articles rest in
          (a :: yielded, raised)
      end
  end.

End Normalize.
End Helpers.

(** ** Python dictionaries, in insertion order *)

Module PyDict.
Section PyDict.

Context {V : Type}.

(** [d[k] = v]: an existing key keeps its place and takes the new value,
    a new key goes to the end. *)
Fixpoint setitem (k : string) (v : V) (d : list (string * V)) : list (string * V) :=
  match d with
  | [] => [(k, v)]
  | (k', v') :: d' =>
      if String.eqb k k' then (k, v) :: d' else (k', v') :: setitem k v d'
  end.

(** [{k: v for (k, v) in items}], built from [d]. *)
Definition update (d : list (string * V)) (items : list (string * V))
  : list (string * V) :=
  fold_left (fun d kv => setitem (fst kv) (snd kv) d) items d.

Definition of_items (items : list (string * V)) : list (string * V) :=
  update [] items.

Definition keys (d : list (string * V)) : list string := map fst d.
Definition values (d : list (string * V)) : list V := map snd d.

Fixpoint get (k : string) (d : list (string * V)) : option V :=
  match d with
  | [] => None
  | (k', v) :: d' => if String.eqb k k' then Some v else get k d'
  end.

End PyDict.
End PyDict.

(** ** The interruptible wait and the shutdown flag *)

Module Shutdown.

(** What an observer of a lane records. *)
Inductive event : Type :=
| ShutdownSet                     (** the flag goes from clear to set *)
| WaitStarted                     (** [Event.wait] finds the flag clear *)
| AttemptStarted (attempt : nat)  (** [process_fetch_cycle] is entered *)
| ClosingWaitStarted.             (** the wait that ends a fetch cycle finds
                                      the flag clear *)

(** [flag] is [shutdown_requested]; [clock] counts the waits and fetch
    cycles gone by. *)
Record world : Type := {
  flag : bool;
  clock : nat
}.

Section Shutdown.

(** Whether a termination signal is delivered while the [t]-th wait or
    cycle is under way; [signal_handler] then sets the flag. *)
Variable signal_during : nat -> bool.

(** One wait or cycle goes by. *)
Definition pass (w : world) : world * list event :=
  let delivered := signal_during (clock w) in
  ({| flag := flag w || delivered; clock := S (clock w) |},
   if negb (flag w) && delivered then [ShutdownSet] else []).

(** [interruptible_sleep]: [Event.wait] answers at once when the flag is
    set, and otherwise with the flag as it is when the wait ends. *)
Definition interruptible_sleep (w : world) : bool * world * list event :=
  if flag w then (true, w, [])
  else let '(w', evs) := pass w in (flag w', w', WaitStarted :: evs).

End Shutdown.
End Shutdown.

(** ** [management/commands/fetch_provider_articles.py] *)

Module FetchArticles.

Import Helpers Shutdown.

Definition TASK_SLEEP_INTERVAL : nat := 5.
Definition MAX_RETRIES : nat := 3.
Definition BATCH_SIZE : nat := 50.

Definition set_enrichment
    (article : Article) (kw : list (string * Q)) (lang : option string)
    (cat : string) : Article :=
  {| title := title article;
     content := content article;
     description := description article;
     url := url article;
     category := cat;
     source := source article;
     author := author article;
     url_to_image := url_to_image article;
     published_date := published_date article;
     keywords := kw;
     language := lang |}.

(** The rows of the [Article] table.  [url] is declared unique. *)
Definition url_stored (table : list Article) (u : string) : bool :=
  existsb (fun row => String.eqb (url row) u) table.

(** [Article.objects.get(url=u)], if there is such a row. *)
Definition stored_at (table : list Article) (u : string) : option Article :=
  List.find (fun row => String.eqb (url row) u) table.

(** Whether a record meets the NOT NULL constraints of the table.  Of
    the values that a prepared article can lack, [author] and
    [url_to_image] are declared with [null=True]; [language] is not. *)
Definition storable (obj : Article) : bool := is_Some_b (language obj).

(** One row of [bulk_create(..., ignore_conflicts=True)] when the
    database does not raise: a row that violates the uniqueness of [url]
    is skipped, and so is a row that violates a NOT NULL constraint.
    (SQLite's [INSERT OR IGNORE] skips it; an engine that raises on it is
    a database for which [bulk_create_raises] below is true.) *)
Definition insert_ignoring_conflict (table : list Article) (obj : Article)
  : list Article :=
  if url_stored table (url obj) || negb (storable obj) then table
  else (table ++ [obj])%list.

Section Command.

Variable yake_extract : string -> result (list (string * Q)).
Variable list_of_set : gset string -> list string.
Variable predict : string -> result (string * Q).
Variable parse_datetime : string -> result (option Z).
Variable now : Z.
Variable url_validator : string -> bool.

(** The exception, if there is one, that leaves the persistence step
    before its [try]: the one of the query for the urls that exist, when
    the database fails, or of the construction of the [Article] objects. *)
Variable lookup_raises : list Article -> list Article -> option exception.

(** Whether the database raises on a bulk insert of these objects into
    this table; the transaction is then rolled back. *)
Variable bulk_create_raises : list Article -> list Article -> bool.

Definition prepare_article_keywords_and_language (text : string)
  : list (string * Q) * option string :=
  match Extractor.extract_keywords yake_extract list_of_set (PyString text) with
  | Returned keywords =>
      if is_nil keywords then ([], Some "en")
      else
        let language := Some "en" in
        let text :=
          if Nat.ltb 100 (String.length text) then PyStr.take 100 text else text in
        let lang_result := LanguageDetect.detect_language predict text in
        let language :=
          if pair_is_true lang_result then fst lang_result else language in
        (keywords, language)
  | Raised _ => ([], Some "en")
  end.

(** [article_full_content]: title, description and content joined by
    blanks; [x or ''] leaves a string as it is. *)
Definition article_full_content (article : Article) : string :=
  let title := py_or (Some (title article)) "" in
  let description := py_or (Some (description article)) "" in
  let content := py_or (Some (content article)) "" in
  title ++ " " ++ description ++ " " ++ content.

(** The body of the loop over the normalized articles, after the test of
    the shutdown flag; [None] is [continue]. *)
Definition prepare_article (category : string) (article : Article)
  : option Article :=
  let '(keywords, language) :=
    prepare_article_keywords_and_language (article_full_content article) in
  if is_nil keywords && negb (truthy language) then None
  else Some (set_enrichment article keywords language category).

(** The loop; [is_set i] is what [shutdown_requested.is_set()] answers
    on the [i]-th article that the generator hands over. *)
Fixpoint prepare_articles
    (is_set : nat -> bool) (category : string) (i : nat)
    (yielded : list Article) (raised : option exception)
    (prepared_articles : list Article) : result (list Article) :=
  match yielded with
  | [] =>
      match raised with
      | Some e => Raised e
      | None => Returned prepared_articles
      end
  | article :: rest =>
      if is_set i then Returned prepared_articles
      else
        match prepare_article category article with
        | None => prepare_articles is_set category (S i) rest raised prepared_articles
        | Some a =>
            prepare_articles is_set category (S i) rest raised
                             (prepared_articles ++ [a])%list
        end
  end.

Definition bulk_create (table objs : list Article) : result (list Article) :=
  if bulk_create_raises table objs then Raised DatabaseError
  else Returned (fold_left insert_ignoring_conflict objs table).

(** The persistence step: the table afterwards and [stored_count].
    Only the bulk insert is inside the [try]. *)
Definition store_articles (table prepared_articles : list Article)
  : result (list Article * nat) :=
  if negb (is_nil prepared_articles) then
    let unique_articles :=
      PyDict.values (PyDict.of_items (map (fun a => (url a, a)) prepared_articles)) in
    let urls := map url unique_articles in
    match lookup_raises table unique_articles with
    | Some e => Raised e
    | None =>
        let existing_urls : gset string :=
          list_to_set
            (map url (List.filter (fun row => bool_decide (url row ∈ urls)) table)) in
        let new_articles :=
          List.filter (fun a => bool_decide (url a ∉ existing_urls)) unique_articles in
        let article_objs := new_articles in
        match bulk_create table article_objs with
        | Returned table' => Returned (table', List.length article_objs)
        | Raised _ => Returned (table, 0%nat)
        end
    end
  else Returned (table, 0%nat).

(** [process_fetch_cycle]: [fetched] is what [get_top_headlines] gives
    for the lane.  The result is the table and the count that is
    reported, if one is.  The wait that ends the cycle does not touch the
    table; it is part of [attempt_cycle] below. *)
Definition process_fetch_cycle
    (is_set : nat -> bool) (category : string)
    (fetched : result (list RawArticle)) (table : list Article)
  : result (list Article * option nat) :=
  articles ← fetched;
  if is_nil articles then Returned (table, None)
  else
    let '(yielded, raised) :=
      normalize_articles parse_datetime now url_validator articles in
    prepared_articles ← prepare_articles is_set category 0 yielded raised [];
    '(table', stored_count) ← store_articles table prepared_articles;
    Returned (table', Some stored_count).

End Command.

Section Retry.

Variable signal_during : nat -> bool.

(** Whether [process_fetch_cycle] raises on a given attempt. *)
Variable cycle_raises : nat -> bool.

(** The last statement of a cycle that does not raise:
    [self.interruptible_sleep(...)], whose answer is not looked at. *)
Definition closing_sleep (w : world) : world * list event :=
  let '(_, w', evs) := interruptible_sleep signal_during w in
  (w', map (fun ev => match ev with
                      | WaitStarted => ClosingWaitStarted
                      | _ => ev
                      end) evs).

(** One call of [process_fetch_cycle] within the [try]: the work of the
    cycle and, unless it raises, the wait that ends it. *)
Definition attempt_cycle (attempt : nat) (w : world) : bool * world * list event :=
  let '(w1, evs1) := pass signal_during w in
  if cycle_raises attempt then (true, w1, AttemptStarted attempt :: evs1)
  else
    let '(w2, evs2) := closing_sleep w1 in
    (false, w2, AttemptStarted attempt :: (evs1 ++ evs2)%list).

(** [for attempt in attempts: ...; return False] *)
Fixpoint retry_loop (attempts : list nat) (w : world) : bool * world * list event :=
  match attempts with
  | [] => (false, w, [])
  | attempt :: rest =>
      if flag w then (false, w, [])
      else
        let '(interrupted, w1, evs1) := interruptible_sleep signal_during w in
        if interrupted then (false, w1, evs1)
        else
          let '(raised, w2, evs2) := attempt_cycle attempt w1 in
          if negb raised then (true, w2, (evs1 ++ evs2)%list)
          else if Nat.ltb attempt (MAX_RETRIES - 1) then
            let '(interrupted, w3, evs3) := interruptible_sleep signal_during w2 in
            if interrupted then (false, w3, (evs1 ++ evs2 ++ evs3)%list)
            else
              let '(r, w4, evs4) := retry_loop rest w3 in
              (r, w4, (evs1 ++ evs2 ++ evs3 ++ evs4)%list)
          else
            let '(r, w4, evs4) := retry_loop rest w2 in
            (r, w4, (evs1 ++ evs2 ++ evs4)%list)
  end.

Definition run_with_retries (w : world) : bool * world * list event :=
  retry_loop (seq 0 MAX_RETRIES) w.

End Retry.
End FetchArticles.

(** ** [management/commands/fetch_provider_sources.py] *)

Module FetchSources.

(** A source as the provider lists it, and as a row of the [Source]
    table; [name] is declared unique. *)
Record Source : Type := {
  name : string;
  url : string;
  category : string;
  language : string;
  country : string
}.

(** [Source.objects.get(name=n)]; [None] is [Source.DoesNotExist]. *)
Definition get (table : list Source) (n : string) : option Source :=
  List.find (fun row => String.eqb (name row) n) table.

Definition name_stored (table : list Source) (n : string) : bool :=
  existsb (fun row => String.eqb (name row) n) table.

Definition insert_ignoring_conflict (table : list Source) (obj : Source)
  : list Source :=
  if name_stored table (name obj) then table else (table ++ [obj])%list.

(** [obj.save()] for an object read from the row called [name obj]. *)
Definition save (table : list Source) (obj : Source) : list Source :=
  map (fun row => if String.eqb (name row) (name obj) then obj else row) table.

(** Whether one of [url], [category], [language], [country] differs. *)
Definition changed (obj p : Source) : bool :=
  negb (String.eqb (url obj) (url p))
  || negb (String.eqb (category obj) (category p))
  || negb (String.eqb (language obj) (language p))
  || negb (String.eqb (country obj) (country p)).

(** [obj] once the fields of [p] that differ are assigned to it. *)
Definition assign (obj p : Source) : Source :=
  {| name := name obj;
     url := url p;
     category := category p;
     language := language p;
     country := country p |}.

Section Command.

Variable bulk_create_raises : list Source -> list Source -> bool.
Variable save_raises : list Source -> Source -> bool.

Definition bulk_create (table objs : list Source) : result (list Source) :=
  if bulk_create_raises table objs then Raised DatabaseError
  else Returned (fold_left insert_ignoring_conflict objs table).

(** The loop that updates the rows already present.  The counter
    [updated] outlives an exception. *)
Fixpoint update_existing
    (existing_names : gset string) (prepared : list Source)
    (table : list Source) (updated : nat) : result (list Source) * nat :=
  match prepared with
  | [] => (Returned table, updated)
  | p :: rest =>
      if bool_decide (name p ∈ existing_names) then
        match get table (name p) with
        | None => update_existing existing_names rest table updated
        | Some obj =>
            if changed obj p then
              if save_raises table (assign obj p) then (Raised DatabaseError, updated)
              else update_existing existing_names rest
                                   (save table (assign obj p)) (S updated)
            else update_existing existing_names rest table updated
        end
      else update_existing existing_names rest table updated
  end.

(** The block under [if prepared:]: the table afterwards and the line
    ["Created c new sources, updated u existing sources"]. *)
Definition persist (table prepared : list Source) : list Source * (nat * nat) :=
  let names := map name prepared in
  let existing_names : gset string :=
    list_to_set
      (map name (List.filter (fun row => bool_decide (name row ∈ names)) table)) in
  let new_items :=
    List.filter (fun p => bool_decide (name p ∉ existing_names)) prepared in
  match (if negb (is_nil new_items) then bulk_create table new_items
         else Returned table) with
  | Raised _ => (table, (0, 0))%nat
  | Returned table1 =>
      let created := if negb (is_nil new_items) then List.length new_items else 0%nat in
      match update_existing existing_names prepared table1 0 with
      | (Returned table2, updated) => (table2, (created, updated))
      | (Raised _, updated) => (table, (created, updated))
      end
  end.

(** The loop over the fetched sources; the block above is inside it. *)
Fixpoint persist_each
    (sources prepared table : list Source) (summaries : list (nat * nat))
  : list Source * list (nat * nat) :=
  match sources with
  | [] => (table, summaries)
  | _source :: rest =>
      let prepared := (prepared ++ [_source])%list in
      if negb (is_nil prepared) then
        let '(table', summary) := persist table prepared in
        persist_each rest prepared table' (summaries ++ [summary])%list
      else persist_each rest prepared table summaries
  end.

Definition process_fetch_cycle
    (fetched : result (list Source)) (table : list Source)
  : result (list Source * list (nat * nat)) :=
  sources ← fetched;
  if is_nil sources then Returned (table, [])
  else Returned (persist_each sources [] table []).

End Command.
End FetchSources.

(** ** Notions used to state the properties *)

Module Spec.

Import Helpers.

(** The hosts named by the SSRF guard's test. *)
Definition internal_hosts : list string :=
  ["127.0.0.1"; "10.1.2.3"; "192.168.1.1"; "localhost"].

(** A host written with digits and dots only. *)
Definition dotted_digits (host : string) : bool :=
  PyStr.isdigit (PyStr.remove_char "." host).

Definition octets (host : string) : result (list Z) :=
  map_raising PyStr.int (PyStr.split_on "." host).

(** Exactly four octets, each between 0 and 255. *)
Definition four_octets_in_range (host : string) : bool :=
  match octets host with
  | Returned [a; b; c; d] =>
      forallb (fun o => (0 <=? o)%Z && (o <=? 255)%Z) [a; b; c; d]
  | _ => false
  end.

Definition whitespace_only (s : string) : bool := PyStr.forallb PyStr.is_space s.

(** One of [title], [url], [description], the source's name or
    [publishedAt] is absent from the raw article. *)
Definition critical_field_absent (article : RawArticle) : bool :=
  negb (is_Some_b (raw_title article))
  || negb (is_Some_b (raw_url article))
  || negb (is_Some_b (raw_description article))
  || match raw_source article with
     | SourceDict (Some _) => false
     | _ => true
     end
  || negb (is_Some_b (raw_publishedAt article)).

(** The last record of the batch with the given url. *)
Definition last_with_url (u : string) (batch : list Article) : option Article :=
  List.find (fun a => String.eqb (url a) u) (rev batch).

(** The urls of the batch that the table does not hold yet. *)
Definition fresh_urls (table batch : list Article) : gset string :=
  list_to_set (map url batch) ∖ list_to_set (map url table).

(** The deduplication property as the specification words it, for the
    articles: after the persistence step every url of the batch is stored
    with the fields of its last record in the batch, and the count that is
    reported has one unit for each url of the batch. *)
Definition last_write_wins_counted_once
    (lookup_raises : list Article -> list Article -> option exception)
    (bulk_create_raises : list Article -> list Article -> bool)
    (table batch : list Article) : Prop :=
  match FetchArticles.store_articles lookup_raises bulk_create_raises
                                     table batch with
  | Returned (table', stored_count) =>
      (forall u, In u (map url batch) ->
                 FetchArticles.stored_at table' u = last_with_url u batch)
      /\ stored_count = size (list_to_set (map url batch) : gset string)
  | Raised _ => False
  end.

(** The table that an application of the persistence step leaves: an
    application that raises has written nothing. *)
Definition table_after (table : list Article)
    (outcome : result (list Article * nat)) : list Article :=
  match outcome with
  | Returned (table', _) => table'
  | Raised _ => table
  end.

(** The idempotence property as the specification words it: the step is
    applied to the batch, then applied again on the table that the first
    application left; the second application returns and adds no row. *)
Definition second_application_stores_nothing
    (lookup_raises lookup_again : list Article -> list Article -> option exception)
    (bulk_create_raises raises_again : list Article -> list Article -> bool)
    (table batch : list Article) : Prop :=
  let table' :=
    table_after table
      (FetchArticles.store_articles lookup_raises bulk_create_raises
                                    table batch) in
  match FetchArticles.store_articles lookup_again raises_again
                                     table' batch with
  | Returned (table'', _) => List.length table'' = List.length table'
  | Raised _ => False
  end.

(** The same for the sources: the insert and update counts that a cycle
    reports add up to one unit for each name of the batch. *)
Definition sources_counted_once
    (table batch : list FetchSources.Source) : Prop :=
  match FetchSources.process_fetch_cycle
          (fun _ _ => false) (fun _ _ => false) (Returned batch) table with
  | Returned (_, summaries) =>
      list_sum (map (fun s => (fst s + snd s)%nat) summaries)
      = size (list_to_set (map FetchSources.name batch) : gset string)
  | Raised _ => False
  end.

(** The shape of what a run of the retry runner records: waits and
    attempts, then at most the setting of the flag; the boolean tells
    whether the flag is set at the end. *)
Inductive attempts_then_stop : list Shutdown.event -> bool -> Prop :=
| ats_done : attempts_then_stop [] false
| ats_stop : attempts_then_stop [Shutdown.ShutdownSet] true
| ats_wait evs b :
    attempts_then_stop evs b ->
    attempts_then_stop (Shutdown.WaitStarted :: evs) b
| ats_attempt k evs b :
    attempts_then_stop evs b ->
    attempts_then_stop (Shutdown.AttemptStarted k :: evs) b
| ats_closing evs b :
    attempts_then_stop evs b ->
    attempts_then_stop (Shutdown.ClosingWaitStarted :: evs) b.

(** The attempts that a run records, in order. *)
Fixpoint attempts_of (evs : list Shutdown.event) : list nat :=
  match evs with
  | [] => []
  | Shutdown.AttemptStarted k :: evs' => k :: attempts_of evs'
  | _ :: evs' => attempts_of evs'
  end.

(** Nothing is recorded after the shutdown flag is set. *)
Definition shutdown_is_final (evs : list Shutdown.event) : Prop :=
  forall pre post, evs = (pre ++ Shutdown.ShutdownSet :: post)%list -> post = [].

End Spec.

(** ** Sample collaborators and records *)

Module Sample.

Import Helpers.

Definition yake_raises (text : string) : result (list (string * Q)) :=
  Raised ValueError.
Definition yake_finds_nothing (text : string) : result (list (string * Q)) :=
  Returned [].
Definition yake_finds (text : string) : result (list (string * Q)) :=
  Returned [("market", 1 # 10)].

Definition predict_unsure (text : string) : result (string * Q) :=
  Returned ("__label__fr", 41 # 100).
Definition predict_fails (text : string) : result (string * Q) :=
  Raised ValueError.
Definition predict_english (text : string) : result (string * Q) :=
  Returned ("__label__en", 98 # 100).

Definition parse_fixed (s : string) : result (option Z) :=
  Returned (Some 1704067200%Z).

Definition validator (u : string) : bool := Validators.url_validator (PyString u).

Definition db_accepts {Row : Type} (table objs : list Row) : bool := false.
Definition db_refuses {Row : Type} (table objs : list Row) : bool := true.
Definition db_answers (table unique_articles : list Article)
  : option exception := None.
Definition db_unreachable (table unique_articles : list Article)
  : option exception := Some DatabaseError.
Definition never (i : nat) : bool := false.
Definition always (i : nat) : bool := true.

Definition raw (t u d c : string) : RawArticle :=
  {| raw_title := Some t;
     raw_url := Some u;
     raw_content := Some c;
     raw_description := Some d;
     raw_source := SourceDict (Some "Reuters");
     raw_author := None;
     raw_urlToImage := None;
     raw_publishedAt := Some "2024-01-01T00:00:00Z" |}.

Definition raw_short : RawArticle :=
  raw "Go" "https://example.com/a" "Up" "Now".

Definition raw_market : RawArticle :=
  raw "Market rose today" "https://example.com/m" "Stocks" "Shares climbed.".

Definition raw_links : RawArticle :=
  raw "https://t.co/abc" "https://example.com/l" "!!!" "???".

Definition raw_untitled : RawArticle :=
  {| raw_title := None;
     raw_url := Some "https://example.com/u";
     raw_content := Some "Text";
     raw_description := Some "Text";
     raw_source := SourceDict (Some "Reuters");
     raw_author := None;
     raw_urlToImage := None;
     raw_publishedAt := Some "2024-01-01T00:00:00Z" |}.

Definition article (t u : string) : Article :=
  {| title := t;
     content := "Text";
     description := "Text";
     url := u;
     category := "sports";
     source := "Reuters";
     author := "Reuters";
     url_to_image := None;
     published_date := 1704067200;
     keywords := [("market", 1 # 10)];
     language := Some "en" |}.

Definition stored_old : Article := article "Old" "https://example.com/a".
Definition first_copy : Article := article "First" "https://example.com/a".
Definition last_copy : Article := article "Last" "https://example.com/a".
Definition other : Article := article "Other" "https://example.com/b".

(** A prepared article whose language the detector did not settle. *)
Definition undetected : Article :=
  {| title := "Undetected";
     content := "Text";
     description := "Text";
     url := "https://example.com/n";
     category := "sports";
     source := "Reuters";
     author := "Reuters";
     url_to_image := None;
     published_date := 1704067200;
     keywords := [("market", 1 # 10)];
     language := None |}.

Definition source (u : string) : FetchSources.Source :=
  {| FetchSources.name := "Reuters";
     FetchSources.url := u;
     FetchSources.category := "general";
     FetchSources.language := "en";
     FetchSources.country := "us" |}.

Definition idle : Shutdown.world := {| Shutdown.flag := false; Shutdown.clock := 0 |}.

End Sample.

(** ** The loop of a category worker ([run_category_fetch]) *)

Module Worker.

Import Shutdown FetchArticles.

Section Worker.

Variable signal_during : nat -> bool.

(** Whether [process_fetch_cycle] raises on a given attempt of a given
    turn of the loop. *)
Variable cycle_raises : nat -> nat -> bool.

(** The body of [while not self.shutdown_requested.is_set()]: a run of
    the retry runner, the wait before a restart when it failed, and the
    wait for the configured interval.  The boolean tells whether the
    loop goes on, that is, whether no [break] was met. *)
Definition loop_body (turn : nat) (w : world) : bool * world * list event :=
  let '(success, w1, evs1) :=
    run_with_retries signal_during (cycle_raises turn) w in
  let '(stopped, w2, evs2) :=
    if negb success && negb (flag w1)
    then interruptible_sleep signal_during w1
    else (false, w1, []) in
  if stopped then (false, w2, (evs1 ++ evs2)%list)
  else
    let '(interrupted, w3, evs3) := interruptible_sleep signal_during w2 in
    (negb interrupted, w3, (evs1 ++ evs2 ++ evs3)%list).

(** The loop, for at most [fuel] turns; [None] when it is still running
    after them. *)
Fixpoint fetch_loop (fuel turn : nat) (w : world) : option (world * list event) :=
  match fuel with
  | O => None
  | S fuel' =>
      if flag w then Some (w, [])
      else
        let '(goes_on, w', evs) := loop_body turn w in
        if goes_on then
          match fetch_loop fuel' (S turn) w' with
          | Some (w'', evs') => Some (w'', (evs ++ evs')%list)
          | None => None
          end
        else Some (w', evs)
  end.

(** [run_category_fetch]; with [--once] it is one run of the retry
    runner. *)
Definition run_category_fetch (once : bool) (fuel : nat) (w : world)
  : option (world * list event) :=
  if once then
    let '(_, w', evs) := run_with_retries signal_during (cycle_raises 0) w in
    Some (w', evs)
  else fetch_loop fuel 0 w.

End Worker.

(** A signal due at time [t] has set the flag, or is still to come. *)
Definition armed_at (t : nat) (w : world) : Prop :=
  flag w = true \/ (clock w <= t)%nat.

(** Whether every attempt recorded comes directly after a wait of the
    retry runner; [waited] tells whether the event just before is one. *)
Fixpoint paced (waited : bool) (evs : list event) : bool :=
  match evs with
  | [] => true
  | WaitStarted :: evs' => paced true evs'
  | AttemptStarted _ :: evs' => waited && paced false evs'
  | ShutdownSet :: evs' => paced false evs'
  | ClosingWaitStarted :: evs' => paced false evs'
  end.

End Worker.

(** ** More sample values *)

Module Fixture.

Import Helpers.

(** A parser that rejects every string, as [datetime.fromisoformat] does
    for one that is not in ISO 8601 format. *)
Definition parse_raises (s : string) : result (option Z) := Raised ValueError.

(** A raw article whose ["source"] is [null]. *)
Definition raw_null_source : RawArticle :=
  {| raw_title := Some "Rates held";
     raw_url := Some "https://example.com/r";
     raw_content := Some "The bank held rates.";
     raw_description := Some "Rates";
     raw_source := SourceNotADict;
     raw_author := None;
     raw_urlToImage := None;
     raw_publishedAt := Some "2024-01-01T00:00:00Z" |}.

(** A raw article without content. *)
Definition raw_teaser : RawArticle :=
  {| raw_title := Some "Asia stocks";
     raw_url := Some "https://example.com/t";
     raw_content := None;
     raw_description := Some "Stocks rallied across Asia   ";
     raw_source := SourceDict (Some "Reuters");
     raw_author := Some "Ana";
     raw_urlToImage := None;
     raw_publishedAt := Some "2024-01-01T00:00:00Z" |}.

(** What the normalizer yields for [Sample.raw t u d c] when no
    truncation marker is in [c]. *)
Definition normalized (t u d c : string) : Article :=
  {| title := t;
     content := c;
     description := d;
     url := u;
     category := "general";
     source := "Reuters";
     author := "Reuters";
     url_to_image := None;
     published_date := 1704067200;
     keywords := [];
     language := Some "en" |}.

Definition market : Article :=
  FetchArticles.set_enrichment
    (normalized "Market rose today" "https://example.com/m" "Stocks"
                "Shares climbed.")
    [("market", 1 # 10)] (Some "en") "business".

Definition source_named (n u : string) : FetchSources.Source :=
  {| FetchSources.name := n;
     FetchSources.url := u;
     FetchSources.category := "general";
     FetchSources.language := "en";
     FetchSources.country := "us" |}.

Definition save_accepts
    (table : list FetchSources.Source) (obj : FetchSources.Source) : bool := false.
Definition save_fails
    (table : list FetchSources.Source) (obj : FetchSources.Source) : bool := true.

(** [url_validator(url)] where Django is installed, as it is wherever
    the commands run: the name is bound to the class [URLValidator], the
    call constructs a validator and validates nothing, and the object is
    true whatever the url. *)
Definition django_validator (u : string) : bool := true.

(** A database that raises when a row of the bulk insert violates a
    NOT NULL constraint. *)
Definition db_rejects_null (table objs : list Article) : bool :=
  negb (forallb FetchArticles.storable objs).

(** A cycle that raises on its first attempt only. *)
Definition raises_once (attempt : nat) : bool := Nat.eqb attempt 0.

End Fixture.

(** ** [views.py]: the keyword phrases derived from a search text *)

Module Views.

(** [[\s,]] *)
Definition is_separator (c : ascii) : bool := PyStr.is_space c || Ascii.eqb c ",".

(** [re.split(r'[\s,]+', s)]: the pieces between the maximal runs of
    separators, the empty ones at both ends included.  [in_run] tells
    whether the character before is a separator, [cur] is the piece
    read so far. *)
Fixpoint re_split (in_run : bool) (cur : string) (s : string) : list string :=
  match s with
  | EmptyString => [cur]
  | String c s' =>
      if is_separator c then
        if in_run then re_split true cur s'
        else cur :: re_split true EmptyString s'
      else re_split false (cur ++ String c EmptyString) s'
  end.

(** The characters that [strip] is given: both quotes, the brackets
    of the three kinds, and [:;,.!?-/]. *)
Definition is_stripped (c : ascii) : bool :=
  existsb (Ascii.eqb c)
          ["'"; "034"; "("; ")"; "["; "]"; "{"; "}"; ":"; ";"; ","; "."; "!";
           "?"; "-"; "/"]%char.

(** [t.strip(chars)] *)
Definition strip_chars (t : string) : string :=
  PyStr.lstrip_by is_stripped (PyStr.rstrip_by is_stripped t).

Definition tokenize (text : string) : list string :=
  map strip_chars
      (List.filter (fun t => negb (PyStr.is_empty (PyStr.strip t)))
                   (re_split false EmptyString text)).

(** [" ".join(tokens[i : i + size]).strip()] *)
Definition gram (tokens : list string) (size i : nat) : string :=
  PyStr.strip (PyStr.join_space (firstn size (skipn i tokens))).

(** The grams of one size that the inner loop adds, in its order; [i]
    runs over [range(0, len(tokens) - size + 1)]. *)
Definition grams_of_size (tokens : list string) (size : nat) : list string :=
  List.filter (fun g => negb (Nat.ltb (String.length g) 2))
              (map (gram tokens size) (seq 0 (S (List.length tokens) - size))).

(** [range(n, 0, -1)] *)
Definition sizes (n : nat) : list nat := rev (seq 1 n).

(** The sort key is [(-len(p.split()), -len(p))]: [p] comes no later
    than [q] when it has more words, or as many and no fewer
    characters. *)
Definition word_count (p : string) : nat := List.length (PyStr.split_ws p).

Definition precedes (p q : string) : bool :=
  Nat.ltb (word_count q) (word_count p)
  || (Nat.eqb (word_count p) (word_count q)
      && Nat.leb (String.length q) (String.length p)).

(** [sorted]: a stable sort, here by insertion from the right. *)
Fixpoint insert_sorted (p : string) (l : list string) : list string :=
  match l with
  | [] => [p]
  | q :: l' => if precedes p q then p :: q :: l' else q :: insert_sorted p l'
  end.

Definition sorted (l : list string) : list string := fold_right insert_sorted [] l.

Section Phrases.

(** The order in which Python enumerates a [set]. *)
Variable list_of_set : gset string -> list string.

Definition derive_keyword_phrases (text : string) (max_ngram max_phrases : nat)
  : list string :=
  if PyStr.is_empty text then []
  else
    let tokens := tokenize text in
    if is_nil tokens then []
    else
      let n := Nat.min max_ngram (List.length tokens) in
      let phrases : gset string :=
        list_to_set (flat_map (grams_of_size tokens) (sizes n)) in
      firstn max_phrases (sorted (list_of_set phrases)).

End Phrases.

End Views.

(** ** [serializers.py] *)

Module Serializers.

(** [ArticleListSerializer.get_content_preview] *)
Definition get_content_preview (content : string) : string :=
  if Nat.ltb 200 (String.length content)
  then PyStr.take 200 content ++ "..."
  else content.

End Serializers.

(** ** [language_detect/model_loader.py] *)

Module ModelLoader.

Section Loader.

Variable Model : Type.

(** [fasttext.load_model(model_path)], the [n]-th time it is called. *)
Variable load_model : nat -> result Model.

(** The global [_model], and how often [load_model] has been called. *)
Record state : Type := {
  model : option Model;
  loads : nat
}.

(** [get_model], as one thread runs it. *)
Definition get_model (s : state) : result Model * state :=
  match model s with
  | Some m => (Returned m, s)
  | None =>
      match load_model (loads s) with
      | Returned m => (Returned m, {| model := Some m; loads := S (loads s) |})
      | Raised e => (Raised e, {| model := None; loads := S (loads s) |})
      end
  end.

(** [n] calls in a row, with what each of them gives. *)
Fixpoint get_model_times (n : nat) (s : state) : list (result Model) * state :=
  match n with
  | O => ([], s)
  | S n' =>
      let '(r, s1) := get_model s in
      let '(rs, s2) := get_model_times n' s1 in
      (r :: rs, s2)
  end.

End Loader.

Arguments model {Model} s.
Arguments loads {Model} s.

End ModelLoader.

(** * Properties *)

(** ** The pattern matcher *)

Section RegexFacts.

Import Re.

Lemma append_cons (c : ascii) (s1 s2 : string) :
  String c s1 ++ s2 = String c (s1 ++ s2).
Proof. reflexivity. Qed.

Lemma append_nil_l (s : string) : "" ++ s = s.
Proof. reflexivity. Qed.

Lemma append_nil_r (s : string) : s ++ "" = s.
Proof.
  induction s as [|c s IH]; [reflexivity|].
  now rewrite append_cons, IH.
Qed.

Lemma append_empty (s1 s2 : string) : s1 ++ s2 = "" -> s1 = "" /\ s2 = "".
Proof. destruct s1; rewrite ?append_cons, ?append_nil_l; [auto|discriminate]. Qed.

Lemma nullable_lang (r : regex) : nullable r = true <-> lang r "".
Proof.
  induction r as [| |p|r1 IH1 r2 IH2|r1 IH1 r2 IH2|r IH]; simpl.
  - split; [discriminate|inversion 1].
  - split; [constructor|reflexivity].
  - split; [discriminate|inversion 1].
  - rewrite andb_true_iff, IH1, IH2. split.
    + intros [H1 H2]. change "" with ("" ++ ""). now constructor.
    + inversion 1 as [| |? ? s1 s2 H1 H2 Heq Hs| | | |]; subst.
      apply append_empty in Hs as [-> ->]. auto.
  - rewrite orb_true_iff, IH1, IH2. split.
    + intros [H|H]; [now apply lang_alt_l|now apply lang_alt_r].
    + inversion 1; subst; auto.
  - split; [constructor|reflexivity].
Qed.

Lemma lang_Void (s : string) : ~ lang Void s.
Proof. inversion 1. Qed.

Lemma seq_cases (r1 r2 : regex) :
  seq r1 r2 = Seq r1 r2
  \/ (r1 = Void /\ seq r1 r2 = Void)
  \/ (r2 = Void /\ seq r1 r2 = Void)
  \/ (r1 = Eps /\ seq r1 r2 = r2)
  \/ (r2 = Eps /\ seq r1 r2 = r1).
Proof. destruct r1, r2; simpl; auto 10. Qed.

Lemma alt_cases (r1 r2 : regex) :
  alt r1 r2 = Alt r1 r2
  \/ (r1 = Void /\ alt r1 r2 = r2)
  \/ (r2 = Void /\ alt r1 r2 = r1).
Proof. destruct r1, r2; simpl; auto. Qed.

Lemma lang_seq_smart (r1 r2 : regex) (s : string) :
  lang (seq r1 r2) s <-> lang (Seq r1 r2) s.
Proof.
  destruct (seq_cases r1 r2)
    as [->|[[-> ->]|[[-> ->]|[[-> ->]|[-> ->]]]]]; [reflexivity| | | |].
  - split; [intros H; now apply lang_Void in H|].
    inversion 1 as [| |? ? s1 s2 H1 H2| | | |]; subst. now apply lang_Void in H1.
  - split; [intros H; now apply lang_Void in H|].
    inversion 1 as [| |? ? s1 s2 H1 H2| | | |]; subst. now apply lang_Void in H2.
  - split.
    + intros H. change s with ("" ++ s). constructor; [constructor|exact H].
    + inversion 1 as [| |? ? s1 s2 H1 H2| | | |]; subst.
      inversion H1; subst. exact H2.
  - split.
    + intros H. rewrite <- (append_nil_r s). constructor; [exact H|constructor].
    + inversion 1 as [| |? ? s1 s2 H1 H2| | | |]; subst.
      inversion H2; subst. now rewrite append_nil_r.
Qed.

Lemma lang_alt_smart (r1 r2 : regex) (s : string) :
  lang (alt r1 r2) s <-> lang (Alt r1 r2) s.
Proof.
  destruct (alt_cases r1 r2) as [->|[[-> ->]|[-> ->]]]; [reflexivity| |].
  - split; [now apply lang_alt_r|].
    inversion 1 as [| | |? ? ? H1|? ? ? H2| |]; subst;
      [now apply lang_Void in H1|exact H2].
  - split; [now apply lang_alt_l|].
    inversion 1 as [| | |? ? ? H1|? ? ? H2| |]; subst;
      [exact H1|now apply lang_Void in H2].
Qed.

(** A non-empty string of a starred pattern begins with a non-empty
    string of the pattern. *)
Lemma lang_star_head (r : regex) (c : ascii) (s : string) :
  lang (Star r) (String c s) ->
  exists s1 s2, s = s1 ++ s2 /\ lang r (String c s1) /\ lang (Star r) s2.
Proof.
  intros H. remember (Star r) as r' eqn:Hr. remember (String c s) as w eqn:Hw.
  revert c s Hw.
  induction H as [| | | | | |r0 s1 s2 H1 _ H2 IH2]; try discriminate.
  injection Hr as ->. intros c s Hw.
  destruct s1 as [|c1 s1]; rewrite ?append_cons, ?append_nil_l in Hw.
  - exact (IH2 eq_refl c s Hw).
  - injection Hw as -> <-. exists s1, s2. auto.
Qed.

Lemma deriv_lang (r : regex) : forall (c : ascii) (s : string),
  lang (deriv c r) s <-> lang r (String c s).
Proof.
  induction r as [| |p|r1 IH1 r2 IH2|r1 IH1 r2 IH2|r IH]; intros c s; simpl.
  - split; inversion 1.
  - split; inversion 1.
  - destruct (p c) eqn:Hp; split.
    + inversion 1; subst. now constructor.
    + inversion 1; subst. constructor.
    + inversion 1.
    + inversion 1; subst. congruence.
  - assert (lang (Seq (deriv c r1) r2) s \/ (lang r1 "" /\ lang r2 (String c s))
            <-> lang (Seq r1 r2) (String c s)) as Hseq.
    { split.
      - intros [H|[H1 H2]].
        + inversion H as [| |? ? s1 s2 Hd H2| | | |]; subst.
          change (String c (s1 ++ s2)) with (String c s1 ++ s2).
          constructor; [now apply IH1|assumption].
        + change (String c s) with ("" ++ String c s). now constructor.
      - inversion 1 as [| |? ? s1 s2 H1 H2 Hr Hs| | | |]; subst.
        destruct s1 as [|c1 s1]; rewrite ?append_cons, ?append_nil_l in Hs.
        + subst s2. now right.
        + injection Hs as -> <-. left. constructor; [now apply IH1|assumption]. }
    destruct (nullable r1) eqn:Hn.
    + rewrite lang_alt_smart, <- Hseq. split.
      * inversion 1; subst; [left; now apply lang_seq_smart|right].
        split; [now apply nullable_lang|now apply IH2].
      * intros [H|[_ H2]];
          [apply lang_alt_l; now apply lang_seq_smart
          |apply lang_alt_r; now apply IH2].
    + rewrite lang_seq_smart, <- Hseq. split; [now left|].
      intros [H|[H1 _]]; [assumption|].
      apply nullable_lang in H1. congruence.
  - rewrite lang_alt_smart. split.
    + inversion 1; subst; [apply lang_alt_l; now apply IH1
                          |apply lang_alt_r; now apply IH2].
    + inversion 1; subst; [apply lang_alt_l; now apply IH1
                          |apply lang_alt_r; now apply IH2].
  - rewrite lang_seq_smart. split.
    + inversion 1 as [| |? ? s1 s2 Hd H2| | | |]; subst.
      change (String c (s1 ++ s2)) with (String c s1 ++ s2).
      constructor; [now apply IH|assumption].
    + intros H. apply lang_star_head in H as (s1 & s2 & -> & H1 & H2).
      constructor; [now apply IH|assumption].
Qed.

(** The matcher decides membership in the language of the pattern. *)
Lemma matches_lang (s : string) : forall r, matches r s = true <-> lang r s.
Proof.
  induction s as [|c s IH]; intros r; simpl.
  - apply nullable_lang.
  - rewrite IH. apply deriv_lang.
Qed.

End RegexFacts.


(** ** The URL validator *)

Section ValidatorFacts.

Import Validators Spec.

Lemma octet_range_dual (parts : list Z) :
  forallb (fun o => (0 <=? o)%Z && (o <=? 255)%Z) parts = false ->
  existsb octet_out_of_range parts = true.
Proof.
  induction parts as [|o parts IH]; simpl; [discriminate|].
  unfold octet_out_of_range at 1.
  destruct (0 <=? o)%Z eqn:Hlo, (o <=? 255)%Z eqn:Hhi; simpl; intros H;
    try (apply IH in H; rewrite H; apply orb_true_r);
    apply orb_true_iff; left; apply orb_true_iff; lia.
Qed.

Lemma bad_octets_rejected (host : string) (parts : list Z) :
  octets host = Returned parts ->
  four_octets_in_range host = false ->
  negb (Nat.eqb (List.length parts) 4) || existsb octet_out_of_range parts = true.
Proof.
  unfold four_octets_in_range. intros ->.
  destruct parts as [|a [|b [|c [|d [|e parts]]]]]; try reflexivity.
  intros H. apply octet_range_dual in H. rewrite H. apply orb_true_r.
Qed.

End ValidatorFacts.

(** C6.  A URL whose host is 127.0.0.1, 10.1.2.3, 192.168.1.1 or localhost
    is refused by [url_validator], whatever its scheme, port and path, and
    so also when the pattern accepts it, as it does each of these hosts
    after [http://]; [https://example.com/a] is accepted. *)
Theorem url_validator_refuses_internal_hosts :
  (forall url host : string,
      UrlParse.hostname url = Returned (Some host) ->
      In host Spec.internal_hosts ->
      Validators.url_validator (PyString url) = false)
  /\ Forall (fun host =>
               Re.match_anchored Validators.pattern ("http://" ++ host ++ "/") = true
               /\ UrlParse.hostname ("http://" ++ host ++ "/") = Returned (Some host))
            Spec.internal_hosts
  /\ Validators.url_validator (PyString "https://example.com/a") = true.
Proof.
  split; [|split; [|vm_compute; reflexivity]].
  - intros url host Hhost Hin.
    unfold Validators.url_validator, Validators.url_validator_try. simpl.
    destruct (Re.match_anchored Validators.pattern url); simpl; [|reflexivity].
    rewrite Hhost. simpl in Hin |- *.
    destruct Hin as [<-|[<-|[<-|[<-|[]]]]]; vm_compute; reflexivity.
  - repeat constructor; vm_compute; reflexivity.
Qed.

Lemma url_validator_refuses_internal_hosts_witness :
  Re.match_anchored Validators.pattern "http://127.0.0.1:8000/admin" = true
  /\ Validators.url_validator (PyString "http://127.0.0.1:8000/admin") = false.
Proof.
  split; [vm_compute; reflexivity|].
  apply (proj1 url_validator_refuses_internal_hosts
               "http://127.0.0.1:8000/admin" "127.0.0.1").
  - vm_compute; reflexivity.
  - simpl; auto.
Defined.

(** C9.  [url_validator] answers with a boolean on every input: an
    exception raised inside it, whatever its cause, becomes [False]; and a
    host written with digits and dots that is not made of exactly four
    octets between 0 and 255 is refused. *)
Theorem url_validator_total (url : pyobj) :
  (exists b : bool, Validators.url_validator url = b)
  /\ (forall e, Validators.url_validator_try url = Raised e ->
                Validators.url_validator url = false)
  /\ (forall s host,
         url = PyString s ->
         UrlParse.hostname s = Returned (Some host) ->
         Spec.dotted_digits host = true ->
         Spec.four_octets_in_range host = false ->
         Validators.url_validator url = false).
Proof.
  split; [eauto|split].
  - intros e He. unfold Validators.url_validator. now rewrite He.
  - intros s host -> Hhost Hdigits Hbad.
    unfold Validators.url_validator, Validators.url_validator_try. simpl.
    destruct (Re.match_anchored Validators.pattern s); simpl; [|reflexivity].
    rewrite Hhost. simpl.
    destruct (String.eqb (PyStr.lower host) "localhost"); [reflexivity|].
    unfold Spec.dotted_digits in Hdigits. rewrite Hdigits.
    destruct (map_raising PyStr.int (PyStr.split_on "." host)) as [parts|e] eqn:Hparts;
      simpl; [|reflexivity].
    now rewrite (bad_octets_rejected host parts Hparts Hbad).
Qed.

Lemma url_validator_total_witness :
  Validators.url_validator PyNone = false
  /\ Validators.url_validator (PyString "http://256.1.1.1/") = false.
Proof.
  split.
  - apply (proj1 (proj2 (url_validator_total PyNone)) TypeError). reflexivity.
  - apply (proj2 (proj2 (url_validator_total (PyString "http://256.1.1.1/")))
                 "http://256.1.1.1/" "256.1.1.1"); vm_compute; reflexivity.
Defined.

(** ** Strings *)

Section StringFacts.

Lemma forallb_rstrip_by (p : ascii -> bool) (s : string) :
  PyStr.forallb p (PyStr.rstrip_by p s) = PyStr.forallb p s.
Proof.
  induction s as [|c s IH]; simpl; [reflexivity|].
  destruct (PyStr.rstrip_by p s) as [|d t]; simpl in *.
  - rewrite <- IH. destruct (p c) eqn:Hc; simpl; [reflexivity|now rewrite Hc].
  - now rewrite IH.
Qed.

Lemma is_empty_lstrip_by (p : ascii -> bool) (s : string) :
  PyStr.is_empty (PyStr.lstrip_by p s) = PyStr.forallb p s.
Proof.
  induction s as [|c s IH]; simpl; [reflexivity|].
  destruct (p c); simpl; [exact IH|reflexivity].
Qed.

(** [not text.strip()] holds exactly of the texts made of blanks. *)
Lemma strip_empty_iff (s : string) :
  PyStr.is_empty (PyStr.strip s) = Spec.whitespace_only s.
Proof.
  unfold PyStr.strip, PyStr.rstrip, Spec.whitespace_only.
  now rewrite is_empty_lstrip_by, forallb_rstrip_by.
Qed.

End StringFacts.

(** ** The keyword extractor *)

Section ExtractorFacts.

Variable yake_extract : string -> result (list (string * Q)).
Variable list_of_set : gset string -> list string.

(** Python enumerates each element of a set once, in some order. *)
Hypothesis list_of_set_enumerates : forall X, list_of_set X ≡ₚ elements X.

Local Abbreviation extract_keywords := (Extractor.extract_keywords yake_extract list_of_set).
Local Abbreviation long_words := (Extractor.extract_unique_long_words list_of_set).

Lemma long_words_bounded text m n : List.length (long_words text m n) <= n.
Proof. unfold Extractor.extract_unique_long_words. rewrite length_take. lia. Qed.

Lemma long_words_NoDup text m n : NoDup (long_words text m n).
Proof.
  unfold Extractor.extract_unique_long_words.
  eapply sublist_NoDup; [|apply sublist_take].
  rewrite list_of_set_enumerates. apply NoDup_elements.
Qed.

Lemma long_words_drawn text m n w :
  w ∈ long_words text m n -> w ∈ PyStr.split_ws text /\ m <= String.length w.
Proof.
  unfold Extractor.extract_unique_long_words. intros Hw.
  apply subseteq_take in Hw.
  rewrite list_of_set_enumerates in Hw.
  apply elem_of_elements, elem_of_list_to_set, list_elem_of_In, filter_In in Hw.
  destruct Hw as [Hin Hlen]. split.
  - now apply list_elem_of_In.
  - now apply Nat.leb_le.
Qed.

(** C10.  [extract_keywords] returns the empty list, and does not raise,
    on an input that is not a string or is made of blanks only.  When
    YAKE raises, it returns at most 10 distinct words of the text, each
    at least 5 characters long and paired with the score 0.0; it raises
    [KeywordExtractionError] only when YAKE raised and no such word
    exists. *)
Theorem extract_keywords_contract :
  (forall text, (forall s, text <> PyString s) -> extract_keywords text = Returned [])
  /\ (forall s, Spec.whitespace_only s = true ->
                extract_keywords (PyString s) = Returned [])
  /\ (forall s e,
         Spec.whitespace_only s = false ->
         yake_extract s = Raised e ->
         let words := long_words s 5 10 in
         List.length words <= 10
         /\ NoDup words
         /\ (forall w, w ∈ words -> w ∈ PyStr.split_ws s /\ 5 <= String.length w)
         /\ extract_keywords (PyString s) =
              if is_nil words then Raised KeywordExtractionError
              else Returned (map (fun w => (w, 0%Q)) words))
  /\ (forall text e,
         extract_keywords text = Raised e ->
         e = KeywordExtractionError
         /\ exists s e', text = PyString s
                         /\ yake_extract s = Raised e'
                         /\ long_words s 5 10 = []).
Proof.
  split; [|split; [|split]].
  - intros text Hns. destruct text as [| n | s]; try reflexivity.
    now destruct (Hns s).
  - intros s Hws. simpl. now rewrite strip_empty_iff, Hws.
  - intros s e Hws Hyake words. subst words.
    split; [apply long_words_bounded|].
    split; [apply long_words_NoDup|].
    split; [intros w Hw; now apply long_words_drawn in Hw|].
    simpl. rewrite strip_empty_iff, Hws, Hyake.
    now destruct (long_words s 5 10).
  - intros text e Hraise.
    destruct text as [| n | s]; simpl in Hraise; try discriminate.
    destruct (PyStr.is_empty (PyStr.strip s)); [discriminate|].
    destruct (yake_extract s) as [|e'] eqn:Hyake; [discriminate|].
    destruct (long_words s 5 10) eqn:Hwords; simpl in Hraise; [|discriminate].
    split; [congruence|]. exists s, e'. auto.
Qed.

End ExtractorFacts.

Lemma extract_keywords_contract_witness :
  Extractor.extract_keywords Sample.yake_raises elements
    (PyString "Stocks climbed while bonds fell sharply")
  = Returned [("while", 0%Q); ("sharply", 0%Q); ("Stocks", 0%Q);
              ("climbed", 0%Q); ("bonds", 0%Q)]
  /\ Extractor.extract_keywords Sample.yake_raises elements (PyString "Go Up Now")
     = Raised KeywordExtractionError.
Proof.
  pose proof (extract_keywords_contract Sample.yake_raises elements
                (fun X => reflexivity (elements X))) as (_ & _ & H3 & H4).
  split.
  - destruct (H3 "Stocks climbed while bonds fell sharply" ValueError
                 eq_refl eq_refl) as (_ & _ & _ & ->).
    vm_compute. reflexivity.
  - destruct (H3 "Go Up Now" ValueError eq_refl eq_refl) as (_ & _ & _ & ->).
    vm_compute. reflexivity.
Defined.

(** ** The normalizer *)

Section NormalizeFacts.

Import Helpers.

Variable parse_datetime : string -> result (option Z).
Variable now : Z.
Variable url_validator : string -> bool.

Local Abbreviation normalize_article :=
  (Helpers.normalize_article parse_datetime now url_validator).
Local Abbreviation normalize_articles :=
  (Helpers.normalize_articles parse_datetime now url_validator).

Lemma normalize_article_incomplete (article : RawArticle) :
  Spec.critical_field_absent article = true ->
  match raw_source article with
  | SourceNotADict => normalize_article article = Throw AttributeError
  | _ => normalize_article article = Skip
  end.
Proof.
  unfold Spec.critical_field_absent, Helpers.normalize_article, source_name.
  intros Habsent.
  destruct (raw_source article) as [| |[name|]]; simpl;
    destruct (raw_title article), (raw_url article), (raw_description article),
      (raw_publishedAt article); simpl in *; try reflexivity; discriminate.
Qed.

(** What the normalizer itself writes in the fields that the fetch cycle
    assigns afterwards. *)
Lemma normalize_article_placeholders (article : RawArticle) (a : Article) :
  normalize_article article = Yield a ->
  category a = "general" /\ keywords a = [] /\ language a = Some "en".
Proof.
  unfold Helpers.normalize_article.
  destruct (source_name article) as [[name|]|e]; try discriminate;
    destruct (raw_title article), (raw_url article), (raw_description article),
      (raw_publishedAt article); try discriminate.
  destruct (if negb (truthy (raw_content article)) && truthy _ then _ else _)
    as [content|]; try discriminate.
  destruct (validate_url_and_date _ _ _); try discriminate.
  destruct (if truthy _ then _ else _) as [published_date|]; try discriminate.
  intros [= <-]. auto.
Qed.

(** The generator treats its input record by record, until one aborts. *)
Lemma normalize_articles_app (l1 l2 : list RawArticle) :
  normalize_articles (l1 ++ l2) =
    match normalize_articles l1 with
    | (yielded, Some e) => (yielded, Some e)
    | (yielded, None) =>
        let '(yielded', raised) := normalize_articles l2 in
        ((yielded ++ yielded')%list, raised)
    end.
Proof.
  induction l1 as [|r l1 IH]; simpl.
  - now destruct (normalize_articles l2).
  - destruct (normalize_article r); try assumption; try reflexivity.
    rewrite IH. destruct (normalize_articles l1) as [ys [e|]]; [reflexivity|].
    now destruct (normalize_articles l2).
Qed.

(** C7.  A raw article that lacks its title, url, description, source
    name or publication time is never yielded by [normalize_articles]:
    the turn of the loop that treats it yields nothing, and whatever the
    generator yields for a list that contains it is also yielded, in that
    order, for the list without it. *)
Theorem normalize_articles_drops_incomplete (article : RawArticle) :
  Spec.critical_field_absent article = true ->
  (forall a, normalize_article article <> Yield a)
  /\ (forall before after,
         fst (normalize_articles (before ++ article :: after))
           `prefix_of` fst (normalize_articles (before ++ after)))
  /\ (raw_source article <> SourceNotADict ->
      forall before after,
        normalize_articles (before ++ article :: after)
        = normalize_articles (before ++ after)).
Proof.
  intros Habsent. pose proof (normalize_article_incomplete article Habsent) as Hturn.
  split; [|split].
  - intros a Ha. rewrite Ha in Hturn.
    destruct (raw_source article) as [| |[name|]]; discriminate.
  - intros before after. rewrite !normalize_articles_app.
    destruct (normalize_articles before) as [ys [e|]]; [reflexivity|].
    simpl. destruct (raw_source article) as [| |name]; rewrite Hturn.
    + reflexivity.
    + destruct (normalize_articles after) as [ys' r]. simpl.
      exists ys'. now rewrite app_nil_r.
    + reflexivity.
  - intros Hdict before after. rewrite !normalize_articles_app.
    destruct (normalize_articles before) as [ys [e|]]; [reflexivity|].
    simpl. destruct (raw_source article) as [| |name]; try rewrite Hturn;
      try reflexivity.
    now destruct Hdict.
Qed.

End NormalizeFacts.

Lemma normalize_articles_drops_incomplete_witness :
  map Helpers.title
      (fst (Helpers.normalize_articles Sample.parse_fixed 0 Sample.validator
              [Sample.raw_market; Sample.raw_untitled; Sample.raw_short]))
  = ["Market rose today"; "Go"].
Proof.
  pose proof (proj2 (proj2 (normalize_articles_drops_incomplete
                              Sample.parse_fixed 0%Z Sample.validator
                              Sample.raw_untitled eq_refl))
                    ltac:(discriminate) [Sample.raw_market] [Sample.raw_short])
    as Hdropped.
  cbn [app] in Hdropped. rewrite Hdropped. vm_compute. reflexivity.
Defined.

(** ** Dictionaries *)

Section PyDictFacts.

Context {V : Type}.
Implicit Types (d items : list (string * V)) (k : string) (v : V).

Lemma get_setitem_eq k v d : PyDict.get k (PyDict.setitem k v d) = Some v.
Proof.
  induction d as [|[k' v'] d IH]; simpl.
  - now rewrite String.eqb_refl.
  - destruct (String.eqb k k') eqn:E; simpl; rewrite ?String.eqb_refl, ?E; auto.
Qed.

Lemma get_setitem_ne k k' v d :
  k <> k' -> PyDict.get k' (PyDict.setitem k v d) = PyDict.get k' d.
Proof.
  intros Hne. induction d as [|[k0 v0] d IH]; simpl.
  - destruct (String.eqb_spec k' k); congruence.
  - destruct (String.eqb_spec k k0) as [->|Hk]; simpl.
    + destruct (String.eqb_spec k' k0); congruence.
    + now rewrite IH.
Qed.

Lemma keys_setitem k v d :
  PyDict.keys (PyDict.setitem k v d) =
    if bool_decide (k ∈ PyDict.keys d) then PyDict.keys d
    else (PyDict.keys d ++ [k])%list.
Proof.
  induction d as [|[k' v'] d IH]; simpl; [reflexivity|].
  destruct (String.eqb_spec k k') as [->|Hne]; simpl.
  - rewrite bool_decide_eq_true_2; [reflexivity|left].
  - rewrite IH. destruct (bool_decide_reflect (k ∈ PyDict.keys d)) as [Hin|Hnin].
    + rewrite bool_decide_eq_true_2; [reflexivity|now right].
    + rewrite bool_decide_eq_false_2; [reflexivity|].
      intros Hin. apply elem_of_cons in Hin as [?|?]; contradiction.
Qed.

Lemma keys_setitem_NoDup k v d :
  NoDup (PyDict.keys d) -> NoDup (PyDict.keys (PyDict.setitem k v d)).
Proof.
  intros Hd. rewrite keys_setitem. case_bool_decide; [assumption|].
  apply NoDup_app. split; [assumption|]. split; [|apply NoDup_singleton].
  intros x Hx Hk. apply list_elem_of_singleton in Hk. congruence.
Qed.

Lemma keys_update_NoDup items : forall d,
  NoDup (PyDict.keys d) -> NoDup (PyDict.keys (PyDict.update d items)).
Proof.
  induction items as [|[k v] items IH]; intros d Hd; simpl; [assumption|].
  apply IH. now apply keys_setitem_NoDup.
Qed.

Lemma get_app k d1 d2 :
  PyDict.get k (d1 ++ d2) =
    match PyDict.get k d1 with Some v => Some v | None => PyDict.get k d2 end.
Proof.
  induction d1 as [|[k' v'] d1 IH]; simpl; [reflexivity|].
  now destruct (String.eqb k k').
Qed.

(** The value of a key is the one written last. *)
Lemma get_update k items : forall d,
  PyDict.get k (PyDict.update d items) =
    match PyDict.get k (rev items) with
    | Some v => Some v
    | None => PyDict.get k d
    end.
Proof.
  induction items as [|[k' v'] items IH]; intros d; simpl; [reflexivity|].
  rewrite IH, get_app. destruct (PyDict.get k (rev items)); [reflexivity|].
  simpl. destruct (String.eqb_spec k k') as [->|Hne].
  - apply get_setitem_eq.
  - apply get_setitem_ne. congruence.
Qed.

Lemma entries_setitem (P : string * V -> Prop) k v d :
  Forall P d -> P (k, v) -> Forall P (PyDict.setitem k v d).
Proof.
  induction d as [|[k' v'] d IH]; simpl; intros Hd Hkv.
  - now constructor.
  - inversion Hd; subst. destruct (String.eqb k k'); constructor; auto.
Qed.

Lemma entries_update (P : string * V -> Prop) items : forall d,
  Forall P d -> Forall P items -> Forall P (PyDict.update d items).
Proof.
  induction items as [|[k v] items IH]; intros d Hd Hitems; simpl; [assumption|].
  inversion Hitems; subst. apply IH; [|assumption]. now apply entries_setitem.
Qed.

Lemma get_None_keys k d : PyDict.get k d = None <-> ~ In k (PyDict.keys d).
Proof.
  induction d as [|[k' v'] d IH]; simpl; [tauto|].
  destruct (String.eqb_spec k k') as [->|Hne].
  - split; [discriminate|]. intros H. destruct H. now left.
  - rewrite IH. split; [intros H [?|?]; [congruence|contradiction]|tauto].
Qed.

End PyDictFacts.

(** ** The article table *)

Section StoreFacts.

Import Helpers FetchArticles.

Implicit Types (table objs batch : list Article) (u : string).

Lemma url_stored_In table u : url_stored table u = true <-> In u (map url table).
Proof.
  unfold url_stored. rewrite existsb_exists, in_map_iff.
  split; intros (row & H1 & H2); exists row.
  - apply String.eqb_eq in H2. auto.
  - split; [assumption|]. now apply String.eqb_eq.
Qed.

Lemma url_stored_false table u : url_stored table u = false <-> ~ In u (map url table).
Proof. rewrite <- url_stored_In. now destruct (url_stored table u). Qed.

Lemma stored_at_app table objs u :
  stored_at (table ++ objs) u =
    match stored_at table u with
    | Some row => Some row
    | None => stored_at objs u
    end.
Proof.
  unfold stored_at. induction table as [|row table IH]; simpl; [reflexivity|].
  now destruct (String.eqb (url row) u).
Qed.

Lemma stored_at_None table u : url_stored table u = false -> stored_at table u = None.
Proof.
  unfold url_stored, stored_at. induction table as [|row table IH]; simpl; [reflexivity|].
  destruct (String.eqb (url row) u); [discriminate|exact IH].
Qed.

(** Of rows whose urls are new and distinct, those that the table can
    hold are all appended. *)
Lemma bulk_insert_fresh objs : forall table,
  NoDup (map url objs) ->
  (forall o, In o objs -> ~ In (url o) (map url table)) ->
  fold_left insert_ignoring_conflict objs table
  = (table ++ List.filter storable objs)%list.
Proof.
  induction objs as [|o objs IH]; intros table Hnd Hfresh;
    cbn [fold_left List.filter].
  - now rewrite app_nil_r.
  - unfold insert_ignoring_conflict at 2.
    rewrite (proj2 (url_stored_false table (url o))) by (apply Hfresh; now left).
    cbn [map] in Hnd. apply NoDup_cons in Hnd as [Ho Hnd]. cbn [orb].
    destruct (storable o); cbn [negb].
    + rewrite IH; [now rewrite <- app_assoc|assumption|].
      intros o' Ho'. rewrite map_app, in_app_iff. cbn [map In].
      intros [Hin|[Heq|[]]].
      * apply (Hfresh o'); [now right|assumption].
      * apply Ho. rewrite Heq. apply list_elem_of_In. now apply in_map.
    + apply IH; [assumption|]. intros o' Ho'. apply Hfresh. now right.
Qed.

Lemma bulk_insert_keeps_unique objs : forall table,
  NoDup (map url table) ->
  NoDup (map url (fold_left insert_ignoring_conflict objs table)).
Proof.
  induction objs as [|o objs IH]; intros table Hnd; simpl; [assumption|].
  apply IH. unfold insert_ignoring_conflict.
  destruct (url_stored table (url o)) eqn:E; [assumption|].
  destruct (storable o); [|assumption]. cbn [orb negb].
  rewrite map_app. apply NoDup_app. split; [assumption|].
  split; [|apply NoDup_singleton].
  intros x Hx Hx'. apply list_elem_of_singleton in Hx'. subst x.
  apply url_stored_false in E. apply E. now apply list_elem_of_In.
Qed.

Lemma bulk_insert_monotone objs : forall table u,
  In u (map url table) ->
  In u (map url (fold_left insert_ignoring_conflict objs table)).
Proof.
  induction objs as [|o objs IH]; intros table u Hu; simpl; [assumption|].
  apply IH. unfold insert_ignoring_conflict.
  destruct (url_stored table (url o) || negb (storable o)); [assumption|].
  rewrite map_app, in_app_iff. now left.
Qed.

Lemma bulk_insert_covers objs : forall table o,
  In o objs ->
  storable o = true ->
  In (url o) (map url (fold_left insert_ignoring_conflict objs table)).
Proof.
  induction objs as [|o' objs IH]; intros table o Ho Hs; simpl; [destruct Ho|].
  destruct Ho as [->|Ho]; [|now apply IH].
  apply bulk_insert_monotone. unfold insert_ignoring_conflict.
  rewrite Hs. cbn [negb]. rewrite orb_false_r.
  destruct (url_stored table (url o)) eqn:E.
  - now apply url_stored_In.
  - rewrite map_app, in_app_iff. right. now left.
Qed.

Lemma bulk_insert_origin objs : forall table row,
  In row (fold_left insert_ignoring_conflict objs table) ->
  In row table \/ In row objs.
Proof.
  induction objs as [|o objs IH]; intros table row Hrow; simpl in *; [now left|].
  apply IH in Hrow as [Hrow|Hrow]; [|now right; right].
  unfold insert_ignoring_conflict in Hrow.
  destruct (url_stored table (url o) || negb (storable o)); [now left|].
  apply in_app_iff in Hrow as [?|[?|[]]]; [now left|now right; left].
Qed.

End StoreFacts.

(** ** The persistence step *)

Section PersistFacts.

Import Helpers FetchArticles.

Implicit Types (table objs batch : list Article) (u : string).

(** [unique_articles] and [new_articles], as [store_articles] binds them. *)
Local Abbreviation unique_articles batch :=
  (PyDict.values (PyDict.of_items (map (fun a => (url a, a)) batch))).
Local Abbreviation new_articles table batch :=
  (List.filter (fun a => negb (url_stored table (url a))) (unique_articles batch)).

Lemma find_keyed (l : list Article) u :
  PyDict.get u (map (fun a => (url a, a)) l)
  = List.find (fun a => String.eqb (url a) u) l.
Proof.
  induction l as [|a l IH]; simpl; [reflexivity|].
  rewrite String.eqb_sym. now rewrite IH.
Qed.

Lemma keyed_dict (d : list (string * Article)) :
  Forall (fun kv => fst kv = url (snd kv)) d ->
  map url (PyDict.values d) = PyDict.keys d
  /\ forall u, stored_at (PyDict.values d) u = PyDict.get u d.
Proof.
  unfold stored_at. induction 1 as [|[k a] d Hk Hd [IH1 IH2]]; simpl; [easy|].
  simpl in Hk. subst k. split; [now rewrite IH1|].
  intros u. rewrite String.eqb_sym. now rewrite IH2.
Qed.

Lemma unique_articles_keyed batch :
  Forall (fun kv => fst kv = url (snd kv))
         (PyDict.of_items (map (fun a => (url a, a)) batch)).
Proof.
  apply entries_update; [constructor|].
  apply Forall_forall. intros kv Hkv.
  apply list_elem_of_In, in_map_iff in Hkv as (a & <- & _). reflexivity.
Qed.

Lemma unique_articles_NoDup batch : NoDup (map url (unique_articles batch)).
Proof.
  rewrite (proj1 (keyed_dict _ (unique_articles_keyed batch))).
  apply keys_update_NoDup. constructor.
Qed.

(** Deduplication keeps, for each url, the last record of the batch. *)
Lemma unique_articles_last batch u :
  stored_at (unique_articles batch) u = Spec.last_with_url u batch.
Proof.
  rewrite (proj2 (keyed_dict _ (unique_articles_keyed batch))).
  unfold PyDict.of_items. rewrite get_update. simpl.
  rewrite <- map_rev, find_keyed. unfold Spec.last_with_url.
  now destruct (List.find _ (rev batch)).
Qed.

Lemma stored_at_Some (l : list Article) u :
  In u (map url l) <-> exists a, stored_at l u = Some a.
Proof.
  unfold stored_at. split.
  - intros Hu. apply in_map_iff in Hu as (a & Ha & Hin).
    destruct (List.find (fun row => String.eqb (url row) u) l) eqn:E; [eauto|].
    eapply find_none in E; [|exact Hin]. apply String.eqb_neq in E. contradiction.
  - intros (a & Ha). apply find_some in Ha as [Hin Heq].
    apply String.eqb_eq in Heq. subst u. now apply in_map.
Qed.

Lemma last_with_url_Some batch u :
  In u (map url batch) <-> exists a, Spec.last_with_url u batch = Some a.
Proof.
  unfold Spec.last_with_url. rewrite <- (stored_at_Some (rev batch) u).
  rewrite map_rev, <- in_rev. reflexivity.
Qed.

Lemma unique_articles_urls batch u :
  In u (map url (unique_articles batch)) <-> In u (map url batch).
Proof.
  now rewrite stored_at_Some, unique_articles_last, <- last_with_url_Some.
Qed.

Lemma unique_articles_origin batch a :
  In a (unique_articles batch) -> In a batch.
Proof.
  intros Ha. apply in_map_iff in Ha as ([k a'] & Heq & Hin). simpl in Heq. subst a'.
  assert (Forall (fun kv => In (snd kv) batch)
                 (PyDict.of_items (map (fun a => (url a, a)) batch))) as Hall.
  { apply entries_update; [constructor|].
    apply Forall_forall. intros kv Hkv.
    apply list_elem_of_In, in_map_iff in Hkv as (b & <- & Hb). exact Hb. }
  rewrite Forall_forall in Hall. apply (Hall (k, a)). now apply list_elem_of_In.
Qed.

(** The query for the urls already stored, and the filter that follows. *)
Lemma new_articles_eq table (unique : list Article) :
  let urls := map url unique in
  let existing_urls : gset string :=
    list_to_set
      (map url (List.filter (fun row => bool_decide (url row ∈ urls)) table)) in
  List.filter (fun a => bool_decide (url a ∉ existing_urls)) unique
  = List.filter (fun a => negb (url_stored table (url a))) unique.
Proof.
  intros urls existing_urls. apply filter_ext_in. intros a Ha.
  destruct (url_stored table (url a)) eqn:E; simpl.
  - apply bool_decide_eq_false_2. intros Hnot. apply Hnot.
    apply elem_of_list_to_set, list_elem_of_In.
    apply url_stored_In, in_map_iff in E as (row & Hrow & Hin).
    apply in_map_iff. exists row. split; [assumption|].
    apply filter_In. split; [assumption|].
    apply bool_decide_eq_true_2, list_elem_of_In. rewrite Hrow. now apply in_map.
  - apply bool_decide_eq_true_2. intros Hin.
    apply elem_of_list_to_set, list_elem_of_In, in_map_iff in Hin
      as (row & Hrow & Hin).
    apply filter_In in Hin as [Hin _].
    apply url_stored_false in E. apply E. rewrite <- Hrow. now apply in_map.
Qed.

Lemma NoDup_map_filter {A B : Type} (f : A -> B) (p : A -> bool) (l : list A) :
  NoDup (map f l) -> NoDup (map f (List.filter p l)).
Proof.
  induction l as [|a l IH]; simpl; [auto|].
  intros Hnd. apply NoDup_cons in Hnd as [Ha Hnd].
  destruct (p a); simpl; [|auto].
  apply NoDup_cons. split; [|auto].
  intros Hin. apply Ha. apply list_elem_of_In, in_map_iff in Hin as (x & Hx & Hin).
  apply filter_In in Hin as [Hin _]. apply list_elem_of_In, in_map_iff. eauto.
Qed.

Lemma new_articles_NoDup table batch : NoDup (map url (new_articles table batch)).
Proof. apply NoDup_map_filter, unique_articles_NoDup. Qed.

Lemma new_articles_fresh table batch o :
  In o (new_articles table batch) -> ~ In (url o) (map url table).
Proof.
  intros Ho. apply filter_In in Ho as [_ Ho].
  apply url_stored_false. now destruct (url_stored table (url o)).
Qed.

Lemma new_articles_urls table batch u :
  In u (map url (new_articles table batch))
  <-> In u (map url batch) /\ ~ In u (map url table).
Proof.
  split.
  - intros Hu. apply in_map_iff in Hu as (a & <- & Ha). split.
    + apply unique_articles_urls, in_map. now apply filter_In in Ha as [Ha _].
    + eapply new_articles_fresh, Ha.
  - intros [Hu Hfresh]. apply unique_articles_urls in Hu.
    apply in_map_iff in Hu as (a & <- & Ha).
    apply in_map, filter_In. split; [assumption|].
    apply url_stored_false in Hfresh. now rewrite Hfresh.
Qed.

Lemma stored_at_filter (p : Article -> bool) (l : list Article) u :
  (forall a, url a = u -> p a = true) ->
  stored_at (List.filter p l) u = stored_at l u.
Proof.
  unfold stored_at. intros Hp. induction l as [|a l IH]; simpl; [reflexivity|].
  destruct (String.eqb_spec (url a) u) as [Heq|Hne].
  - rewrite (Hp a Heq). simpl. now rewrite (proj2 (String.eqb_eq _ _) Heq).
  - destruct (p a); simpl; [|exact IH].
    now rewrite (proj2 (String.eqb_neq _ _) Hne).
Qed.

(** Among records with distinct urls, a filter keeps or drops the one
    record of a url. *)
Lemma stored_at_filter_unique (p : Article -> bool) (l : list Article) u :
  NoDup (map url l) ->
  stored_at (List.filter p l) u =
    match stored_at l u with
    | Some a => if p a then Some a else None
    | None => None
    end.
Proof.
  unfold stored_at. induction l as [|a l IH]; cbn [map List.filter find];
    [reflexivity|].
  intros [Ha Hl]%NoDup_cons. specialize (IH Hl).
  destruct (String.eqb (url a) u) eqn:Hu.
  - apply String.eqb_eq in Hu. subst u.
    destruct (p a); cbn [find]; [now rewrite String.eqb_refl|].
    destruct (find _ (List.filter p l)) as [b|] eqn:Hb; [|reflexivity].
    apply find_some in Hb as [Hin Hb]. apply String.eqb_eq in Hb.
    apply filter_In in Hin as [Hin _]. exfalso. apply Ha.
    rewrite <- Hb. apply list_elem_of_In. now apply in_map.
  - destruct (p a); cbn [find]; [rewrite Hu|]; exact IH.
Qed.

Lemma stored_at_unique (l : list Article) a :
  NoDup (map url l) -> In a l -> stored_at l (url a) = Some a.
Proof.
  unfold stored_at. induction l as [|b l IH]; cbn [map find]; [easy|].
  intros [Hb Hl]%NoDup_cons [->|Ha]; [now rewrite String.eqb_refl|].
  destruct (String.eqb (url b) (url a)) eqn:Hu; [|auto].
  apply String.eqb_eq in Hu. exfalso. apply Hb. rewrite Hu.
  apply list_elem_of_In. now apply in_map.
Qed.

Lemma url_stored_stored_at (l : list Article) u :
  url_stored l u = match stored_at l u with Some _ => true | None => false end.
Proof.
  unfold url_stored, stored_at. induction l as [|a l IH]; cbn [existsb find];
    [reflexivity|].
  destruct (String.eqb (url a) u); [reflexivity|exact IH].
Qed.

Lemma url_stored_app (l k : list Article) u :
  url_stored (l ++ k) u = url_stored l u || url_stored k u.
Proof. unfold url_stored. apply existsb_app. Qed.

Lemma filter_all {A : Type} (p : A -> bool) (l : list A) :
  (forall a, In a l -> p a = true) -> List.filter p l = l.
Proof.
  induction l as [|a l IH]; cbn [List.filter]; [reflexivity|]. intros H.
  rewrite (H a (or_introl eq_refl)), IH; [reflexivity|].
  intros b Hb. apply H. now right.
Qed.

Lemma filter_twice {A : Type} (p q : A -> bool) (l : list A) :
  List.filter q (List.filter p l) = List.filter (fun a => p a && q a) l.
Proof.
  induction l as [|a l IH]; cbn [List.filter]; [reflexivity|].
  destruct (p a); cbn [List.filter andb]; [|exact IH].
  destruct (q a); now rewrite IH.
Qed.

Lemma filter_complement_none {A : Type} (p : A -> bool) (l : list A) :
  List.filter p (List.filter (fun a => negb (p a)) l) = [].
Proof.
  induction l as [|a l IH]; cbn [List.filter]; [reflexivity|].
  destruct (p a) eqn:Hp; cbn [negb List.filter]; [exact IH|].
  now rewrite Hp.
Qed.

Lemma filter_split_length {A : Type} (p : A -> bool) (l : list A) :
  (List.length (List.filter p l)
   + List.length (List.filter (fun a => negb (p a)) l))%nat
  = List.length l.
Proof.
  induction l as [|a l IH]; cbn [List.filter]; [reflexivity|].
  destruct (p a); cbn [negb List.length]; lia.
Qed.

Variable lookup_raises : list Article -> list Article -> option exception.
Variable bulk_create_raises : list Article -> list Article -> bool.

Local Abbreviation store_articles :=
  (FetchArticles.store_articles lookup_raises bulk_create_raises).

(** The persistence step, computed.  For a batch that is not empty the
    steps before the [try] may raise; otherwise, unless the database
    raises on the insert, those of the deduplicated records whose url is
    not stored and that the table can hold are appended, and all of the
    former are counted. *)
Lemma store_articles_eq table batch :
  store_articles table batch =
    match (if is_nil batch then None
           else lookup_raises table (unique_articles batch)) with
    | Some e => Raised e
    | None =>
        if bulk_create_raises table (new_articles table batch)
        then Returned (table, 0%nat)
        else Returned ((table ++ List.filter storable (new_articles table batch))%list,
                       List.length (new_articles table batch))
    end.
Proof.
  unfold FetchArticles.store_articles.
  destruct batch as [|a batch].
  - cbn. rewrite app_nil_r. now destruct (bulk_create_raises table []).
  - cbn [is_nil negb].
    destruct (lookup_raises table (unique_articles (a :: batch))); [reflexivity|].
    rewrite new_articles_eq. unfold bulk_create.
    destruct (bulk_create_raises table (new_articles table (a :: batch)));
      [reflexivity|].
    rewrite bulk_insert_fresh; [reflexivity|apply new_articles_NoDup|].
    apply new_articles_fresh.
Qed.

(** What a persistence step that returns has done to the table. *)
Lemma store_articles_Returned table batch table' stored_count :
  store_articles table batch = Returned (table', stored_count) ->
  (table' = table /\ stored_count = 0%nat)
  \/ (table' = (table ++ List.filter storable (new_articles table batch))%list
      /\ stored_count = List.length (new_articles table batch)).
Proof.
  rewrite store_articles_eq.
  destruct (if is_nil batch then None else _); [discriminate|].
  destruct (bulk_create_raises table (new_articles table batch));
    intros [= <- <-]; auto.
Qed.

(** Only the steps before the [try] let an exception out. *)
Lemma store_articles_Raised table batch e :
  store_articles table batch = Raised e ->
  batch <> [] /\ lookup_raises table (unique_articles batch) = Some e.
Proof.
  rewrite store_articles_eq. destruct batch as [|a batch]; cbn [is_nil].
  - now destruct (bulk_create_raises table _).
  - destruct (lookup_raises table (unique_articles (a :: batch)));
      [now intros [= <-]|].
    now destruct (bulk_create_raises table _).
Qed.

Lemma store_articles_keeps_unique table batch :
  NoDup (map url table) ->
  NoDup (map url (Spec.table_after table (store_articles table batch))).
Proof.
  intros Hnd.
  destruct (store_articles table batch) as [[table' stored_count]|e] eqn:E;
    cbn [Spec.table_after]; [|assumption].
  apply store_articles_Returned in E as [[-> _]|[-> _]]; [assumption|].
  rewrite map_app. apply NoDup_app. split; [assumption|].
  split; [|apply NoDup_map_filter, new_articles_NoDup].
  intros u Hu Hu'. apply list_elem_of_In in Hu, Hu'.
  apply in_map_iff in Hu' as (a & <- & [Ha _]%filter_In).
  apply (new_articles_fresh table batch a Ha). assumption.
Qed.

(** After an accepted insert the urls of the batch that are still not
    stored are those of the records that the table cannot hold. *)
Lemma new_articles_after table batch :
  new_articles (table ++ List.filter storable (new_articles table batch)) batch
  = List.filter (fun a => negb (storable a)) (new_articles table batch).
Proof.
  rewrite (filter_twice _ (fun a => negb (storable a))).
  apply List.filter_ext_in. intros a Ha.
  rewrite url_stored_app, (filter_twice _ storable).
  rewrite (url_stored_stored_at (List.filter _ _)).
  rewrite stored_at_filter_unique by apply unique_articles_NoDup.
  rewrite (stored_at_unique _ a (unique_articles_NoDup batch) Ha).
  destruct (url_stored table (url a)); cbn [negb andb orb]; [reflexivity|].
  now destruct (storable a).
Qed.

Lemma storable_batch table batch :
  Forall (fun a => storable a = true) batch ->
  List.filter storable (new_articles table batch) = new_articles table batch.
Proof.
  intros Hall. apply filter_all. intros a [Ha _]%filter_In.
  apply unique_articles_origin in Ha.
  rewrite Forall_forall in Hall. apply Hall. now apply list_elem_of_In.
Qed.

Lemma fresh_urls_new table batch :
  Spec.fresh_urls table batch = list_to_set (map url (new_articles table batch)).
Proof.
  apply set_eq. intros x. unfold Spec.fresh_urls.
  rewrite elem_of_difference, !elem_of_list_to_set, !list_elem_of_In.
  symmetry. apply new_articles_urls.
Qed.

(** C3, amended.  The article batch is deduplicated by url before it is
    persisted, the last record of a url winning.  When the lookup of the
    stored urls answers and the database accepts the bulk insert, the step
    returns and the table keeps distinct urls.  Each url of the batch that
    was not stored counts for exactly one in the stored count, and it is
    stored, with the fields of its last record in the batch, exactly when
    that last record has a language: a record without one is counted and
    not stored.  A url that was already stored keeps its row and counts
    for nothing.  The table grows by at most the stored count, and by the
    stored count when every record of the batch has a language. *)
Theorem store_articles_last_write_wins table batch u :
  NoDup (map url table) ->
  In u (map url batch) ->
  (forall unique, lookup_raises table unique = None) ->
  (forall objs, bulk_create_raises table objs = false) ->
  match store_articles table batch with
  | Raised _ => False
  | Returned (table', stored_count) =>
      NoDup (map url table')
      /\ stored_count = size (Spec.fresh_urls table batch)
      /\ (List.length table' <= List.length table + stored_count)%nat
      /\ (Forall (fun a => storable a = true) batch ->
          List.length table' = (List.length table + stored_count)%nat)
      /\ (url_stored table u = true ->
          stored_at table' u = stored_at table u
          /\ u ∉ Spec.fresh_urls table batch)
      /\ (url_stored table u = false ->
          u ∈ Spec.fresh_urls table batch
          /\ exists last,
               Spec.last_with_url u batch = Some last
               /\ stored_at table' u
                  = if storable last then Some last else None)
  end.
Proof.
  intros Hnd Hu Hanswers Hok.
  pose proof (store_articles_keeps_unique table batch Hnd) as Hnd'.
  rewrite store_articles_eq in *. rewrite Hanswers, Hok in *.
  replace (if is_nil batch then None else None) with (@None exception) in *
    by now destruct (is_nil batch).
  cbn [Spec.table_after] in Hnd'.
  split; [assumption|]. split; [|split; [|split; [|split]]].
  - rewrite fresh_urls_new, size_list_to_set by apply new_articles_NoDup.
    now rewrite length_map.
  - rewrite length_app.
    pose proof (filter_split_length storable (new_articles table batch)). lia.
  - intros Hall. now rewrite (storable_batch table batch Hall), length_app.
  - intros Hstored. rewrite stored_at_app. split.
    + apply url_stored_In, stored_at_Some in Hstored as [row ->]. reflexivity.
    + unfold Spec.fresh_urls. rewrite elem_of_difference, !elem_of_list_to_set.
      intros [_ Hnot]. apply Hnot, list_elem_of_In. now apply url_stored_In.
  - intros Hnew. split.
    + unfold Spec.fresh_urls. rewrite elem_of_difference, !elem_of_list_to_set.
      split; [now apply list_elem_of_In|].
      intros Hin. apply list_elem_of_In, url_stored_In in Hin. congruence.
    + apply last_with_url_Some in Hu as [last Hlast]. exists last.
      split; [assumption|].
      rewrite stored_at_app, (stored_at_None table u Hnew).
      rewrite stored_at_filter_unique by apply new_articles_NoDup.
      rewrite stored_at_filter; [|intros a <-; now rewrite Hnew].
      now rewrite unique_articles_last, Hlast.
Qed.

End PersistFacts.

(** C2, amended.  After an application of the persistence step whose
    bulk insert the database accepted, a further application to the same
    batch, whatever the database does then, either returns with the table
    as the first application left it, or raises with the exception of the
    lookup of the stored urls, which is outside the [try].  The count that
    the second application reports is at most the number of records that
    the first one counted and did not store, and that number when the
    insert is accepted again; it is zero when every record of the batch
    has a language.  Over any number of applications, whatever the
    database does in each, a table whose urls are distinct keeps distinct
    urls. *)
Theorem store_articles_idempotent :
  (forall lookup_raises bulk_create_raises lookup_again raises_again
          table batch table' stored_count,
      (forall objs, bulk_create_raises table objs = false) ->
      FetchArticles.store_articles lookup_raises bulk_create_raises table batch
      = Returned (table', stored_count) ->
      match FetchArticles.store_articles lookup_again raises_again
                                         table' batch with
      | Returned (table'', stored_again) =>
          table'' = table'
          /\ (List.length table' + stored_again
              <= List.length table + stored_count)%nat
          /\ ((forall objs, raises_again table' objs = false) ->
              (List.length table' + stored_again
               = List.length table + stored_count)%nat)
          /\ (Forall (fun a => FetchArticles.storable a = true) batch ->
              stored_again = 0%nat)
      | Raised e =>
          batch <> []
          /\ exists unique, lookup_again table' unique = Some e
      end)
  /\ (forall cycles table,
         NoDup (map Helpers.url table) ->
         NoDup (map Helpers.url
                    (fold_left
                       (fun t cycle =>
                          let '(lookup_raises, bulk_create_raises, batch) := cycle in
                          Spec.table_after t
                            (FetchArticles.store_articles
                               lookup_raises bulk_create_raises t batch))
                       cycles table))).
Proof.
  split.
  - intros lookup_raises bulk_create_raises lookup_again raises_again
           table batch table' stored_count Haccepted Hfirst.
    rewrite store_articles_eq in Hfirst. rewrite Haccepted in Hfirst.
    destruct (if is_nil batch then None else _) as [e|]; [discriminate|].
    injection Hfirst as <- <-.
    destruct (FetchArticles.store_articles lookup_again raises_again _ batch)
      as [[table'' stored_again]|e] eqn:Hagain.
    + rewrite store_articles_eq, new_articles_after in Hagain.
      destruct (if is_nil batch then None else _) as [e|]; [discriminate|].
      pose proof (filter_split_length FetchArticles.storable
                    (List.filter
                       (fun a => negb (FetchArticles.url_stored table (Helpers.url a)))
                       (PyDict.values
                          (PyDict.of_items
                             (map (fun a => (Helpers.url a, a)) batch)))))
        as Hsplit.
      destruct (raises_again _ _) eqn:Hraises.
      * injection Hagain as <- <-. rewrite length_app.
        split; [reflexivity|]. split; [lia|]. split; [|reflexivity].
        intros Hnever. rewrite Hnever in Hraises. discriminate.
      * injection Hagain as <- <-.
        rewrite filter_complement_none, app_nil_r.
        rewrite length_app. split; [reflexivity|]. split; [lia|].
        split; [lia|]. intros Hall.
        rewrite (storable_batch table batch Hall) in Hsplit. lia.
    + apply store_articles_Raised in Hagain as [Hbatch Hlookup]. eauto.
  - intros cycles. induction cycles as [|[[lookup_raises bulk_create_raises] b] cycles IH];
      intros table Hnd; cbn [fold_left]; [assumption|].
    apply IH. now apply store_articles_keeps_unique.
Qed.

Lemma store_articles_idempotent_witness :
  let batch := [Sample.first_copy; Sample.undetected; Sample.other; Sample.last_copy] in
  FetchArticles.store_articles Sample.db_answers Sample.db_accepts
                               [Sample.stored_old] batch
  = Returned ([Sample.stored_old; Sample.other], 2%nat)
  /\ FetchArticles.store_articles Sample.db_answers Sample.db_accepts
                                  [Sample.stored_old; Sample.other] batch
     = Returned ([Sample.stored_old; Sample.other], 1%nat)
  /\ FetchArticles.store_articles Sample.db_answers Sample.db_refuses
                                  [Sample.stored_old; Sample.other] batch
     = Returned ([Sample.stored_old; Sample.other], 0%nat)
  /\ NoDup (map Helpers.url
                (fold_left
                   (fun t cycle =>
                      let '(lookup_raises, bulk_create_raises, batch) := cycle in
                      Spec.table_after t
                        (FetchArticles.store_articles
                           lookup_raises bulk_create_raises t batch))
                   [(Sample.db_answers, Sample.db_refuses, batch);
                    (Sample.db_unreachable, Sample.db_accepts, batch);
                    (Sample.db_answers, Sample.db_accepts, batch)]
                   [Sample.stored_old])).
Proof.
  intros batch.
  destruct store_articles_idempotent as (Hagain & Hunique).
  assert (FetchArticles.store_articles Sample.db_answers Sample.db_accepts
                                       [Sample.stored_old] batch
          = Returned ([Sample.stored_old; Sample.other], 2%nat)) as Hfirst
      by (vm_compute; reflexivity).
  split; [exact Hfirst|]. split; [|split].
  - pose proof (Hagain Sample.db_answers Sample.db_accepts
                       Sample.db_answers Sample.db_accepts
                       [Sample.stored_old] batch _ _ (fun _ => eq_refl) Hfirst)
      as Hsecond.
    destruct (FetchArticles.store_articles Sample.db_answers Sample.db_accepts
                [Sample.stored_old; Sample.other] batch)
      as [[table'' stored_again]|e]; [|destruct Hsecond as [_ [? [=]]]].
    destruct Hsecond as (-> & _ & Hcount & _).
    specialize (Hcount (fun _ => eq_refl)). cbn [List.length] in Hcount.
    f_equal. f_equal. lia.
  - vm_compute. reflexivity.
  - apply Hunique. apply NoDup_singleton.
Defined.

(** The property as the specification words it fails on three accounts.
    An insert that the database refused is caught and leaves the table as
    it was, so the second application, once accepted, stores the batch.
    The lookup of the stored urls is outside the [try], so the second
    application raises when that lookup does.  And a record without a
    language is counted again by every application, though none stores
    it. *)
Lemma second_application_counterexample :
  ~ Spec.second_application_stores_nothing
      Sample.db_answers Sample.db_answers Sample.db_refuses Sample.db_accepts
      [Sample.stored_old] [Sample.other]
  /\ ~ Spec.second_application_stores_nothing
         Sample.db_answers Sample.db_unreachable
         Sample.db_accepts Sample.db_accepts
         [Sample.stored_old] [Sample.other]
  /\ FetchArticles.store_articles Sample.db_answers Sample.db_accepts
                                  [] [Sample.undetected]
     = Returned ([], 1%nat).
Proof.
  split; [|split].
  - vm_compute. discriminate.
  - vm_compute. auto.
  - vm_compute. reflexivity.
Qed.

Lemma store_articles_last_write_wins_witness :
  let batch := [Sample.first_copy; Sample.undetected; Sample.other; Sample.last_copy] in
  let table' :=
    Spec.table_after [Sample.other]
      (FetchArticles.store_articles Sample.db_answers Sample.db_accepts
                                    [Sample.other] batch) in
  FetchArticles.stored_at table' "https://example.com/a" = Some Sample.last_copy
  /\ FetchArticles.stored_at table' "https://example.com/n" = None.
Proof.
  intros batch table'. subst table'. split.
  - pose proof (store_articles_last_write_wins Sample.db_answers Sample.db_accepts
                  [Sample.other] batch "https://example.com/a"
                  (NoDup_singleton _) ltac:(simpl; auto)
                  (fun _ => eq_refl) (fun _ => eq_refl))
      as Hwins.
    destruct (FetchArticles.store_articles Sample.db_answers Sample.db_accepts
                [Sample.other] batch)
      as [[table' stored_count]|e]; [|contradiction].
    destruct Hwins as (_ & _ & _ & _ & _ & Hnew). cbn [Spec.table_after].
    destruct (Hnew eq_refl) as (_ & last & Hlast & ->).
    vm_compute in Hlast. injection Hlast as <-. reflexivity.
  - vm_compute. reflexivity.
Defined.

(** The property as the specification words it fails.  A batch that holds
    the url of a stored article twice leaves the stored row as it was and
    reports no count; and the sources command, given the same name twice,
    reports one insert and one update for it. *)
Lemma last_write_wins_counted_once_counterexample :
  ~ Spec.last_write_wins_counted_once Sample.db_answers Sample.db_accepts
      [Sample.stored_old] [Sample.first_copy; Sample.last_copy]
  /\ ~ Spec.sources_counted_once
         [] [Sample.source "https://reuters.example/1";
             Sample.source "https://reuters.example/2"].
Proof.
  split.
  - unfold Spec.last_write_wins_counted_once.
    replace (FetchArticles.store_articles Sample.db_answers Sample.db_accepts
               [Sample.stored_old] [Sample.first_copy; Sample.last_copy])
      with (Returned ([Sample.stored_old], 0%nat) : result (list Helpers.Article * nat))
      by (vm_compute; reflexivity).
    intros [Hlast _]. specialize (Hlast "https://example.com/a" ltac:(simpl; auto)).
    vm_compute in Hlast. discriminate.
  - unfold Spec.sources_counted_once.
    replace (FetchSources.process_fetch_cycle _ _ _ _)
      with (Returned ([Sample.source "https://reuters.example/2"],
                      [(1, 0); (0, 1)]%nat))
      by (vm_compute; reflexivity).
    vm_compute. discriminate.
Qed.

(** ** The preparation loop of the fetch cycle *)

Section PrepareFacts.

Import Helpers FetchArticles.

Variable yake_extract : string -> result (list (string * Q)).
Variable list_of_set : gset string -> list string.
Variable predict : string -> result (string * Q).

Local Abbreviation extract_keywords :=
  (Extractor.extract_keywords yake_extract list_of_set).
Local Abbreviation detect_language := (LanguageDetect.detect_language predict).
Local Abbreviation enrichment :=
  (prepare_article_keywords_and_language yake_extract list_of_set predict).
Local Abbreviation prepare_article :=
  (FetchArticles.prepare_article yake_extract list_of_set predict).
Local Abbreviation prepare_articles :=
  (FetchArticles.prepare_articles yake_extract list_of_set predict).

(** Without keywords the helper answers with the language ['en']. *)
Lemma enrichment_without_keywords (text : string) :
  (extract_keywords (PyString text) = Returned []
   \/ exists e, extract_keywords (PyString text) = Raised e) ->
  enrichment text = ([], Some "en").
Proof.
  unfold prepare_article_keywords_and_language.
  intros [->|[e ->]]; reflexivity.
Qed.

(** With keywords, the language is the first component of what
    [detect_language] returns, [None] included. *)
Lemma enrichment_with_keywords (text : string) kw kws :
  extract_keywords (PyString text) = Returned (kw :: kws) ->
  enrichment text =
    (kw :: kws,
     fst (detect_language
            (if Nat.ltb 100 (String.length text) then PyStr.take 100 text
             else text))).
Proof.
  unfold prepare_article_keywords_and_language. intros ->. reflexivity.
Qed.

Lemma detect_language_unsure (text cleaned label : string) (confidence : Q) :
  LanguageDetect.clean_text text = Some cleaned ->
  PyStr.is_empty cleaned = false ->
  predict (if Nat.ltb (String.length cleaned) 20
           then PyStr.join_space [cleaned; cleaned; cleaned] else cleaned)
    = Returned (label, confidence) ->
  LanguageDetect.Qlt_bool confidence LanguageDetect.min_confidence = true ->
  detect_language text = (None, confidence).
Proof.
  unfold LanguageDetect.detect_language, LanguageDetect.detect_language_try.
  intros -> -> Hpredict Hlow. rewrite Hpredict. simpl. now rewrite Hlow.
Qed.

Lemma detect_language_failure (text cleaned : string) e :
  LanguageDetect.clean_text text = Some cleaned ->
  PyStr.is_empty cleaned = false ->
  predict (if Nat.ltb (String.length cleaned) 20
           then PyStr.join_space [cleaned; cleaned; cleaned] else cleaned)
    = Raised e ->
  detect_language text = (None, 0%Q).
Proof.
  unfold LanguageDetect.detect_language, LanguageDetect.detect_language_try.
  intros -> -> Hpredict. now rewrite Hpredict.
Qed.

Lemma enrichment_never_void (text : string) :
  is_nil (fst (enrichment text)) && negb (truthy (snd (enrichment text))) = false.
Proof.
  unfold prepare_article_keywords_and_language.
  destruct (extract_keywords (PyString text)) as [[|kw kws]|e]; reflexivity.
Qed.

(** What the loop makes of an article that it reaches. *)
Local Abbreviation enriched category article :=
  (set_enrichment article
     (fst (enrichment (article_full_content article)))
     (snd (enrichment (article_full_content article)))
     category).

(** The [continue] of the loop is never taken: every article that the
    loop reaches is kept, with the category of the lane. *)
Lemma prepare_article_keeps (category : string) (article : Article) :
  prepare_article category article = Some (enriched category article).
Proof.
  unfold FetchArticles.prepare_article.
  pose proof (enrichment_never_void (article_full_content article)) as Hvoid.
  destruct (enrichment _) as [keywords language]. simpl in *. now rewrite Hvoid.
Qed.

Lemma prepare_article_without_keywords (category : string) (article : Article) :
  (extract_keywords (PyString (article_full_content article)) = Returned []
   \/ exists e,
        extract_keywords (PyString (article_full_content article)) = Raised e) ->
  prepare_article category article
  = Some (set_enrichment article [] (Some "en") category).
Proof.
  intros Hnone. rewrite prepare_article_keeps.
  now rewrite (enrichment_without_keywords _ Hnone).
Qed.

(** The loop keeps, in order, the articles that the generator yields,
    until they are exhausted or the shutdown flag is seen set. *)
Lemma prepare_articles_run is_set category yielded raised : forall i acc,
  match prepare_articles is_set category i yielded raised acc with
  | Returned prepared =>
      exists k,
        prepared = (acc ++ map (fun y => enriched category y) (firstn k yielded))%list
        /\ (forall j, (j < k)%nat -> is_set (i + j)%nat = false)
        /\ ((k = List.length yielded /\ raised = None)
            \/ (k < List.length yielded /\ is_set (i + k)%nat = true))
  | Raised e => raised = Some e
  end.
Proof.
  induction yielded as [|y ys IH]; intros i acc; simpl.
  - destruct raised as [e|]; [reflexivity|].
    exists 0%nat. simpl. rewrite app_nil_r. repeat split; auto. lia.
  - destruct (is_set i) eqn:Hset.
    + exists 0%nat. simpl. rewrite app_nil_r, Nat.add_0_r.
      split; [reflexivity|]. split; [lia|]. right. split; [lia|assumption].
    + rewrite prepare_article_keeps.
      specialize (IH (S i) (acc ++ [enriched category y])%list).
      destruct (prepare_articles is_set category (S i) ys raised _)
        as [prepared|e]; [|assumption].
      destruct IH as (k & -> & Hclear & Hend).
      exists (S k). split; [simpl; now rewrite <- app_assoc|]. split.
      * intros [|j] Hj; [now rewrite Nat.add_0_r|].
        replace (i + S j)%nat with (S i + j)%nat by lia. apply Hclear. lia.
      * replace (i + S k)%nat with (S i + k)%nat by lia.
        destruct Hend as [[-> ->]|[Hk Hstop]]; [now left|right].
        split; [lia|assumption].
Qed.

Lemma enriched_category category (l : list Article) :
  Forall (fun a => Helpers.category a = category)
         (map (fun y => enriched category y) l).
Proof.
  apply Forall_forall. intros a Ha.
  apply list_elem_of_In, in_map_iff in Ha as (y & <- & _). reflexivity.
Qed.

Lemma enriched_url category (l : list Article) :
  map url (map (fun y => enriched category y) l) = map url l.
Proof. rewrite map_map. reflexivity. Qed.

(** C1, amended.  When keyword extraction on the combined text of an
    article raises or returns the empty list, the helper answers with no
    keywords and the language ['en'], and the article is not skipped:
    unless the shutdown flag stops the loop or the generator raises, the
    loop returns with the article kept for persistence, with
    [keywords = []] and [language = 'en']. *)
Theorem keywordless_article_is_kept
    (is_set : nat -> bool) (category : string)
    (yielded : list Article) (raised : option exception) (article : Article) :
  (forall i, is_set i = false) ->
  In article yielded ->
  (extract_keywords (PyString (article_full_content article)) = Returned []
   \/ exists e,
        extract_keywords (PyString (article_full_content article)) = Raised e) ->
  enrichment (article_full_content article) = ([], Some "en")
  /\ prepare_article category article
     = Some (set_enrichment article [] (Some "en") category)
  /\ match prepare_articles is_set category 0 yielded raised [] with
     | Returned prepared =>
         raised = None
         /\ In (set_enrichment article [] (Some "en") category) prepared
     | Raised e => raised = Some e
     end.
Proof.
  intros Hnever Hin Hnone.
  split; [now apply enrichment_without_keywords|].
  split; [now apply prepare_article_without_keywords|].
  pose proof (prepare_articles_run is_set category yielded raised 0 []) as Hloop.
  destruct (prepare_articles is_set category 0 yielded raised [])
    as [prepared|e]; [|assumption].
  destruct Hloop as (k & -> & _ & Hend).
  destruct Hend as [[-> ->]|[_ Hstop]]; [|rewrite Hnever in Hstop; discriminate].
  split; [reflexivity|].
  rewrite firstn_all. simpl. apply in_map_iff. exists article.
  split; [|assumption]. now rewrite (enrichment_without_keywords _ Hnone).
Qed.

Variable parse_datetime : string -> result (option Z).
Variable now : Z.
Variable url_validator : string -> bool.
Variable lookup_raises : list Article -> list Article -> option exception.
Variable bulk_create_raises : list Article -> list Article -> bool.

Local Abbreviation process_fetch_cycle :=
  (FetchArticles.process_fetch_cycle
     yake_extract list_of_set predict parse_datetime now url_validator
     lookup_raises bulk_create_raises).

(** C8.  The dictionary that the normalizer yields for an article it keeps
    is given the category of the lane by the fetch cycle: every record of
    [prepared_articles] carries it, there is one such record, in order,
    for each article the normalizer yields until the loop ends or the
    shutdown flag stops it, and every row that the cycle adds to the
    table carries it. *)
Theorem prepared_articles_carry_lane_category
    (is_set : nat -> bool) (category : string) :
  (forall yielded raised,
      match prepare_articles is_set category 0 yielded raised [] with
      | Returned prepared =>
          Forall (fun a => Helpers.category a = category) prepared
          /\ exists k,
               map url prepared = map url (firstn k yielded)
               /\ ((k = List.length yielded /\ raised = None)
                   \/ (k < List.length yielded /\ is_set k = true))
      | Raised e => raised = Some e
      end)
  /\ (forall fetched table,
         match process_fetch_cycle is_set category fetched table with
         | Returned (table', _) =>
             forall row, In row table' ->
                         In row table \/ Helpers.category row = category
         | Raised _ => True
         end).
Proof.
  split.
  - intros yielded raised.
    pose proof (prepare_articles_run is_set category yielded raised 0 []) as Hrun.
    destruct (prepare_articles is_set category 0 yielded raised [])
      as [prepared|e]; [|assumption].
    destruct Hrun as (k & -> & _ & Hend). simpl.
    split; [apply enriched_category|]. exists k.
    split; [apply enriched_url|assumption].
  - intros fetched table. unfold FetchArticles.process_fetch_cycle.
    destruct fetched as [articles|e]; simpl; [|exact I].
    destruct (is_nil articles); [intros row Hrow; now left|].
    destruct (normalize_articles parse_datetime now url_validator articles)
      as [yielded raised].
    pose proof (prepare_articles_run is_set category yielded raised 0 []) as Hrun.
    destruct (prepare_articles is_set category 0 yielded raised [])
      as [prepared|e]; simpl; [|exact I].
    destruct Hrun as (k & -> & _). simpl.
    destruct (store_articles _ _ table _) as [[table' stored_count]|e] eqn:Hstore;
      simpl; [|exact I].
    apply store_articles_Returned in Hstore as [[-> _]|[-> _]];
      intros row Hrow; [now left|].
    apply in_app_iff in Hrow as [Hrow|Hrow]; [now left|right].
    apply filter_In in Hrow as [Hrow _].
    apply filter_In in Hrow as [Hrow _]. apply unique_articles_origin in Hrow.
    pose proof (enriched_category category (firstn k yielded)) as Hcat.
    rewrite Forall_forall in Hcat. now apply Hcat, list_elem_of_In.
Qed.

End PrepareFacts.

Lemma prepared_articles_carry_lane_category_witness :
  match FetchArticles.process_fetch_cycle
          Sample.yake_finds elements Sample.predict_english Sample.parse_fixed 0
          Sample.validator Sample.db_answers Sample.db_accepts Sample.never "sports"
          (Returned [Sample.raw_market; Sample.raw_untitled; Sample.raw_short]) []
  with
  | Returned (table', _) =>
      map (fun row => (Helpers.title row, Helpers.category row)) table'
      = [("Market rose today", "sports"); ("Go", "sports")]
      /\ forall row, In row table' -> Helpers.category row = "sports"
  | Raised _ => False
  end.
Proof.
  pose proof (proj2 (prepared_articles_carry_lane_category
                       Sample.yake_finds elements Sample.predict_english
                       Sample.parse_fixed 0%Z Sample.validator
                       Sample.db_answers Sample.db_accepts
                       Sample.never "sports")
                    (Returned [Sample.raw_market; Sample.raw_untitled;
                               Sample.raw_short]) []) as Hlane.
  destruct (FetchArticles.process_fetch_cycle _ _ _ _ _ _ _ _ _ _ _ _)
    as [[table' count]|e] eqn:Hcycle.
  - split.
    + vm_compute in Hcycle. injection Hcycle as <- _. reflexivity.
    + intros row Hrow. destruct (Hlane row Hrow) as [[]|Hcat]. exact Hcat.
  - vm_compute in Hcycle. discriminate.
Defined.

Lemma keywordless_article_is_kept_witness :
  let article := Sample.article "Go" "https://example.com/a" in
  let kept := FetchArticles.set_enrichment article [] (Some "en") "general" in
  FetchArticles.prepare_articles
    Sample.yake_raises elements Sample.predict_english Sample.never "general" 0
    [article] None []
  = Returned [kept]
  /\ FetchArticles.prepare_article
       Sample.yake_raises elements Sample.predict_english "general" article
     = Some kept.
Proof.
  intros article kept. split; [vm_compute; reflexivity|].
  apply (keywordless_article_is_kept
           Sample.yake_raises elements Sample.predict_english
           Sample.never "general" [article] None article (fun _ => eq_refl)).
  - simpl; auto.
  - right. exists KeywordExtractionError. vm_compute. reflexivity.
Defined.

(** The property as the specification words it fails: an article whose
    text gives no keyword, because the extractor raises or because it
    returns the empty list, is present in the table after the cycle, with
    no keywords and the language ['en']. *)
Lemma keywordless_article_is_stored :
  let cycle yake :=
    FetchArticles.process_fetch_cycle
      yake elements Sample.predict_english Sample.parse_fixed 0
      Sample.validator Sample.db_answers Sample.db_accepts Sample.never "general"
      (Returned [Sample.raw_short]) [] in
  let stored :=
    {| Helpers.title := "Go";
       Helpers.content := "Now";
       Helpers.description := "Up";
       Helpers.url := "https://example.com/a";
       Helpers.category := "general";
       Helpers.source := "Reuters";
       Helpers.author := "Reuters";
       Helpers.url_to_image := None;
       Helpers.published_date := 1704067200;
       Helpers.keywords := [];
       Helpers.language := Some "en" |} in
  Extractor.extract_keywords Sample.yake_raises elements (PyString "Go Up Now")
  = Raised KeywordExtractionError
  /\ Extractor.extract_keywords Sample.yake_finds_nothing elements
       (PyString "Go Up Now") = Returned []
  /\ cycle Sample.yake_raises = Returned ([stored], Some 1%nat)
  /\ cycle Sample.yake_finds_nothing = Returned ([stored], Some 1%nat).
Proof. repeat split; vm_compute; reflexivity. Qed.

(** C5, as the code behaves.  When the detector is below its confidence
    threshold, or fails, or is given a text that [clean_text] empties, the
    article is kept and the record that the cycle prepares for the bulk
    insert has the language [None], not ['en']: [detect_language] answers
    with a pair, which is true whatever it holds, so its first component
    replaces the fallback.  The table declares the language NOT NULL, so
    such a record is not one that it can hold. *)
Theorem undetected_language_is_None :
  let prepared yake predict raw :=
    let '(yielded, raised) :=
      Helpers.normalize_articles
        Sample.parse_fixed 0 Fixture.django_validator [raw] in
    FetchArticles.prepare_articles
      yake elements predict Sample.never "general" 0 yielded raised [] in
  let market language :=
    {| Helpers.title := "Market rose today";
       Helpers.content := "Shares climbed.";
       Helpers.description := "Stocks";
       Helpers.url := "https://example.com/m";
       Helpers.category := "general";
       Helpers.source := "Reuters";
       Helpers.author := "Reuters";
       Helpers.url_to_image := None;
       Helpers.published_date := 1704067200;
       Helpers.keywords := [("market", 1 # 10)];
       Helpers.language := language |} in
  let links :=
    {| Helpers.title := "https://t.co/abc";
       Helpers.content := "???";
       Helpers.description := "!!!";
       Helpers.url := "https://example.com/l";
       Helpers.category := "general";
       Helpers.source := "Reuters";
       Helpers.author := "Reuters";
       Helpers.url_to_image := None;
       Helpers.published_date := 1704067200;
       Helpers.keywords := [("https://t.co/abc", 0%Q)];
       Helpers.language := None |} in
  LanguageDetect.detect_language Sample.predict_unsure
    "Market rose today Stocks Shares climbed." = (None, 41 # 100)
  /\ FetchArticles.prepare_article_keywords_and_language
       Sample.yake_finds elements Sample.predict_unsure
       "Market rose today Stocks Shares climbed."
     = ([("market", 1 # 10)], None)
  /\ prepared Sample.yake_finds Sample.predict_unsure Sample.raw_market
     = Returned [market None]
  /\ prepared Sample.yake_finds Sample.predict_fails Sample.raw_market
     = Returned [market None]
  /\ prepared Sample.yake_finds Sample.predict_english Sample.raw_market
     = Returned [market (Some "en")]
  /\ (forall predict,
         prepared Sample.yake_raises predict Sample.raw_links
         = Returned [links])
  /\ FetchArticles.storable (market None) = false
  /\ FetchArticles.storable links = false.
Proof. repeat split; vm_compute; reflexivity. Qed.

(** ** The retry runner *)

Section RetryFacts.

Import Shutdown FetchArticles.

Variable signal_during : nat -> bool.
Variable cycle_raises : nat -> bool.

Local Abbreviation pass := (Shutdown.pass signal_during).
Local Abbreviation interruptible_sleep := (Shutdown.interruptible_sleep signal_during).
Local Abbreviation retry_loop := (FetchArticles.retry_loop signal_during cycle_raises).
Local Abbreviation run_with_retries :=
  (FetchArticles.run_with_retries signal_during cycle_raises).

(** While the flag is clear, a wait or a cycle either leaves it clear and
    records nothing, or sets it and records that. *)
Lemma pass_cases (w : world) :
  flag w = false ->
  (flag (fst (pass w)) = false /\ snd (pass w) = [])
  \/ (flag (fst (pass w)) = true /\ snd (pass w) = [ShutdownSet]).
Proof.
  unfold Shutdown.pass. intros ->. simpl.
  destruct (signal_during (clock w)); [right|left]; split; reflexivity.
Qed.

Lemma sleep_cases (w : world) :
  flag w = false ->
  match interruptible_sleep w with
  | (interrupted, w', evs) =>
      (interrupted = false /\ flag w' = false /\ evs = [WaitStarted])
      \/ (interrupted = true /\ flag w' = true
          /\ evs = [WaitStarted; ShutdownSet])
  end.
Proof.
  intros Hclear. unfold Shutdown.interruptible_sleep. rewrite Hclear.
  destruct (pass_cases w Hclear) as [[Hf He]|[Hf He]];
    destruct (pass w) as [w' evs]; simpl in *; rewrite Hf, He; auto.
Qed.

Lemma attempts_then_stop_final evs b :
  Spec.attempts_then_stop evs b -> Spec.shutdown_is_final evs.
Proof.
  induction 1 as [| |evs b _ IH|k evs b _ IH|evs b _ IH]; intros pre post Heq.
  - now destruct pre.
  - destruct pre as [|e [|e' pre]]; simpl in Heq; congruence.
  - destruct pre as [|e pre]; simpl in Heq; [discriminate|].
    injection Heq as _ Heq. exact (IH pre post Heq).
  - destruct pre as [|e pre]; simpl in Heq; [discriminate|].
    injection Heq as _ Heq. exact (IH pre post Heq).
  - destruct pre as [|e pre]; simpl in Heq; [discriminate|].
    injection Heq as _ Heq. exact (IH pre post Heq).
Qed.

Lemma retry_loop_stopped (attempts : list nat) (w : world) :
  flag w = true -> retry_loop attempts w = (false, w, []).
Proof. intros Hset. destruct attempts; simpl; now rewrite ?Hset. Qed.

(** The wait that ends a cycle: skipped when the flag is set. *)
Lemma closing_cases (w : world) :
  match closing_sleep signal_during w with
  | (w', evs) =>
      (flag w = true /\ w' = w /\ evs = [])
      \/ (flag w = false /\ flag w' = false /\ evs = [ClosingWaitStarted])
      \/ (flag w = false /\ flag w' = true
          /\ evs = [ClosingWaitStarted; ShutdownSet])
  end.
Proof.
  unfold closing_sleep. destruct (flag w) eqn:Hflag.
  - unfold Shutdown.interruptible_sleep. rewrite Hflag. cbn [map]. auto.
  - pose proof (sleep_cases w Hflag) as Hsleep.
    destruct (interruptible_sleep w) as [[interrupted w'] evs].
    destruct Hsleep as [(_ & Hw' & ->)|(_ & Hw' & ->)]; cbn [map]; auto.
Qed.

(** An attempt whose cycle raises: the work of the cycle only. *)
Lemma attempt_raised (attempt : nat) (w : world) :
  flag w = false ->
  cycle_raises attempt = true ->
  match attempt_cycle signal_during cycle_raises attempt w with
  | (raised, w', evs) =>
      raised = true
      /\ ((flag w' = false /\ evs = [AttemptStarted attempt])
          \/ (flag w' = true /\ evs = [AttemptStarted attempt; ShutdownSet]))
  end.
Proof.
  intros Hclear Hraises. unfold attempt_cycle. rewrite Hraises.
  destruct (pass_cases w Hclear) as [[Hf He]|[Hf He]];
    destruct (pass w) as [w' evs]; simpl in *; subst evs; auto.
Qed.

(** An attempt whose cycle returns: its work, then the wait that ends
    it unless the flag was set during the work. *)
Lemma attempt_returned (attempt : nat) (w : world) :
  flag w = false ->
  cycle_raises attempt = false ->
  match attempt_cycle signal_during cycle_raises attempt w with
  | (raised, w', evs) =>
      raised = false
      /\ ((flag w' = false
           /\ evs = [AttemptStarted attempt; ClosingWaitStarted])
          \/ (flag w' = true
              /\ (evs = [AttemptStarted attempt; ShutdownSet]
                  \/ evs = [AttemptStarted attempt; ClosingWaitStarted;
                            ShutdownSet])))
  end.
Proof.
  intros Hclear Hreturns. unfold attempt_cycle. rewrite Hreturns.
  destruct (pass_cases w Hclear) as [[Hf He]|[Hf He]];
    destruct (pass w) as [w1 evs1]; cbn [fst snd] in *; subst evs1;
    pose proof (closing_cases w1) as Hclosing;
    destruct (closing_sleep signal_during w1) as [w2 evs2];
    (split; [reflexivity|]);
    destruct Hclosing as [(Hw1 & -> & ->)|[(Hw1 & Hw2 & ->)|(Hw1 & Hw2 & ->)]];
    cbn [app]; try congruence; auto.
Qed.

Lemma retry_loop_shape (attempts : list nat) : forall w,
  flag w = false ->
  match retry_loop attempts w with
  | (_, w', evs) => Spec.attempts_then_stop evs (flag w')
  end.
Proof.
  induction attempts as [|attempt rest IH]; intros w Hclear;
    cbn [FetchArticles.retry_loop].
  - rewrite Hclear. constructor.
  - rewrite Hclear.
    pose proof (sleep_cases w Hclear) as Hsleep.
    destruct (interruptible_sleep w) as [[interrupted w1] evs1].
    destruct Hsleep as [(-> & Hw1 & ->)|(-> & Hw1 & ->)];
      [|rewrite Hw1; repeat constructor].
    destruct (cycle_raises attempt) eqn:Hraises.
    + pose proof (attempt_raised attempt w1 Hw1 Hraises) as Hattempt.
      destruct (attempt_cycle signal_during cycle_raises attempt w1)
        as [[raised w2] evs2].
      destruct Hattempt as [-> [[Hw2 ->]|[Hw2 ->]]]; cbn [negb app].
      * destruct (Nat.ltb attempt (MAX_RETRIES - 1)).
        -- pose proof (sleep_cases w2 Hw2) as Hsleep.
           destruct (interruptible_sleep w2) as [[interrupted w3] evs3].
           destruct Hsleep as [(-> & Hw3 & ->)|(-> & Hw3 & ->)];
             [|cbn [app]; rewrite Hw3; repeat constructor].
           specialize (IH w3 Hw3).
           destruct (retry_loop rest w3) as [[r w4] evs4]. cbn [app].
           repeat constructor; assumption.
        -- specialize (IH w2 Hw2).
           destruct (retry_loop rest w2) as [[r w4] evs4]. cbn [app].
           repeat constructor; assumption.
      * destruct (Nat.ltb attempt (MAX_RETRIES - 1)).
        -- unfold Shutdown.interruptible_sleep. rewrite Hw2. cbn [app].
           rewrite Hw2. repeat constructor.
        -- rewrite retry_loop_stopped by assumption. cbn [app].
           rewrite Hw2. repeat constructor.
    + pose proof (attempt_returned attempt w1 Hw1 Hraises) as Hattempt.
      destruct (attempt_cycle signal_during cycle_raises attempt w1)
        as [[raised w2] evs2].
      destruct Hattempt as [-> [[Hw2 ->]|[Hw2 [->| ->]]]]; cbn [negb app];
        rewrite Hw2; repeat constructor.
Qed.

Lemma retry_loop_fails (attempts : list nat) :
  (forall k, cycle_raises k = true) ->
  forall w, fst (fst (retry_loop attempts w)) = false.
Proof.
  intros Hfail. induction attempts as [|attempt rest IH]; intros w;
    cbn [FetchArticles.retry_loop]; [reflexivity|].
  destruct (flag w); [reflexivity|].
  destruct (interruptible_sleep w) as [[[|] w1] evs1]; [reflexivity|].
  unfold attempt_cycle. destruct (pass w1) as [w2 evs2]. rewrite Hfail.
  cbn [negb].
  destruct (Nat.ltb attempt (MAX_RETRIES - 1)).
  - destruct (interruptible_sleep w2) as [[[|] w3] evs3]; [reflexivity|].
    specialize (IH w3). now destruct (retry_loop rest w3) as [[r w4] evs4].
  - specialize (IH w2). now destruct (retry_loop rest w2) as [[r w4] evs4].
Qed.

(** A run succeeds only by an attempt that does not raise, and that
    attempt, with the wait that ends its cycle, is the last thing it
    starts. *)
Lemma retry_loop_success (attempts : list nat) : forall w,
  match retry_loop attempts w with
  | (success, _, evs) =>
      success = true ->
      exists pre k,
        cycle_raises k = false
        /\ (evs = (pre ++ [AttemptStarted k; ClosingWaitStarted])%list
            \/ evs = (pre ++ [AttemptStarted k; ShutdownSet])%list
            \/ evs = (pre ++ [AttemptStarted k; ClosingWaitStarted;
                              ShutdownSet])%list)
  end.
Proof.
  induction attempts as [|attempt rest IH]; intros w;
    cbn [FetchArticles.retry_loop]; [discriminate|].
  destruct (flag w) eqn:Hclear; [discriminate|].
  pose proof (sleep_cases w Hclear) as Hsleep.
  destruct (interruptible_sleep w) as [[interrupted w1] evs1].
  destruct Hsleep as [(-> & Hw1 & ->)|(-> & Hw1 & ->)]; [|discriminate].
  destruct (cycle_raises attempt) eqn:Hraises.
  - pose proof (attempt_raised attempt w1 Hw1 Hraises) as Hattempt.
    destruct (attempt_cycle signal_during cycle_raises attempt w1)
      as [[raised w2] evs2].
    destruct Hattempt as [-> _]. cbn [negb].
    assert (forall w', match retry_loop rest w' with
                       | (success, _, evs4) =>
                           success = true ->
                           forall mid,
                           exists pre k,
                             cycle_raises k = false
                             /\ ((mid ++ evs4)%list
                                 = (pre ++ [AttemptStarted k; ClosingWaitStarted])%list
                                 \/ (mid ++ evs4)%list
                                    = (pre ++ [AttemptStarted k; ShutdownSet])%list
                                 \/ (mid ++ evs4)%list
                                    = (pre ++ [AttemptStarted k; ClosingWaitStarted;
                                               ShutdownSet])%list)
                       end) as IH'.
    { intros w'. specialize (IH w').
      destruct (retry_loop rest w') as [[success w4] evs4].
      intros Hs mid. destruct (IH Hs) as (pre & k & Hk & [->|[->| ->]]);
        exists (mid ++ pre)%list, k; rewrite <- !app_assoc; auto. }
    destruct (Nat.ltb attempt (MAX_RETRIES - 1)).
    + destruct (interruptible_sleep w2) as [[[|] w3] evs3]; [discriminate|].
      specialize (IH' w3). destruct (retry_loop rest w3) as [[r w4] evs4].
      intros Hs. rewrite !app_assoc. apply (IH' Hs).
    + specialize (IH' w2). destruct (retry_loop rest w2) as [[r w4] evs4].
      intros Hs. rewrite !app_assoc. apply (IH' Hs).
  - pose proof (attempt_returned attempt w1 Hw1 Hraises) as Hattempt.
    destruct (attempt_cycle signal_during cycle_raises attempt w1)
      as [[raised w2] evs2].
    destruct Hattempt as [-> Hevs2]. cbn [negb].
    intros _. exists [WaitStarted], attempt. split; [assumption|].
    destruct Hevs2 as [[_ ->]|[_ [->| ->]]]; auto.
Qed.

Lemma retry_loop_exhausts (attempts : list nat) :
  (forall k, cycle_raises k = true) ->
  (forall t, signal_during t = false) ->
  forall w, flag w = false ->
            Spec.attempts_of (snd (retry_loop attempts w)) = attempts
            /\ flag (snd (fst (retry_loop attempts w))) = false.
Proof.
  intros Hfail Hquiet.
  induction attempts as [|attempt rest IH]; intros [f c] Hclear;
    simpl in Hclear; subst f; cbn [FetchArticles.retry_loop flag map].
  - auto.
  - unfold Shutdown.interruptible_sleep, attempt_cycle, Shutdown.pass.
    cbn [flag clock]. rewrite !Hquiet, Hfail.
    cbn [orb andb negb flag app Spec.attempts_of].
    destruct (Nat.ltb attempt (MAX_RETRIES - 1)).
    + cbn [flag clock]. rewrite ?Hquiet.
      cbn [orb andb negb flag app Spec.attempts_of].
      specialize (IH {| flag := false; clock := S (S (S c)) |} eq_refl).
      destruct (retry_loop rest _) as [[r w4] evs4].
      cbn [fst snd Spec.attempts_of] in *.
      destruct IH as [-> ->]. auto.
    + specialize (IH {| flag := false; clock := S (S c) |} eq_refl).
      destruct (retry_loop rest _) as [[r w4] evs4].
      cbn [fst snd Spec.attempts_of] in *.
      destruct IH as [-> ->]. auto.
Qed.

Lemma last_two_events (pre pre' : list event) (a b c d : event) :
  (pre ++ [a; b])%list = (pre' ++ [c; d])%list -> a = c /\ b = d.
Proof.
  intros Heq.
  assert (rev (pre ++ [a; b]) = rev (pre' ++ [c; d])) as Hrev by now rewrite Heq.
  rewrite !rev_app_distr in Hrev. simpl in Hrev. now injection Hrev as -> ->.
Qed.

Lemma last_event (pre pre' : list event) (a b : event) :
  (pre ++ [a])%list = (pre' ++ [b])%list -> a = b.
Proof.
  intros Heq.
  assert (rev (pre ++ [a]) = rev (pre' ++ [b])) as Hrev by now rewrite Heq.
  rewrite !rev_app_distr in Hrev. simpl in Hrev. now injection Hrev as ->.
Qed.

(** C4.  Against a fetch cycle that always fails, [run_with_retries]
    returns [False], and when no signal arrives it starts exactly the
    [MAX_RETRIES] = 3 attempts.  Whatever the cycle does, nothing is
    started once the shutdown flag is set: a run entered with the flag set
    returns [False] at once; in every run the setting of the flag, be it
    during a wait or during an attempt, is the last thing recorded; and
    when the flag is set during a wait of the runner, before an attempt
    or after a failed one, the run returns [False].  (The wait that ends
    a fetch cycle that did not raise is part of the attempt and is
    recorded apart.) *)
Theorem run_with_retries_exhaustion_and_shutdown (w : world) :
  match run_with_retries w with
  | (success, w', evs) =>
      (flag w = true -> success = false /\ evs = [] /\ w' = w)
      /\ Spec.shutdown_is_final evs
      /\ (forall pre, evs = (pre ++ [WaitStarted; ShutdownSet])%list ->
                      success = false)
      /\ ((forall k, cycle_raises k = true) ->
          success = false
          /\ (flag w = false ->
              (forall t, signal_during t = false) ->
              Spec.attempts_of evs = [0; 1; 2]%nat
              /\ List.length (Spec.attempts_of evs) = MAX_RETRIES))
  end.
Proof.
  unfold FetchArticles.run_with_retries.
  pose proof (retry_loop_stopped (seq 0 MAX_RETRIES) w) as Hstopped.
  pose proof (retry_loop_shape (seq 0 MAX_RETRIES) w) as Hshape.
  pose proof (retry_loop_success (seq 0 MAX_RETRIES) w) as Hsuccess.
  pose proof (fun H => retry_loop_fails (seq 0 MAX_RETRIES) H w) as Hfails.
  pose proof (fun H1 H2 => retry_loop_exhausts (seq 0 MAX_RETRIES) H1 H2 w)
    as Hexhausts.
  destruct (retry_loop (seq 0 MAX_RETRIES) w) as [[success w'] evs].
  simpl in *. split; [|split; [|split]].
  - intros Hset. specialize (Hstopped Hset). injection Hstopped as -> -> ->. auto.
  - destruct (flag w) eqn:Hflag.
    + specialize (Hstopped eq_refl). injection Hstopped as _ _ ->.
      intros pre post Heq. now destruct pre.
    + eapply attempts_then_stop_final, Hshape. reflexivity.
  - intros pre ->. destruct success; [|reflexivity].
    destruct (Hsuccess eq_refl) as (pre' & k & _ & [Heq|[Heq|Heq]]).
    + apply last_two_events in Heq as [Heq _]. discriminate.
    + apply last_two_events in Heq as [Heq _]. discriminate.
    + change (pre' ++ [AttemptStarted k; ClosingWaitStarted; ShutdownSet])%list
        with (pre' ++ [AttemptStarted k] ++ [ClosingWaitStarted; ShutdownSet])%list
        in Heq.
      rewrite app_assoc in Heq.
      apply last_two_events in Heq as [Heq _]. discriminate.
  - intros Hfail. split; [now apply Hfails|].
    intros Hclear Hquiet.
    destruct (Hexhausts Hfail Hquiet Hclear) as [-> _]. split; reflexivity.
Qed.

End RetryFacts.

Lemma run_with_retries_exhaustion_and_shutdown_witness :
  FetchArticles.run_with_retries Sample.never Sample.always Sample.idle
  = (false, {| Shutdown.flag := false; Shutdown.clock := 8 |},
     [Shutdown.WaitStarted; Shutdown.AttemptStarted 0; Shutdown.WaitStarted;
      Shutdown.WaitStarted; Shutdown.AttemptStarted 1; Shutdown.WaitStarted;
      Shutdown.WaitStarted; Shutdown.AttemptStarted 2])
  /\ FetchArticles.run_with_retries (Nat.eqb 3) Sample.always Sample.idle
     = (false, {| Shutdown.flag := true; Shutdown.clock := 4 |},
        [Shutdown.WaitStarted; Shutdown.AttemptStarted 0; Shutdown.WaitStarted;
         Shutdown.WaitStarted; Shutdown.ShutdownSet])
  /\ FetchArticles.run_with_retries (Nat.eqb 2) Sample.never Sample.idle
     = (true, {| Shutdown.flag := true; Shutdown.clock := 3 |},
        [Shutdown.WaitStarted; Shutdown.AttemptStarted 0;
         Shutdown.ClosingWaitStarted; Shutdown.ShutdownSet]).
Proof.
  pose proof (run_with_retries_exhaustion_and_shutdown
                Sample.never Sample.always Sample.idle) as Hquiet.
  pose proof (run_with_retries_exhaustion_and_shutdown
                (Nat.eqb 3) Sample.always Sample.idle) as Hsignal.
  destruct (FetchArticles.run_with_retries Sample.never Sample.always Sample.idle)
    as [[success w'] evs] eqn:Hrun.
  destruct (FetchArticles.run_with_retries (Nat.eqb 3) Sample.always Sample.idle)
    as [[success2 w2] evs2] eqn:Hrun2.
  destruct Hquiet as (_ & _ & _ & Hfail).
  destruct (Hfail (fun _ => eq_refl)) as [-> _].
  destruct Hsignal as (_ & _ & Hwait & _).
  vm_compute in Hrun, Hrun2.
  injection Hrun as <- <-. injection Hrun2 as Hs <- <-.
  rewrite (Hwait [Shutdown.WaitStarted; Shutdown.AttemptStarted 0;
                  Shutdown.WaitStarted] eq_refl).
  split; [reflexivity|]. split; [reflexivity|]. vm_compute. reflexivity.
Defined.

(** ** More on the URL validator *)

Section ValidatorRanges.

Import Re Validators.

Lemma forallb_decimal_digit (s : string) :
  PyStr.forallb PyStr.is_decimal s = true ->
  PyStr.forallb PyStr.is_digit_char s = true.
Proof.
  induction s as [|c s IH]; simpl; [reflexivity|].
  intros [Hc Hs]%andb_true_iff. unfold PyStr.is_digit_char.
  rewrite Hc. simpl. auto.
Qed.

Lemma int_Returned (s : string) (n : Z) :
  PyStr.int s = Returned n ->
  PyStr.is_empty s = false /\ PyStr.forallb PyStr.is_decimal s = true
  /\ n = PyStr.int_acc 0 s.
Proof.
  unfold PyStr.int.
  destruct (PyStr.is_empty s), (PyStr.forallb PyStr.is_decimal s); simpl;
    try discriminate.
  now intros [= <-].
Qed.

Lemma int_acc_nonneg (s : string) : forall acc : Z,
  PyStr.forallb PyStr.is_decimal s = true -> (0 <= acc)%Z ->
  (0 <= PyStr.int_acc acc s)%Z.
Proof.
  induction s as [|c s IH]; simpl; intros acc; [auto|].
  intros [Hc Hs]%andb_true_iff Hacc. apply IH; [assumption|].
  unfold PyStr.is_decimal, PyStr.in_range in Hc.
  apply andb_true_iff in Hc as [Hlo _]. apply Nat.leb_le in Hlo.
  unfold PyStr.digit_value. lia.
Qed.

Lemma split_on_not_nil (c : ascii) (s : string) : PyStr.split_on c s <> [].
Proof.
  destruct s as [|d s]; cbn [PyStr.split_on]; [discriminate|].
  destruct (Ascii.eqb c d); [discriminate|].
  destruct (PyStr.split_on c s); discriminate.
Qed.

(** The pieces between the dots of a host whose octets all parse. *)
Lemma split_on_dot_digits (h : string) : forall w ws,
  PyStr.split_on "." h = w :: ws ->
  PyStr.forallb PyStr.is_decimal w = true ->
  (exists l, map_raising PyStr.int ws = Returned l) ->
  PyStr.forallb PyStr.is_digit_char (PyStr.remove_char "." h) = true.
Proof.
  induction h as [|d h IH]; intros w ws;
    cbn [PyStr.split_on PyStr.remove_char PyStr.forallb]; [reflexivity|].
  destruct (Ascii.eqb "." d) eqn:Hd.
  - intros [= <- <-] _ [l Hl].
    destruct (PyStr.split_on "." h) as [|w' ws'] eqn:Hsplit;
      [now apply split_on_not_nil in Hsplit|].
    simpl in Hl.
    destruct (PyStr.int w') as [n|e] eqn:Hw'; [|discriminate].
    apply int_Returned in Hw' as (_ & Hw' & _).
    apply (IH w' ws' eq_refl Hw').
    simpl in Hl. destruct (map_raising PyStr.int ws'); [eauto|discriminate].
  - destruct (PyStr.split_on "." h) as [|w' ws'] eqn:Hsplit;
      [now apply split_on_not_nil in Hsplit|].
    intros [= <- <-] Hw Hl. simpl in Hw. apply andb_true_iff in Hw as [Hc Hw].
    cbn [PyStr.forallb]. unfold PyStr.is_digit_char at 1. rewrite Hc. simpl.
    now apply (IH w' ws' eq_refl).
Qed.

Lemma map_int_nonneg (ws : list string) : forall l,
  map_raising PyStr.int ws = Returned l -> Forall (fun o => (0 <= o)%Z) l.
Proof.
  induction ws as [|w ws IH]; simpl; intros l.
  - intros [= <-]. constructor.
  - destruct (PyStr.int w) as [n|e] eqn:Hw; [|discriminate]. simpl.
    destruct (map_raising PyStr.int ws) as [l'|e]; [|discriminate]. simpl.
    intros [= <-]. constructor; [|now apply IH].
    apply int_Returned in Hw as (_ & Hw & ->). now apply int_acc_nonneg.
Qed.

(** A host whose pieces all parse as octets is written with digits and
    dots, starts with a digit, and its octets are not negative. *)
Lemma octets_Returned (host : string) (parts : list Z) :
  Spec.octets host = Returned parts ->
  Spec.dotted_digits host = true
  /\ String.eqb (PyStr.lower host) "localhost" = false
  /\ Forall (fun o => (0 <= o)%Z) parts.
Proof.
  unfold Spec.octets, Spec.dotted_digits, PyStr.isdigit. intros Hparts.
  pose proof (map_int_nonneg _ _ Hparts) as Hnonneg.
  destruct (PyStr.split_on "." host) as [|w ws] eqn:Hsplit.
  { now apply split_on_not_nil in Hsplit. }
  simpl in Hparts.
  destruct (PyStr.int w) as [n|e] eqn:Hw; [|discriminate].
  apply int_Returned in Hw as (Hne & Hw & _). simpl in Hparts.
  assert (Hws : exists l, map_raising PyStr.int ws = Returned l)
    by (destruct (map_raising PyStr.int ws); [eauto|discriminate]).
  rewrite (split_on_dot_digits host w ws Hsplit Hw Hws), andb_true_r.
  destruct host as [|c host]; [cbn [PyStr.split_on] in Hsplit; injection Hsplit as <- <-; discriminate|].
  cbn [PyStr.split_on] in Hsplit. destruct (Ascii.eqb "." c) eqn:Hc.
  { injection Hsplit as <- _. discriminate. }
  cbn [PyStr.remove_char PyStr.is_empty PyStr.lower]. rewrite Hc. cbn [PyStr.is_empty negb]. split; [reflexivity|]. split; [|assumption].
  assert (Hdec : PyStr.is_decimal c = true).
  { destruct (PyStr.split_on "." host); injection Hsplit as <- _;
      simpl in Hw; now apply andb_true_iff in Hw as [? _]. }
  change (String.eqb (String (PyStr.lower_char c) (PyStr.lower host)) "localhost")
    with (if Ascii.eqb (PyStr.lower_char c) "l"
          then String.eqb (PyStr.lower host) "ocalhost" else false).
  destruct (Ascii.eqb (PyStr.lower_char c) "l") eqn:Hl; [|reflexivity].
  exfalso. clear - Hdec Hl.
  destruct c as [[] [] [] [] [] [] [] []]; vm_compute in Hdec, Hl; discriminate.
Qed.

End ValidatorRanges.

(** X1.  For a URL whose host is four dot-separated runs of decimal
    digits, [url_validator] answers true exactly when the pattern matches,
    every octet is at most 255, and the address is in none of 10.0.0.0/8,
    172.16.0.0/12, 192.168.0.0/16 and 127.0.0.0/8. *)
Theorem url_validator_dotted_quad (s host : string) (a b c d : Z) :
  UrlParse.hostname s = Returned (Some host) ->
  Spec.octets host = Returned [a; b; c; d] ->
  Validators.url_validator (PyString s)
  = Re.match_anchored Validators.pattern s
    && forallb (fun o => (o <=? 255)%Z) [a; b; c; d]
    && negb ((a =? 10)%Z
             || ((a =? 172)%Z && (16 <=? b)%Z && (b <=? 31)%Z)
             || ((a =? 192)%Z && (b =? 168)%Z)
             || (a =? 127)%Z).
Proof.
  intros Hhost Hoct.
  destruct (octets_Returned host _ Hoct) as (Hdigits & Hlocal & Hnonneg).
  unfold Validators.url_validator, Validators.url_validator_try.
  cbn [Validators.pattern_match Validators.parsed_hostname mbind result_bind].
  destruct (Re.match_anchored Validators.pattern s); cbn [negb andb]; [|reflexivity].
  rewrite Hhost. cbn [mbind result_bind]. rewrite Hlocal.
  unfold Spec.dotted_digits in Hdigits. rewrite Hdigits.
  unfold Spec.octets in Hoct. rewrite Hoct.
  assert (Hrange : forall o, (0 <= o)%Z ->
            Validators.octet_out_of_range o = negb (o <=? 255)%Z).
  { intros o Ho. unfold Validators.octet_out_of_range.
    destruct (o <? 0)%Z eqn:H1, (o >? 255)%Z eqn:H2, (o <=? 255)%Z eqn:H3;
      simpl; try reflexivity; lia. }
  inversion Hnonneg as [|? ? Ha H1]; subst. inversion H1 as [|? ? Hb H2]; subst.
  inversion H2 as [|? ? Hc H3]; subst. inversion H3 as [|? ? Hd _]; subst.
  cbn [mbind result_bind List.length Nat.eqb negb orb existsb forallb getitem
       lookup list_lookup].
  rewrite !Hrange by assumption.
  destruct (a <=? 255)%Z, (b <=? 255)%Z, (c <=? 255)%Z, (d <=? 255)%Z;
    cbn [negb orb andb]; try reflexivity.
  destruct (a =? 10)%Z; cbn [negb orb andb]; [reflexivity|].
  destruct (a =? 172)%Z; cbn [mbind result_bind negb orb andb].
  - destruct ((16 <=? b)%Z && (b <=? 31)%Z) eqn:H172;
      rewrite ?H172; cbn [negb orb andb]; [reflexivity|].
    destruct (a =? 192)%Z; cbn [mbind result_bind negb orb andb].
    + destruct (b =? 168)%Z; cbn [negb orb andb]; [reflexivity|].
      now destruct (a =? 127)%Z.
    + now destruct (a =? 127)%Z.
  - destruct (a =? 192)%Z; cbn [mbind result_bind negb orb andb].
    + destruct (b =? 168)%Z; cbn [negb orb andb]; [reflexivity|].
      now destruct (a =? 127)%Z.
    + now destruct (a =? 127)%Z.
Qed.

Lemma url_validator_dotted_quad_witness :
  Validators.url_validator (PyString "http://172.20.1.1:8080/feed") = false
  /\ Validators.url_validator (PyString "https://8.8.4.4/dns") = true.
Proof.
  split.
  - rewrite (url_validator_dotted_quad
               "http://172.20.1.1:8080/feed" "172.20.1.1" 172 20 1 1);
      vm_compute; reflexivity.
  - rewrite (url_validator_dotted_quad "https://8.8.4.4/dns" "8.8.4.4" 8 8 4 4);
      vm_compute; reflexivity.
Defined.

Section PatternFacts.

Import Re.

Lemma lang_Seq_inv (r1 r2 : regex) (w : string) :
  lang (Seq r1 r2) w -> exists w1 w2, w = w1 ++ w2 /\ lang r1 w1 /\ lang r2 w2.
Proof. inversion 1; subst; eauto. Qed.

Lemma lang_Sym_inv (p : ascii -> bool) (w : string) :
  lang (Sym p) w -> exists c, w = String c "" /\ p c = true.
Proof. inversion 1; subst; eauto. Qed.

Lemma lang_opt_inv (r : regex) (w : string) :
  lang (opt r) w -> w = "" \/ lang r w.
Proof.
  unfold opt. inversion 1 as [| | |? ? ? Heps|? ? ? Hr| |]; subst; [left|now right].
  now inversion Heps.
Qed.

Lemma lower_app (s1 s2 : string) :
  PyStr.lower (s1 ++ s2) = PyStr.lower s1 ++ PyStr.lower s2.
Proof.
  induction s1 as [|c s1 IH]; [reflexivity|].
  rewrite append_cons. cbn [PyStr.lower]. now rewrite IH, append_cons.
Qed.

(** A literal matched without regard to case. *)
Lemma lang_lit_i (p w : string) :
  lang (lit_i p) w -> PyStr.lower w = PyStr.lower p.
Proof.
  revert w. induction p as [|c p IH]; intros w; cbn [lit_i].
  - now inversion 1.
  - intros (w1 & w2 & -> & H1 & H2)%lang_Seq_inv.
    apply lang_Sym_inv in H1 as (d & -> & Hd). apply Ascii.eqb_eq in Hd.
    rewrite append_cons, append_nil_l. cbn [PyStr.lower].
    now rewrite Hd, (IH _ H2).
Qed.

Lemma lang_lit (p w : string) : lang (lit p) w -> w = p.
Proof.
  revert w. induction p as [|c p IH]; intros w; cbn [lit].
  - now inversion 1.
  - intros (w1 & w2 & -> & H1 & H2)%lang_Seq_inv.
    apply lang_Sym_inv in H1 as (d & -> & Hd). apply Ascii.eqb_eq in Hd.
    rewrite append_cons, append_nil_l. now rewrite Hd, (IH _ H2).
Qed.

Lemma drop_last_newline (s : string) :
  ends_with_newline s = true -> s = drop_last s ++ String "010" "".
Proof.
  induction s as [|c s IH]; [discriminate|].
  destruct s as [|d s].
  - cbn [ends_with_newline drop_last]. intros ->%Ascii.eqb_eq. reflexivity.
  - intros H. change (drop_last (String c (String d s)))
      with (String c (drop_last (String d s))).
    rewrite append_cons. f_equal. now apply IH.
Qed.

(** What [pattern.match(s)] finds is [s] or [s] without a last newline. *)
Lemma match_anchored_lang (r : regex) (s : string) :
  match_anchored r s = true -> exists w tail, s = w ++ tail /\ lang r w.
Proof.
  unfold match_anchored.
  intros [H|[Hnl H]%andb_true_iff]%orb_true_iff; apply matches_lang in H.
  - exists s, "". now rewrite append_nil_r.
  - exists (drop_last s), (String "010" ""). split; [|assumption].
    now apply drop_last_newline.
Qed.

End PatternFacts.

Lemma app_assoc_string (s1 s2 s3 : string) : (s1 ++ s2) ++ s3 = s1 ++ s2 ++ s3.
Proof.
  induction s1 as [|c s1 IH]; [now rewrite !append_nil_l|].
  now rewrite !append_cons, IH.
Qed.

(** X2.  A URL that [url_validator] accepts begins with [http://] or
    [https://], in any mix of upper and lower case. *)
Theorem url_validator_requires_http_scheme (s : string) :
  Validators.url_validator (PyString s) = true ->
  exists scheme rest,
    s = scheme ++ rest
    /\ (PyStr.lower scheme = "http://" \/ PyStr.lower scheme = "https://").
Proof.
  unfold Validators.url_validator, Validators.url_validator_try.
  cbn [Validators.pattern_match mbind result_bind].
  destruct (Re.match_anchored Validators.pattern s) eqn:Hmatch;
    cbn [negb]; [intros _|discriminate].
  apply match_anchored_lang in Hmatch as (w & tail & -> & Hw).
  unfold Validators.pattern in Hw.
  apply lang_Seq_inv in Hw as (w1 & u1 & -> & H1 & Hw).
  apply lang_Seq_inv in Hw as (w2 & u2 & -> & H2 & Hw).
  apply lang_Seq_inv in Hw as (w3 & w' & -> & H3 & _).
  apply lang_lit_i in H1. apply lang_lit in H3. subst w3.
  exists (w1 ++ w2 ++ "://"), (w' ++ tail).
  split; [now rewrite !app_assoc_string|].
  rewrite !lower_app, H1.
  apply lang_opt_inv in H2 as [->|H2]; [now left|right].
  apply lang_Sym_inv in H2 as (c & -> & Hc). apply Ascii.eqb_eq in Hc.
  cbn [PyStr.lower]. now rewrite Hc.
Qed.

Lemma url_validator_requires_http_scheme_witness :
  exists scheme rest,
    "HTTPS://Example.com/a" = scheme ++ rest
    /\ (PyStr.lower scheme = "http://" \/ PyStr.lower scheme = "https://").
Proof.
  apply (url_validator_requires_http_scheme "HTTPS://Example.com/a").
  vm_compute. reflexivity.
Defined.

(** ** More on the normalizer *)

Section SubstitutionFacts.

Import Re.

Lemma length_app_string (s1 s2 : string) :
  String.length (s1 ++ s2) = (String.length s1 + String.length s2)%nat.
Proof.
  induction s1 as [|c s1 IH]; [now rewrite append_nil_l|].
  rewrite append_cons. cbn [String.length]. now rewrite IH.
Qed.

(** A substitution by the empty string only deletes. *)
Lemma length_sub_empty (r : regex) (s : string) : forall skip,
  (String.length (sub_empty r skip s) <= String.length s)%nat.
Proof.
  induction s as [|c s IH]; intros skip; cbn [sub_empty String.length]; [lia|].
  destruct skip as [|k]; [|specialize (IH k); lia].
  destruct (longest_match r 0 None (String c s)) as [[|k]|];
    cbn [String.length]; try (specialize (IH 0%nat); lia).
  specialize (IH k); lia.
Qed.

Lemma length_rstrip_by (p : ascii -> bool) (s : string) :
  (String.length (PyStr.rstrip_by p s) <= String.length s)%nat.
Proof.
  induction s as [|c s IH]; cbn [PyStr.rstrip_by String.length]; [lia|].
  destruct (PyStr.rstrip_by p s) as [|d t].
  - destruct (p c); cbn [String.length]; lia.
  - cbn [String.length] in *. lia.
Qed.

Lemma length_take (n : nat) (s : string) :
  (String.length (PyStr.take n s) <= n)%nat.
Proof.
  revert s. induction n as [|n IH]; intros [|c s]; cbn [PyStr.take String.length];
    try lia.
  specialize (IH s). lia.
Qed.

(** A match reported by [longest_match] is a prefix in the language. *)
Lemma longest_match_lang (s : string) : forall r n best m,
  longest_match r n best s = Some m ->
  best = Some m
  \/ exists k, m = (n + k)%nat /\ lang r (PyStr.take k s).
Proof.
  induction s as [|c s IH]; intros r n best m.
  - assert (Hnull : (if nullable r then Some n else best) = Some m ->
                    best = Some m
                    \/ exists k, m = (n + k)%nat /\ lang r (PyStr.take k "")).
    { destruct (nullable r) eqn:Hr; [|now left].
      intros [= <-]. right. exists 0%nat. split; [lia|].
      now apply nullable_lang. }
    destruct r; cbn [longest_match]; first [exact Hnull | now left].
  - assert (Hstep : forall r',
              r' = r ->
              longest_match (deriv c r') (S n)
                            (if nullable r' then Some n else best) s = Some m ->
              best = Some m
              \/ exists k, m = (n + k)%nat /\ lang r (PyStr.take k (String c s))).
    { intros r' -> H. apply IH in H as [H|(k & -> & Hk)].
      - destruct (nullable r) eqn:Hr; [|now left].
        injection H as <-. right. exists 0%nat. split; [lia|].
        now apply nullable_lang.
      - right. exists (S k). split; [lia|].
        cbn [PyStr.take]. now apply deriv_lang. }
    destruct r; cbn [longest_match];
      first [now left | intros H; eapply Hstep; [reflexivity|exact H]].
Qed.

Lemma contains_app_r (c : ascii) (s1 s2 : string) :
  PyStr.contains c s2 = true -> PyStr.contains c (s1 ++ s2) = true.
Proof.
  unfold PyStr.contains. induction s1 as [|d s1 IH]; [now rewrite append_nil_l|].
  rewrite append_cons. cbn [PyStr.find_char]. intros H.
  destruct (Ascii.eqb c d); [reflexivity|].
  apply IH in H. now destruct (PyStr.find_char c (s1 ++ s2)).
Qed.

Lemma contains_take (c : ascii) (s : string) : forall k,
  PyStr.contains c (PyStr.take k s) = true -> PyStr.contains c s = true.
Proof.
  unfold PyStr.contains.
  induction s as [|d s IH]; intros [|k]; cbn [PyStr.take PyStr.find_char];
    try discriminate.
  destruct (Ascii.eqb c d); [reflexivity|]. intros H.
  specialize (IH k). destruct (PyStr.find_char c (PyStr.take k s));
    [|discriminate].
  now destruct (PyStr.find_char c s); [|discriminate IH].
Qed.

(** Every truncation marker has an opening bracket. *)
Lemma truncation_marker_bracket (w : string) :
  lang Helpers.truncation_marker w -> PyStr.contains "[" w = true.
Proof.
  unfold Helpers.truncation_marker.
  intros (w1 & u1 & -> & _ & Hw)%lang_Seq_inv.
  apply lang_Seq_inv in Hw as (w2 & u2 & -> & H2 & _).
  apply lang_lit in H2 as ->. apply contains_app_r. reflexivity.
Qed.

(** A text in which no prefix of any suffix is a match is left as it is. *)
Lemma sub_empty_no_match (r : regex) (c : ascii) (s : string) :
  (forall w, lang r w -> PyStr.contains c w = true) ->
  PyStr.contains c s = false ->
  sub_empty r 0 s = s.
Proof.
  intros Hr. induction s as [|d s IH]; [reflexivity|]. intros Hs.
  cbn [sub_empty].
  destruct (longest_match r 0 None (String d s)) as [[|k]|] eqn:Hm.
  - f_equal. apply IH. unfold PyStr.contains in *. cbn [PyStr.find_char] in Hs.
    destruct (Ascii.eqb c d); [discriminate|].
    now destruct (PyStr.find_char c s).
  - apply longest_match_lang in Hm as [Hm|(k' & _ & Hm)]; [discriminate|].
    apply Hr, contains_take in Hm. congruence.
  - f_equal. apply IH. unfold PyStr.contains in *. cbn [PyStr.find_char] in Hs.
    destruct (Ascii.eqb c d); [discriminate|].
    now destruct (PyStr.find_char c s).
Qed.

End SubstitutionFacts.

Section NormalizeMore.

Import Helpers.

Variable parse_datetime : string -> result (option Z).
Variable now : Z.
Variable url_validator : string -> bool.

Local Abbreviation normalize_article :=
  (Helpers.normalize_article parse_datetime now url_validator).
Local Abbreviation normalize_articles :=
  (Helpers.normalize_articles parse_datetime now url_validator).

(** What a turn of the loop that yields has read and checked. *)
Lemma normalize_article_Yield (article : RawArticle) (a : Article) :
  normalize_article article = Yield a ->
  exists t u d s p text date,
    raw_title article = Some t /\ raw_url article = Some u
    /\ raw_description article = Some d
    /\ raw_source article = SourceDict (Some s)
    /\ raw_publishedAt article = Some p
    /\ (if negb (truthy (raw_content article)) && truthy (Some d)
        then Some (PyStr.rstrip (PyStr.take 200 d) ++ "...")
        else raw_content article) = Some text
    /\ (if truthy (Some p)
        then match parse_datetime p with
             | Returned date => date
             | Raised _ => Some now
             end
        else Some now) = Some date
    /\ url_validator u = true
    /\ a = {| title := t;
              content := Re.sub_empty truncation_marker 0 text;
              description := d;
              url := u;
              category := "general";
              source := s;
              author := py_or (raw_author article) s;
              url_to_image := raw_urlToImage article;
              published_date := date;
              keywords := [];
              language := Some "en" |}.
Proof.
  unfold Helpers.normalize_article, source_name.
  destruct (raw_source article) as [| |[s|]]; try discriminate;
    destruct (raw_title article) as [t|], (raw_url article) as [u|],
      (raw_description article) as [d|], (raw_publishedAt article) as [p|];
    try discriminate.
  destruct (if negb (truthy (raw_content article)) && truthy _ then _ else _)
    as [text|] eqn:Htext; try discriminate.
  unfold validate_url_and_date, is_datetime.
  destruct (url_validator u) eqn:Hu; cbn [negb]; try discriminate.
  destruct (if truthy _ then _ else _) as [date|] eqn:Hdate; cbn [negb];
    try discriminate.
  intros [= <-]. exists t, u, d, s, p, text, date. repeat split; assumption.
Qed.

Lemma normalize_articles_In (a : Article) (articles : list RawArticle) :
  In a (fst (normalize_articles articles)) ->
  exists article, In article articles /\ normalize_article article = Yield a.
Proof.
  induction articles as [|r articles IH]; cbn [Helpers.normalize_articles fst];
    [intros []|].
  destruct (normalize_article r) as [|y|e] eqn:Hr.
  - intros (article & Hin & Hy)%IH. exists article. split; [now right|assumption].
  - destruct (normalize_articles articles) as [ys raised]. cbn [fst] in *.
    intros [<-|Hin].
    + exists r. split; [now left|assumption].
    + destruct (IH Hin) as (article & Hin' & Hy).
      exists article. split; [now right|assumption].
  - intros [].
Qed.

(** X3.  Every article that [normalize_articles] yields comes from a raw
    article of the input that has its title, url, description, source
    name and publication time, carries these as they are, and has a url
    that [url_validator] accepts. *)
Theorem normalize_articles_yields_validated
    (a : Article) (articles : list RawArticle) :
  In a (fst (normalize_articles articles)) ->
  exists article published_raw,
    In article articles
    /\ raw_title article = Some (title a)
    /\ raw_url article = Some (url a)
    /\ raw_description article = Some (description a)
    /\ raw_source article = SourceDict (Some (source a))
    /\ raw_publishedAt article = Some published_raw
    /\ url_to_image a = raw_urlToImage article
    /\ url_validator (url a) = true.
Proof.
  intros (article & Hin & Hy)%normalize_articles_In.
  apply normalize_article_Yield in Hy
    as (t & u & d & s & p & text & date & Ht & Hu & Hd & Hs & Hp & _ & _ & Hv & ->).
  exists article, p. cbn. repeat split; assumption.
Qed.

(** X4.  The urls of the articles that [normalize_articles] yields are
    urls of the input, in the order of the input and at most once for
    each raw article. *)
Theorem normalize_articles_keeps_order (articles : list RawArticle) :
  map url (fst (normalize_articles articles))
    `sublist_of` omap raw_url articles.
Proof.
  induction articles as [|r articles IH]; cbn [Helpers.normalize_articles fst];
    [constructor|].
  destruct (normalize_article r) as [|y|e] eqn:Hr.
  - cbn [omap list_omap]. destruct (raw_url r); [now apply sublist_cons|assumption].
  - apply normalize_article_Yield in Hr
      as (t & u & d & s & p & text & date & _ & Hu & _ & _ & _ & _ & _ & _ & ->).
    destruct (normalize_articles articles) as [ys raised]. cbn [fst] in *.
    cbn [omap list_omap map url]. rewrite Hu. now apply sublist_skip.
  - apply sublist_nil_l.
Qed.

(** X6.  When the raw content is absent or empty and the description is
    not empty, the content that is yielded is the first 200 characters of
    the description, without the blanks that end them, followed by three
    dots, with the truncation markers taken out.  When the description
    is empty too, an article is yielded only for a raw content that is the
    empty string, and its content is the empty string.  In both cases the
    content has at most 203 characters. *)
Theorem normalize_article_derived_content (article : RawArticle) (a : Article) :
  truthy (raw_content article) = false ->
  normalize_article article = Yield a ->
  (String.length (content a) <= 203)%nat
  /\ (raw_content article = None -> description a <> "")
  /\ (description a <> "" ->
      content a
      = Re.sub_empty truncation_marker 0
          (PyStr.rstrip (PyStr.take 200 (description a)) ++ "..."))
  /\ (description a = "" -> raw_content article = Some "" /\ content a = "").
Proof.
  intros Hcontent Hy.
  apply normalize_article_Yield in Hy
    as (t & u & d & s & p & text & date & _ & _ & _ & _ & _ & Htext & _ & _ & ->).
  cbn [content description]. rewrite Hcontent in Htext. cbn [negb andb] in Htext.
  split; [|split; [|split]].
  - etransitivity; [apply length_sub_empty|].
    destruct (truthy (Some d)).
    + assert (Heq : text = PyStr.rstrip (PyStr.take 200 d) ++ "...")
        by congruence.
      rewrite Heq, length_app_string.
      pose proof (length_rstrip_by PyStr.is_space (PyStr.take 200 d)) as H1.
      pose proof (length_take 200 d) as H2. unfold PyStr.rstrip.
      change (String.length "...") with 3%nat. lia.
    + rewrite Htext in Hcontent. destruct text; [cbn; lia|discriminate].
  - intros Hnone ->. rewrite Hnone in Htext. discriminate.
  - intros Hd. assert (Htruthy : truthy (Some d) = true) by (now destruct d).
    rewrite Htruthy in Htext.
    assert (Heq : text = PyStr.rstrip (PyStr.take 200 d) ++ "...")
      by congruence.
    now rewrite Heq.
  - intros ->. cbn in Htext. rewrite Htext in Hcontent.
    destruct text; [|discriminate]. split; [assumption|reflexivity].
Qed.

(** X7.  A raw content that is not empty and has no opening square
    bracket reaches the yielded article unchanged: only truncation
    markers are taken out. *)
Theorem normalize_article_plain_content
    (article : RawArticle) (a : Article) (text : string) :
  raw_content article = Some text ->
  text <> "" ->
  PyStr.contains "[" text = false ->
  normalize_article article = Yield a ->
  content a = text.
Proof.
  intros Hcontent Hne Hplain Hy.
  apply normalize_article_Yield in Hy
    as (t & u & d & s & p & text' & date & _ & _ & _ & _ & _ & Htext & _ & _ & ->).
  cbn [content]. rewrite Hcontent in Htext.
  assert (Htruthy : truthy (Some text) = true) by (now destruct text).
  rewrite Htruthy in Htext. injection Htext as <-.
  apply (sub_empty_no_match _ "["%char); [apply truncation_marker_bracket|assumption].
Qed.

(** X8.  The publication time of a yielded article is the current time
    when the parser raises on the raw value, or when the raw value is the
    empty string; and when the parser returns no time, the raw article
    is not yielded. *)
Theorem normalize_article_date_fallback (article : RawArticle) (p : string) :
  raw_publishedAt article = Some p ->
  (forall a e, (p = "" \/ parse_datetime p = Raised e) ->
               normalize_article article = Yield a -> published_date a = now)
  /\ (p <> "" -> parse_datetime p = Returned None ->
      forall a, normalize_article article <> Yield a).
Proof.
  intros Hp. split.
  - intros a e Hcase Hy.
    apply normalize_article_Yield in Hy
      as (t & u & d & s & p' & text & date & _ & _ & _ & _ & Hp' & _ & Hdate & _ & ->).
    rewrite Hp in Hp'. injection Hp' as <-. cbn [published_date].
    destruct Hcase as [->|Hraise].
    + cbn in Hdate. congruence.
    + rewrite Hraise in Hdate. destruct (truthy (Some p)); congruence.
  - intros Hne Hnone a Hy.
    apply normalize_article_Yield in Hy
      as (t & u & d & s & p' & text & date & _ & _ & _ & _ & Hp' & _ & Hdate & _ & ->).
    rewrite Hp in Hp'. injection Hp' as <-. rewrite Hnone in Hdate.
    destruct p; [now apply Hne|discriminate].
Qed.

End NormalizeMore.

Lemma normalize_articles_yields_validated_witness :
  let a :=
    Fixture.normalized "Market rose today" "https://example.com/m" "Stocks"
                       "Shares climbed." in
  exists article published_raw,
    In article [Sample.raw_untitled; Sample.raw_market]
    /\ Helpers.raw_title article = Some (Helpers.title a)
    /\ Helpers.raw_url article = Some (Helpers.url a)
    /\ Helpers.raw_description article = Some (Helpers.description a)
    /\ Helpers.raw_source article = Helpers.SourceDict (Some (Helpers.source a))
    /\ Helpers.raw_publishedAt article = Some published_raw
    /\ Helpers.url_to_image a = Helpers.raw_urlToImage article
    /\ Sample.validator (Helpers.url a) = true.
Proof.
  apply (normalize_articles_yields_validated Sample.parse_fixed 0 Sample.validator).
  vm_compute. left. reflexivity.
Defined.

Lemma normalize_article_derived_content_witness :
  exists a,
    Helpers.normalize_article Sample.parse_fixed 0 Sample.validator Fixture.raw_teaser
    = Helpers.Yield a
    /\ Helpers.description a = "Stocks rallied across Asia   "
    /\ Helpers.content a = "Stocks rallied across Asia...".
Proof.
  eexists. split; [vm_compute; reflexivity|]. split; [reflexivity|].
  pose proof (fun a Hy =>
                proj1 (proj2 (proj2 (normalize_article_derived_content
                                       Sample.parse_fixed 0 Sample.validator
                                       Fixture.raw_teaser a eq_refl Hy))))
    as Hderived.
  etransitivity.
  - apply Hderived; [vm_compute; reflexivity|cbn; discriminate].
  - vm_compute. reflexivity.
Defined.

Lemma normalize_article_plain_content_witness :
  exists a,
    Helpers.normalize_article Sample.parse_fixed 0 Sample.validator Sample.raw_market
    = Helpers.Yield a
    /\ Helpers.content a = "Shares climbed.".
Proof.
  eexists. split; [vm_compute; reflexivity|].
  apply (normalize_article_plain_content
           Sample.parse_fixed 0 Sample.validator Sample.raw_market);
    [reflexivity|discriminate|reflexivity|vm_compute; reflexivity].
Defined.

Lemma normalize_article_date_fallback_witness :
  exists a,
    Helpers.normalize_article Fixture.parse_raises 42 Sample.validator Sample.raw_short
    = Helpers.Yield a
    /\ Helpers.published_date a = 42%Z.
Proof.
  eexists. split; [vm_compute; reflexivity|].
  apply (proj1 (normalize_article_date_fallback
                  Fixture.parse_raises 42 Sample.validator Sample.raw_short
                  "2024-01-01T00:00:00Z" eq_refl)
               _ ValueError);
    [right; reflexivity|vm_compute; reflexivity].
Defined.

(** ** More on the fetch cycle of the articles *)

Section CycleMore.

Import Helpers FetchArticles.

Variable yake_extract : string -> result (list (string * Q)).
Variable list_of_set : gset string -> list string.
Variable predict : string -> result (string * Q).
Variable parse_datetime : string -> result (option Z).
Variable now : Z.
Variable url_validator : string -> bool.
Variable lookup_raises : list Article -> list Article -> option exception.
Variable bulk_create_raises : list Article -> list Article -> bool.

Local Abbreviation normalize_article :=
  (Helpers.normalize_article parse_datetime now url_validator).
Local Abbreviation normalize_articles :=
  (Helpers.normalize_articles parse_datetime now url_validator).
Local Abbreviation enrichment :=
  (prepare_article_keywords_and_language yake_extract list_of_set predict).
Local Abbreviation prepare_articles :=
  (FetchArticles.prepare_articles yake_extract list_of_set predict).
Local Abbreviation store_articles :=
  (FetchArticles.store_articles lookup_raises bulk_create_raises).
Local Abbreviation process_fetch_cycle :=
  (FetchArticles.process_fetch_cycle
     yake_extract list_of_set predict parse_datetime now url_validator
     lookup_raises bulk_create_raises).
Local Abbreviation enriched category article :=
  (set_enrichment article
     (fst (enrichment (article_full_content article)))
     (snd (enrichment (article_full_content article)))
     category).
Local Abbreviation unique_articles batch :=
  (PyDict.values (PyDict.of_items (map (fun a => (url a, a)) batch))).
Local Abbreviation new_articles table batch :=
  (List.filter (fun a => negb (url_stored table (url a))) (unique_articles batch)).

(** The only exception that the generator lets out is the one of a raw
    article whose source has no [get]. *)
Lemma normalize_article_Throw (article : RawArticle) (e : exception) :
  normalize_article article = Throw e ->
  e = AttributeError /\ raw_source article = SourceNotADict.
Proof.
  unfold Helpers.normalize_article, source_name.
  destruct (raw_source article) as [| |[s|]];
    try (intros [= <-]; now split);
    destruct (raw_title article), (raw_url article), (raw_description article),
      (raw_publishedAt article); try discriminate;
    destruct (if negb (truthy (raw_content article)) && truthy _ then _ else _);
    try discriminate;
    destruct (validate_url_and_date _ _ _); try discriminate;
    destruct (if truthy _ then _ else _); discriminate.
Qed.

Lemma normalize_articles_null_source
    (articles : list RawArticle) (article : RawArticle) :
  In article articles ->
  raw_source article = SourceNotADict ->
  snd (normalize_articles articles) = Some AttributeError.
Proof.
  intros Hin Hnull.
  assert (Hturn : normalize_article article = Throw AttributeError).
  { unfold Helpers.normalize_article, source_name. now rewrite Hnull. }
  induction articles as [|r articles IH]; [destruct Hin|].
  cbn [Helpers.normalize_articles].
  destruct (normalize_article r) as [|y|e] eqn:Hr.
  - destruct Hin as [->|Hin]; [congruence|auto].
  - destruct Hin as [->|Hin]; [congruence|].
    specialize (IH Hin). now destruct (normalize_articles articles).
  - apply normalize_article_Throw in Hr as [-> _]. reflexivity.
Qed.

Lemma prepare_articles_raised
    (is_set : nat -> bool) (category : string) (yielded : list Article)
    (e : exception) (i : nat) (acc : list Article) :
  (forall j, is_set j = false) ->
  prepare_articles is_set category i yielded (Some e) acc = Raised e.
Proof.
  intros Hquiet.
  pose proof (prepare_articles_run yake_extract list_of_set predict
                is_set category yielded (Some e) i acc) as Hrun.
  destruct (prepare_articles is_set category i yielded (Some e) acc)
    as [prepared|e'].
  - destruct Hrun as (k & _ & _ & [[_ Hnone]|[_ Hset]]); [discriminate|].
    rewrite Hquiet in Hset. discriminate.
  - congruence.
Qed.

(** X5.  A fetched batch that contains a raw article whose source is
    null makes the whole cycle raise [AttributeError] when no shutdown is
    requested: the persistence step is not reached, and the valid
    articles of the batch are not stored. *)
Theorem null_source_aborts_cycle
    (is_set : nat -> bool) (category : string)
    (articles : list RawArticle) (article : RawArticle) (table : list Article) :
  In article articles ->
  raw_source article = SourceNotADict ->
  (forall i, is_set i = false) ->
  process_fetch_cycle is_set category (Returned articles) table
  = Raised AttributeError.
Proof.
  intros Hin Hnull Hquiet. unfold FetchArticles.process_fetch_cycle.
  cbn [mbind result_bind].
  destruct articles as [|r articles]; [destruct Hin|]. cbn [is_nil].
  pose proof (normalize_articles_null_source _ _ Hin Hnull) as Hraised.
  destruct (normalize_articles (r :: articles)) as [yielded raised].
  cbn [snd] in Hraised. subst raised.
  now rewrite prepare_articles_raised.
Qed.

Lemma In_firstn {A : Type} (k : nat) (l : list A) (a : A) :
  In a (firstn k l) -> In a l.
Proof.
  revert l. induction k as [|k IH]; intros [|b l]; cbn [firstn In]; try tauto.
  intros [->|H]; [now left|right; auto].
Qed.

(** X9.  A cycle that returns has only appended to the table: the rows
    it adds have distinct urls that the table did not hold, the lane's
    category, a language, and a url that a raw article of the fetched
    batch carries.  The count that is reported is at least the number of
    rows added; it is the number of objects given to the bulk insert, of
    which the table takes those that it can hold. *)
Theorem process_fetch_cycle_only_appends
    (is_set : nat -> bool) (category : string)
    (articles : list RawArticle) (table table' : list Article)
    (count : option nat) :
  process_fetch_cycle is_set category (Returned articles) table
  = Returned (table', count) ->
  exists added,
    table' = (table ++ added)%list
    /\ NoDup (map url added)
    /\ (forall n, count = Some n -> (List.length added <= n)%nat)
    /\ Forall (fun row =>
                 ~ In (url row) (map url table)
                 /\ Helpers.category row = category
                 /\ storable row = true
                 /\ exists article,
                      In article articles /\ raw_url article = Some (url row))
              added.
Proof.
  unfold FetchArticles.process_fetch_cycle. cbn [mbind result_bind].
  destruct (is_nil articles).
  { intros [= <- <-]. exists []. rewrite app_nil_r.
    repeat split; [constructor|discriminate|constructor]. }
  destruct (normalize_articles articles) as [yielded raised] eqn:Hnorm.
  pose proof (prepare_articles_run yake_extract list_of_set predict
                is_set category yielded raised 0 []) as Hrun.
  destruct (prepare_articles is_set category 0 yielded raised [])
    as [prepared|e]; [|discriminate].
  destruct Hrun as (k & -> & _). cbn [app mbind result_bind].
  set (batch := map (fun y => enriched category y) (firstn k yielded)).
  destruct (store_articles table batch) as [[t n]|e] eqn:Hstore; [|discriminate].
  intros [= <- <-].
  apply store_articles_Returned in Hstore as [[-> ->]|[-> ->]].
  { exists []. rewrite app_nil_r.
    repeat split; [constructor|intros n [= <-]; cbn; lia|constructor]. }
  exists (List.filter storable (new_articles table batch)).
  split; [reflexivity|].
  split; [apply NoDup_map_filter, new_articles_NoDup|].
  split.
  { intros n [= <-].
    pose proof (filter_split_length storable (new_articles table batch)). lia. }
  apply List.Forall_forall. intros row Hrow.
  apply filter_In in Hrow as [Hrow Hstorable].
  split; [now apply (new_articles_fresh table batch)|].
  apply filter_In in Hrow as [Hrow _]. apply unique_articles_origin in Hrow.
  unfold batch in Hrow. apply in_map_iff in Hrow as (y & <- & Hy).
  cbn [set_enrichment Helpers.category url] in *. split; [reflexivity|].
  split; [assumption|].
  apply In_firstn in Hy.
  assert (Hyielded : In y (fst (normalize_articles articles)))
    by now rewrite Hnorm.
  apply normalize_articles_In in Hyielded as (article & Hin & Hturn).
  apply normalize_article_Yield in Hturn
    as (t & u & d & s & p & text & date & _ & Hu & _ & _ & _ & _ & _ & Hv & ->).
  cbn [url]. now exists article.
Qed.

Lemma prepare_articles_interrupted
    (is_set : nat -> bool) (category : string) (raised : option exception)
    (yielded : list Article) : forall i acc k,
  (forall j, (j < k)%nat -> is_set (i + j)%nat = false) ->
  is_set (i + k)%nat = true ->
  (k < List.length yielded)%nat ->
  prepare_articles is_set category i yielded raised acc
  = Returned (acc ++ map (fun y => enriched category y) (firstn k yielded))%list.
Proof.
  induction yielded as [|y yielded IH]; intros i acc k Hclear Hset Hk;
    cbn [List.length] in Hk; [lia|].
  cbn [FetchArticles.prepare_articles].
  destruct k as [|k].
  - rewrite Nat.add_0_r in Hset. rewrite Hset. cbn [firstn map].
    now rewrite app_nil_r.
  - pose proof (Hclear 0%nat ltac:(lia)) as Hi. rewrite Nat.add_0_r in Hi.
    rewrite Hi, (prepare_article_keeps yake_extract list_of_set predict).
    rewrite (IH (S i) _ k).
    + cbn [firstn map]. now rewrite <- app_assoc.
    + intros j Hj. specialize (Hclear (S j) ltac:(lia)).
      now rewrite Nat.add_succ_r in Hclear.
    + now rewrite Nat.add_succ_r in Hset.
    + lia.
Qed.

(** X10.  When the shutdown flag is found set at the [k]-th article that
    the normalizer hands over, and not before, the cycle returns
    normally and stores what it prepared from the articles before it;
    the rest of the batch is not looked at, so that an exception that
    the normalizer would raise further on does not occur. *)
Theorem interrupted_cycle_stores_prefix
    (is_set : nat -> bool) (category : string)
    (articles : list RawArticle) (table : list Article) (k : nat) :
  (forall j, (j < k)%nat -> is_set j = false) ->
  is_set k = true ->
  (k < List.length (fst (normalize_articles articles)))%nat ->
  process_fetch_cycle is_set category (Returned articles) table
  = ('(table', stored_count) ←
       store_articles
         table
         (map (fun y => enriched category y)
              (firstn k (fst (normalize_articles articles))));
     Returned (table', Some stored_count)).
Proof.
  intros Hbefore Hset Hk. unfold FetchArticles.process_fetch_cycle.
  cbn [mbind result_bind].
  destruct articles as [|r articles]; [cbn in Hk; lia|]. cbn [is_nil].
  destruct (normalize_articles (r :: articles)) as [yielded raised].
  cbn [fst] in *.
  rewrite (prepare_articles_interrupted is_set category raised yielded 0 [] k);
    auto.
Qed.

(** X22.  When the database refuses the bulk insert, the cycle does not
    raise because of it: a cycle that returns leaves the table as it was
    and reports 0 stored articles.  The exceptions that a cycle lets out
    after a successful fetch are the one of the normalizer and the one of
    the steps of the persistence that come before its [try]. *)
Theorem failed_insert_is_swallowed
    (is_set : nat -> bool) (category : string)
    (articles : list RawArticle) (table : list Article) :
  (forall t objs, bulk_create_raises t objs = true) ->
  match process_fetch_cycle is_set category (Returned articles) table with
  | Returned (table', count) =>
      table' = table /\ (count = Some 0%nat \/ (count = None /\ articles = []))
  | Raised e =>
      snd (normalize_articles articles) = Some e
      \/ exists unique, lookup_raises table unique = Some e
  end.
Proof.
  intros Hrefused. unfold FetchArticles.process_fetch_cycle.
  cbn [mbind result_bind].
  destruct articles as [|r articles]; cbn [is_nil]; [auto|].
  destruct (normalize_articles (r :: articles)) as [yielded raised].
  pose proof (prepare_articles_run yake_extract list_of_set predict
                is_set category yielded raised 0 []) as Hrun.
  destruct (prepare_articles is_set category 0 yielded raised [])
    as [prepared|e]; cbn [mbind result_bind snd]; [|now left].
  destruct (store_articles table prepared) as [[table' n]|e] eqn:Hstore;
    cbn [mbind result_bind].
  - rewrite store_articles_eq, Hrefused in Hstore.
    destruct (if is_nil prepared then None else _); [discriminate|].
    injection Hstore as <- <-. auto.
  - apply store_articles_Raised in Hstore as [_ Hlookup]. right. eauto.
Qed.

End CycleMore.

Lemma null_source_aborts_cycle_witness :
  FetchArticles.process_fetch_cycle
    Sample.yake_finds elements Sample.predict_english Sample.parse_fixed 0
    Sample.validator Sample.db_answers Sample.db_accepts Sample.never "business"
    (Returned [Sample.raw_market; Fixture.raw_null_source; Sample.raw_short]) []
  = Raised AttributeError.
Proof.
  apply (null_source_aborts_cycle
           Sample.yake_finds elements Sample.predict_english Sample.parse_fixed 0
           Sample.validator Sample.db_answers Sample.db_accepts Sample.never "business"
           _ Fixture.raw_null_source);
    [right; left; reflexivity|reflexivity|reflexivity].
Defined.

Lemma process_fetch_cycle_only_appends_witness :
  exists added,
    [Sample.stored_old; Fixture.market] = ([Sample.stored_old] ++ added)%list
    /\ NoDup (map Helpers.url added)
    /\ (forall n, Some 1%nat = Some n -> (List.length added <= n)%nat)
    /\ Forall (fun row =>
                 ~ In (Helpers.url row) (map Helpers.url [Sample.stored_old])
                 /\ Helpers.category row = "business"
                 /\ FetchArticles.storable row = true
                 /\ exists article,
                      In article [Sample.raw_market; Sample.raw_short]
                      /\ Helpers.raw_url article = Some (Helpers.url row))
              added.
Proof.
  apply (process_fetch_cycle_only_appends
           Sample.yake_finds elements Sample.predict_english Sample.parse_fixed 0
           Fixture.django_validator Sample.db_answers Sample.db_accepts
           Sample.never "business"
           [Sample.raw_market; Sample.raw_short] [Sample.stored_old]).
  vm_compute. reflexivity.
Defined.

Lemma interrupted_cycle_stores_prefix_witness :
  FetchArticles.process_fetch_cycle
    Sample.yake_finds elements Sample.predict_english Sample.parse_fixed 0
    Sample.validator Sample.db_answers Sample.db_accepts (Nat.eqb 1) "business"
    (Returned [Sample.raw_market; Sample.raw_short; Fixture.raw_null_source]) []
  = Returned ([Fixture.market], Some 1%nat).
Proof.
  rewrite (interrupted_cycle_stores_prefix
             Sample.yake_finds elements Sample.predict_english Sample.parse_fixed 0
             Sample.validator Sample.db_answers Sample.db_accepts (Nat.eqb 1) "business" _ [] 1).
  - vm_compute. reflexivity.
  - intros [|j] Hj; [reflexivity|lia].
  - reflexivity.
  - vm_compute. lia.
Defined.

Lemma failed_insert_is_swallowed_witness :
  FetchArticles.process_fetch_cycle
    Sample.yake_finds elements Sample.predict_english Sample.parse_fixed 0
    Fixture.django_validator Sample.db_answers Sample.db_refuses
    Sample.never "business"
    (Returned [Sample.raw_market; Sample.raw_short]) [Sample.stored_old]
  = Returned ([Sample.stored_old], Some 0%nat).
Proof.
  pose proof (failed_insert_is_swallowed
                Sample.yake_finds elements Sample.predict_english
                Sample.parse_fixed 0 Fixture.django_validator
                Sample.db_answers Sample.db_refuses
                Sample.never "business"
                [Sample.raw_market; Sample.raw_short] [Sample.stored_old]
                (fun _ _ => eq_refl)) as H.
  destruct (FetchArticles.process_fetch_cycle _ _ _ _ _ _ _ _ _ _ _ _)
    as [[table' count]|e].
  - destruct H as [-> [->|[_ Hnil]]]; [reflexivity|discriminate].
  - vm_compute in H. destruct H as [H|[unique H]]; discriminate.
Defined.

(** ** More on language detection *)

Section CleanTextFacts.

Import Re LanguageDetect.

(** Deleting matches, filtering and stripping only remove characters. *)
Lemma forallb_sub_empty (q : ascii -> bool) (r : regex) (s : string) :
  forall skip,
    PyStr.forallb q s = true -> PyStr.forallb q (sub_empty r skip s) = true.
Proof.
  induction s as [|c s IH]; intros skip; cbn [sub_empty PyStr.forallb];
    [reflexivity|].
  intros [Hc Hs]%andb_true_iff.
  destruct skip as [|k]; [|now apply IH].
  destruct (longest_match r 0 None (String c s)) as [[|k]|];
    cbn [PyStr.forallb]; rewrite ?Hc; cbn [andb]; now apply IH.
Qed.

Lemma forallb_filter_chars (q p : ascii -> bool) (s : string) :
  PyStr.forallb q s = true -> PyStr.forallb q (filter_chars p s) = true.
Proof.
  induction s as [|c s IH]; cbn [filter_chars PyStr.forallb]; [reflexivity|].
  intros [Hc Hs]%andb_true_iff.
  destruct (p c); cbn [PyStr.forallb]; rewrite ?Hc; cbn [andb]; now apply IH.
Qed.

Lemma forallb_kept_filter (p : ascii -> bool) (s : string) :
  PyStr.forallb p (filter_chars p s) = true.
Proof.
  induction s as [|c s IH]; cbn [filter_chars]; [reflexivity|].
  destruct (p c) eqn:Hc; [|assumption]. cbn [PyStr.forallb]. now rewrite Hc.
Qed.

Lemma forallb_lstrip_by_keeps (q p : ascii -> bool) (s : string) :
  PyStr.forallb q s = true -> PyStr.forallb q (PyStr.lstrip_by p s) = true.
Proof.
  induction s as [|c s IH]; cbn [PyStr.lstrip_by]; [reflexivity|].
  destruct (p c); [|trivial].
  cbn [PyStr.forallb]. intros [_ Hs]%andb_true_iff. now apply IH.
Qed.

Lemma forallb_rstrip_by_keeps (q p : ascii -> bool) (s : string) :
  PyStr.forallb q s = true -> PyStr.forallb q (PyStr.rstrip_by p s) = true.
Proof.
  induction s as [|c s IH]; cbn [PyStr.rstrip_by PyStr.forallb]; [reflexivity|].
  intros [Hc Hs]%andb_true_iff. specialize (IH Hs).
  destruct (PyStr.rstrip_by p s) as [|d t].
  - destruct (p c); cbn [PyStr.forallb]; rewrite ?Hc; reflexivity.
  - cbn [PyStr.forallb] in *. now rewrite Hc.
Qed.

Lemma forallb_strip (q : ascii -> bool) (s : string) :
  PyStr.forallb q s = true -> PyStr.forallb q (PyStr.strip s) = true.
Proof.
  intros H. unfold PyStr.strip, PyStr.rstrip.
  now apply forallb_lstrip_by_keeps, forallb_rstrip_by_keeps.
Qed.

Lemma forallb_lower (q : ascii -> bool) (s : string) :
  (forall c, q (PyStr.lower_char c) = true) ->
  PyStr.forallb q (PyStr.lower s) = true.
Proof.
  intros Hq. induction s as [|c s IH]; cbn [PyStr.lower PyStr.forallb];
    [reflexivity|].
  now rewrite Hq.
Qed.

Lemma lower_char_idempotent (c : ascii) :
  Ascii.eqb (PyStr.lower_char (PyStr.lower_char c)) (PyStr.lower_char c) = true.
Proof. destruct c as [[] [] [] [] [] [] [] []]; vm_compute; reflexivity. Qed.

Lemma lower_fixed (s : string) :
  PyStr.forallb (fun c => Ascii.eqb (PyStr.lower_char c) c) s = true ->
  PyStr.lower s = s.
Proof.
  induction s as [|c s IH]; cbn [PyStr.lower PyStr.forallb]; [reflexivity|].
  intros [Hc%Ascii.eqb_eq Hs]%andb_true_iff. now rewrite Hc, IH.
Qed.

(** Stripping twice is stripping once. *)
Lemma rstrip_by_idempotent (p : ascii -> bool) (s : string) :
  PyStr.rstrip_by p (PyStr.rstrip_by p s) = PyStr.rstrip_by p s.
Proof.
  induction s as [|c s IH]; cbn [PyStr.rstrip_by]; [reflexivity|].
  destruct (PyStr.rstrip_by p s) as [|d t] eqn:Hs.
  - destruct (p c) eqn:Hc; [reflexivity|].
    cbn [PyStr.rstrip_by]. now rewrite Hc.
  - change (PyStr.rstrip_by p (String c (String d t)))
      with (match PyStr.rstrip_by p (String d t) with
            | "" => if p c then "" else String c ""
            | u => String c u
            end).
    now rewrite IH.
Qed.

Lemma rstrip_by_lstrip_by (p : ascii -> bool) (t : string) :
  PyStr.rstrip_by p t = t ->
  PyStr.rstrip_by p (PyStr.lstrip_by p t) = PyStr.lstrip_by p t.
Proof.
  induction t as [|c t IH]; [reflexivity|].
  cbn [PyStr.lstrip_by]. destruct (p c) eqn:Hc; [|trivial].
  cbn [PyStr.rstrip_by].
  destruct (PyStr.rstrip_by p t) as [|d u] eqn:Ht;
    [rewrite Hc; discriminate|].
  intros [= <-]. now apply IH.
Qed.

Lemma lstrip_by_idempotent (p : ascii -> bool) (s : string) :
  PyStr.lstrip_by p (PyStr.lstrip_by p s) = PyStr.lstrip_by p s.
Proof.
  induction s as [|c s IH]; cbn [PyStr.lstrip_by]; [reflexivity|].
  destruct (p c) eqn:Hc; [assumption|].
  cbn [PyStr.lstrip_by]. now rewrite Hc.
Qed.

Lemma strip_idempotent (s : string) : PyStr.strip (PyStr.strip s) = PyStr.strip s.
Proof.
  unfold PyStr.strip, PyStr.rstrip.
  rewrite (rstrip_by_lstrip_by _ _ (rstrip_by_idempotent _ s)).
  apply lstrip_by_idempotent.
Qed.

(** X12.  What [clean_text] returns is in lower case, holds only word
    characters, blanks and letters of the ranges that the pattern keeps,
    and neither starts nor ends with a blank. *)
Theorem clean_text_is_clean (text cleaned : string) :
  clean_text text = Some cleaned ->
  PyStr.lower cleaned = cleaned
  /\ PyStr.forallb kept_by_clean_text cleaned = true
  /\ PyStr.strip cleaned = cleaned.
Proof.
  unfold clean_text. intros [= <-]. split; [|split].
  - apply lower_fixed, forallb_strip, forallb_filter_chars, forallb_sub_empty.
    apply forallb_lower. intros c. apply lower_char_idempotent.
  - apply forallb_strip, forallb_kept_filter.
  - apply strip_idempotent.
Qed.

Lemma strip_nil : forall s, PyStr.forallb PyStr.is_space s = true -> PyStr.strip s = "".
Proof.
  intros s Hs. pose proof (strip_empty_iff s) as H.
  unfold Spec.whitespace_only in H. rewrite Hs in H.
  now destruct (PyStr.strip s).
Qed.

Lemma dropped_or_blank_lower (c : ascii) :
  negb (kept_by_clean_text c) || PyStr.is_space c = true ->
  negb (kept_by_clean_text (PyStr.lower_char c))
  || PyStr.is_space (PyStr.lower_char c) = true.
Proof. destruct c as [[] [] [] [] [] [] [] []]; vm_compute; trivial. Qed.

Lemma forallb_lower_dropped (s : string) :
  PyStr.forallb (fun c => negb (kept_by_clean_text c) || PyStr.is_space c) s = true ->
  PyStr.forallb (fun c => negb (kept_by_clean_text c) || PyStr.is_space c)
                (PyStr.lower s) = true.
Proof.
  induction s as [|c s IH]; cbn [PyStr.lower PyStr.forallb]; [reflexivity|].
  intros [Hc Hs]%andb_true_iff. now rewrite dropped_or_blank_lower, IH.
Qed.

Lemma filter_chars_blank (s : string) :
  PyStr.forallb (fun c => negb (kept_by_clean_text c) || PyStr.is_space c) s = true ->
  PyStr.forallb PyStr.is_space (filter_chars kept_by_clean_text s) = true.
Proof.
  induction s as [|c s IH]; cbn [filter_chars PyStr.forallb]; [reflexivity|].
  intros [Hc Hs]%andb_true_iff.
  destruct (kept_by_clean_text c); [|now apply IH].
  cbn [negb orb] in Hc. cbn [PyStr.forallb]. now rewrite Hc, IH.
Qed.

End CleanTextFacts.

Section DetectFacts.

Import LanguageDetect.

Variable predict : string -> result (string * Q).

(** X11.  When [detect_language] answers with a language, the model was
    consulted, its confidence is at least 0.7, and the language is the
    model's label without its [__label__] prefix. *)
Theorem detect_language_confident (text lang : string) (confidence : Q) :
  detect_language predict text = (Some lang, confidence) ->
  (min_confidence <= confidence)%Q
  /\ exists input label,
       predict input = Returned (label, confidence)
       /\ lang = Re.sub_empty (Re.lit "__label__") 0 label.
Proof.
  unfold detect_language, detect_language_try.
  destruct (clean_text text) as [cleaned|]; [|discriminate].
  destruct (PyStr.is_empty cleaned); [discriminate|].
  set (input := if Nat.ltb (String.length cleaned) 20
                then PyStr.join_space [cleaned; cleaned; cleaned] else cleaned).
  destruct (predict input) as [[label c]|e] eqn:Hpredict;
    cbn [mbind result_bind]; [|discriminate].
  unfold Qlt_bool. destruct (Qle_bool min_confidence c) eqn:Hle; cbn [negb];
    [|discriminate].
  intros [= <- <-]. split; [now apply Qle_bool_iff|].
  now exists input, label.
Qed.

(** X13.  A text made only of blanks and of characters that [clean_text]
    drops, such as punctuation, is answered with no language and
    confidence 0, without the model being consulted. *)
Theorem detect_language_nothing_to_detect (text : string) :
  PyStr.forallb (fun c => negb (kept_by_clean_text c) || PyStr.is_space c) text
  = true ->
  detect_language predict text = (None, 0%Q).
Proof.
  intros Htext. unfold detect_language, detect_language_try, clean_text.
  rewrite strip_nil; [reflexivity|].
  apply filter_chars_blank, forallb_sub_empty, forallb_lower_dropped, Htext.
Qed.

End DetectFacts.

Lemma clean_text_is_clean_witness :
  PyStr.lower "visit  now" = "visit  now"
  /\ PyStr.forallb LanguageDetect.kept_by_clean_text "visit  now" = true
  /\ PyStr.strip "visit  now" = "visit  now".
Proof.
  apply (clean_text_is_clean "Visit http://t.co/x NOW!!  " "visit  now").
  vm_compute. reflexivity.
Defined.

Lemma detect_language_confident_witness :
  (LanguageDetect.min_confidence <= 98 # 100)%Q
  /\ exists input label,
       Sample.predict_english input = Returned (label, 98 # 100)
       /\ "en" = Re.sub_empty (Re.lit "__label__") 0 label.
Proof.
  apply (detect_language_confident Sample.predict_english "Market rose today").
  vm_compute. reflexivity.
Defined.

Lemma detect_language_nothing_to_detect_witness :
  LanguageDetect.detect_language Sample.predict_english "?!  ... --" = (None, 0%Q).
Proof.
  apply (detect_language_nothing_to_detect Sample.predict_english).
  vm_compute. reflexivity.
Defined.

(** ** More on the retry runner, and the loop of a worker *)

Section RetryMore.

Import Shutdown FetchArticles.

Variable signal_during : nat -> bool.
Variable cycle_raises : nat -> bool.

Local Abbreviation pass := (Shutdown.pass signal_during).
Local Abbreviation interruptible_sleep := (Shutdown.interruptible_sleep signal_during).
Local Abbreviation attempt_cycle :=
  (FetchArticles.attempt_cycle signal_during cycle_raises).
Local Abbreviation retry_loop := (FetchArticles.retry_loop signal_during cycle_raises).
Local Abbreviation run_with_retries :=
  (FetchArticles.run_with_retries signal_during cycle_raises).

Lemma sleep_set (w : world) :
  flag w = true -> interruptible_sleep w = (true, w, []).
Proof. unfold Shutdown.interruptible_sleep. now intros ->. Qed.

Lemma paced_weaken (evs : list event) :
  Worker.paced false evs = true -> forall b, Worker.paced b evs = true.
Proof.
  destruct evs as [|[| |k|] evs]; cbn [Worker.paced]; auto.
  cbn [andb]. discriminate.
Qed.

(** The runner waits before every attempt, and makes the attempts of
    its list in order, stopping at any point. *)
Lemma retry_loop_paced (attempts : list nat) : forall w,
  match retry_loop attempts w with
  | (_, _, evs) =>
      Worker.paced false evs = true
      /\ Spec.attempts_of evs `prefix_of` attempts
  end.
Proof.
  induction attempts as [|attempt rest IH]; intros w;
    cbn [FetchArticles.retry_loop].
  { split; [reflexivity|]. now exists []. }
  destruct (flag w) eqn:Hflag.
  { split; [reflexivity|]. apply prefix_nil. }
  pose proof (sleep_cases signal_during w Hflag) as Hsleep.
  destruct (interruptible_sleep w) as [[interrupted w1] evs1].
  destruct Hsleep as [(-> & Hw1 & ->)|(-> & Hw1 & ->)].
  2:{ split; [reflexivity|]. apply prefix_nil. }
  destruct (cycle_raises attempt) eqn:Hraises.
  2:{ pose proof (attempt_returned signal_during cycle_raises attempt w1
                    Hw1 Hraises) as Hattempt.
      destruct (attempt_cycle attempt w1) as [[raised w2] evs2].
      destruct Hattempt as (-> & Hevs2). cbn [negb].
      destruct Hevs2 as [[_ ->]|[_ [->| ->]]]; (split; [reflexivity|]);
        cbn [app Spec.attempts_of]; apply prefix_cons, prefix_nil. }
  pose proof (attempt_raised signal_during cycle_raises attempt w1
                Hw1 Hraises) as Hattempt.
  destruct (attempt_cycle attempt w1) as [[raised w2] evs2].
  destruct Hattempt as (-> & Hevs2). cbn [negb].
  assert (Hrest : forall w',
            match retry_loop rest w' with
            | (_, _, evs) =>
                forall b, Worker.paced b evs = true
            end).
  { intros w'. specialize (IH w'). destruct (retry_loop rest w') as [[? ?] evs].
    intros waited. now apply paced_weaken. }
  destruct (Nat.ltb attempt (MAX_RETRIES - 1)).
  - destruct Hevs2 as [[Hw2 ->]|[Hw2 ->]].
    + pose proof (sleep_cases signal_during w2 Hw2) as Hsleep.
      destruct (interruptible_sleep w2) as [[interrupted w3] evs3].
      destruct Hsleep as [(-> & Hw3 & ->)|(-> & Hw3 & ->)].
      * specialize (IH w3). specialize (Hrest w3).
        destruct (retry_loop rest w3) as [[r w4] evs4].
        cbn [app Worker.paced Spec.attempts_of andb].
        split; [apply Hrest|]. now apply prefix_cons.
      * cbn [app Worker.paced Spec.attempts_of andb].
        split; [reflexivity|]. apply prefix_cons, prefix_nil.
    + rewrite (sleep_set w2 Hw2). cbn [app Worker.paced Spec.attempts_of andb].
      split; [reflexivity|]. apply prefix_cons, prefix_nil.
  - specialize (IH w2). specialize (Hrest w2).
    destruct (retry_loop rest w2) as [[r w4] evs4].
    destruct Hevs2 as [[_ ->]|[_ ->]];
      cbn [app Worker.paced Spec.attempts_of andb];
      (split; [apply Hrest|]); now apply prefix_cons.
Qed.

(** X15.  Whatever the signals and the outcomes of the cycles, a run of
    the retry runner starts a cycle only directly after a wait, and the
    attempts it makes are the first ones of 0, 1, 2, in this order: there
    are never more than [MAX_RETRIES]. *)
Theorem run_with_retries_paced (w : world) :
  let evs := snd (run_with_retries w) in
  Worker.paced false evs = true
  /\ Spec.attempts_of evs `prefix_of` [0; 1; 2]%nat
  /\ (List.length (Spec.attempts_of evs) <= MAX_RETRIES)%nat.
Proof.
  unfold FetchArticles.run_with_retries.
  pose proof (retry_loop_paced (seq 0 MAX_RETRIES) w) as H.
  destruct (retry_loop (seq 0 MAX_RETRIES) w) as [[r w'] evs]. cbn [snd].
  destruct H as [Hpaced Hprefix]. split; [assumption|]. split; [assumption|].
  apply prefix_length in Hprefix. exact Hprefix.
Qed.

Hypothesis quiet : forall t, signal_during t = false.

Lemma sleep_quiet (w : world) :
  flag w = false ->
  interruptible_sleep w
  = (false, {| flag := false; clock := S (clock w) |}, [WaitStarted]).
Proof.
  intros Hflag. unfold Shutdown.interruptible_sleep, Shutdown.pass.
  now rewrite Hflag, quiet.
Qed.

Lemma attempt_quiet (attempt : nat) (w : world) :
  flag w = false ->
  attempt_cycle attempt w
  = if cycle_raises attempt
    then (true, {| flag := false; clock := S (clock w) |},
          [AttemptStarted attempt])
    else (false, {| flag := false; clock := S (S (clock w)) |},
          [AttemptStarted attempt; ClosingWaitStarted]).
Proof.
  intros Hflag.
  unfold FetchArticles.attempt_cycle, closing_sleep,
    Shutdown.interruptible_sleep, Shutdown.pass.
  cbn [flag clock]. rewrite Hflag, !quiet.
  now destruct (cycle_raises attempt).
Qed.

(** Without a signal the flag stays clear. *)
Lemma retry_loop_quiet (attempts : list nat) : forall w,
  flag w = false -> flag (snd (fst (retry_loop attempts w))) = false.
Proof.
  induction attempts as [|attempt rest IH]; intros w Hflag;
    cbn [FetchArticles.retry_loop]; [assumption|].
  rewrite Hflag, (sleep_quiet w Hflag), attempt_quiet by reflexivity.
  destruct (cycle_raises attempt); cbn [negb]; [|reflexivity].
  destruct (Nat.ltb attempt (MAX_RETRIES - 1)).
  - rewrite sleep_quiet by reflexivity.
    specialize (IH {| flag := false; clock := S (S (S (clock w))) |} eq_refl).
    now destruct (retry_loop rest _) as [[? ?] ?].
  - specialize (IH {| flag := false; clock := S (S (clock w)) |} eq_refl).
    now destruct (retry_loop rest _) as [[? ?] ?].
Qed.

(** Without a signal the first attempt of the list is made. *)
Lemma retry_loop_quiet_first (attempt : nat) (rest : list nat) (w : world) :
  flag w = false ->
  exists rest',
    Spec.attempts_of (snd (retry_loop (attempt :: rest) w)) = attempt :: rest'.
Proof.
  intros Hflag. cbn [FetchArticles.retry_loop].
  rewrite Hflag, (sleep_quiet w Hflag), attempt_quiet by reflexivity.
  destruct (cycle_raises attempt); cbn [negb snd app Spec.attempts_of]; [|eauto].
  destruct (Nat.ltb attempt (MAX_RETRIES - 1)).
  - rewrite sleep_quiet by reflexivity.
    destruct (retry_loop rest _) as [[? ?] ?].
    cbn [snd app Spec.attempts_of]. eauto.
  - destruct (retry_loop rest _) as [[? ?] ?].
    cbn [snd app Spec.attempts_of]. eauto.
Qed.

(** The runner stops at the first cycle that does not raise. *)
Lemma retry_loop_first_success (failed : list nat) : forall attempt rest w,
  flag w = false ->
  Forall (fun k => cycle_raises k = true) failed ->
  cycle_raises attempt = false ->
  match retry_loop (failed ++ attempt :: rest) w with
  | (success, w', evs) =>
      success = true /\ flag w' = false
      /\ Spec.attempts_of evs = (failed ++ [attempt])%list
  end.
Proof.
  induction failed as [|k failed IH]; intros attempt rest w Hflag Hfailed Hok;
    cbn [app FetchArticles.retry_loop];
    rewrite Hflag, (sleep_quiet w Hflag), attempt_quiet by reflexivity.
  - rewrite Hok. cbn [negb app Spec.attempts_of]. auto.
  - inversion Hfailed as [|? ? Hk Hfailed']; subst. rewrite Hk. cbn [negb].
    destruct (Nat.ltb k (MAX_RETRIES - 1)).
    + rewrite sleep_quiet by reflexivity.
      specialize (IH attempt rest
                     {| flag := false; clock := S (S (S (clock w))) |}
                     eq_refl Hfailed' Hok).
      destruct (retry_loop (failed ++ attempt :: rest) _) as [[r w4] evs4].
      destruct IH as (-> & Hw4 & Hevs). cbn [app Spec.attempts_of].
      now rewrite Hevs.
    + specialize (IH attempt rest
                     {| flag := false; clock := S (S (clock w)) |}
                     eq_refl Hfailed' Hok).
      destruct (retry_loop (failed ++ attempt :: rest) _) as [[r w4] evs4].
      destruct IH as (-> & Hw4 & Hevs). cbn [app Spec.attempts_of].
      now rewrite Hevs.
Qed.

(** X14.  With no signal, the retry runner stops at the first cycle
    that does not raise: when the attempts before the [k]-th raise and
    the [k]-th does not, it returns true after exactly [k + 1] attempts. *)
Theorem run_with_retries_first_success (w : world) (k : nat) :
  flag w = false ->
  (k < MAX_RETRIES)%nat ->
  (forall j, (j < k)%nat -> cycle_raises j = true) ->
  cycle_raises k = false ->
  match run_with_retries w with
  | (success, w', evs) =>
      success = true /\ flag w' = false /\ Spec.attempts_of evs = seq 0 (S k)
  end.
Proof.
  intros Hflag Hk Hfailed Hok. unfold FetchArticles.run_with_retries.
  assert (Hsplit : seq 0 MAX_RETRIES
                   = (seq 0 k ++ k :: seq (S k) (MAX_RETRIES - S k))%list).
  { unfold MAX_RETRIES in *.
    destruct k as [|[|[|k]]]; [reflexivity..|lia]. }
  rewrite Hsplit.
  pose proof (retry_loop_first_success (seq 0 k) k
                (seq (S k) (MAX_RETRIES - S k)) w Hflag) as H.
  destruct (retry_loop _ w) as [[success w'] evs].
  destruct H as (-> & Hw' & Hevs); [|assumption|].
  - apply List.Forall_forall. intros j Hj%in_seq. apply Hfailed. lia.
  - repeat split; [assumption|]. rewrite Hevs.
    now rewrite seq_S.
Qed.

End RetryMore.

Lemma run_with_retries_first_success_witness :
  match FetchArticles.run_with_retries Sample.never Fixture.raises_once Sample.idle with
  | (success, w', evs) =>
      success = true /\ Shutdown.flag w' = false
      /\ Spec.attempts_of evs = seq 0 2
  end.
Proof.
  apply (run_with_retries_first_success
           Sample.never Fixture.raises_once (fun _ => eq_refl) Sample.idle 1).
  - reflexivity.
  - unfold FetchArticles.MAX_RETRIES. lia.
  - intros [|j] Hj; [reflexivity|lia].
  - reflexivity.
Defined.

Section WorkerFacts.

Import Shutdown FetchArticles.

Variable signal_during : nat -> bool.
Variable cycle_raises : nat -> nat -> bool.

Local Abbreviation pass := (Shutdown.pass signal_during).
Local Abbreviation interruptible_sleep := (Shutdown.interruptible_sleep signal_during).
Local Abbreviation loop_body := (Worker.loop_body signal_during cycle_raises).
Local Abbreviation fetch_loop := (Worker.fetch_loop signal_during cycle_raises).

Lemma ats_app (evs1 evs2 : list event) (b : bool) :
  Spec.attempts_then_stop evs1 false ->
  Spec.attempts_then_stop evs2 b ->
  Spec.attempts_then_stop (evs1 ++ evs2) b.
Proof.
  intros H1. remember false as b1 eqn:Hb1. revert Hb1.
  induction H1 as [| |evs b' H IH|k evs b' H IH|evs b' H IH]; intros Hb1 H2;
    cbn [app]; try discriminate; try assumption;
    constructor; now apply IH.
Qed.

Lemma ats_last (evs : list event) :
  Spec.attempts_then_stop evs true -> exists pre, evs = (pre ++ [ShutdownSet])%list.
Proof.
  remember true as b eqn:Hb. intros H. revert Hb.
  induction H as [| |evs b' H IH|k evs b' H IH|evs b' H IH]; intros Hb;
    try discriminate.
  - now exists [].
  - destruct (IH Hb) as [pre ->]. now exists (WaitStarted :: pre).
  - destruct (IH Hb) as [pre ->]. now exists (AttemptStarted k :: pre).
  - destruct (IH Hb) as [pre ->]. now exists (ClosingWaitStarted :: pre).
Qed.

Lemma sleep_clock (w : world) :
  match interruptible_sleep w with
  | (_, w', _) =>
      (clock w <= clock w')%nat /\ (flag w = false -> clock w' = S (clock w))
  end.
Proof.
  unfold Shutdown.interruptible_sleep, Shutdown.pass.
  destruct (flag w); cbn [clock]; split; auto; discriminate.
Qed.

(** The wait that ends a cycle leaves the world that the same wait of
    the runner would leave. *)
Lemma closing_sleep_world (w : world) :
  fst (closing_sleep signal_during w) = snd (fst (interruptible_sleep w)).
Proof.
  unfold closing_sleep. now destruct (interruptible_sleep w) as [[? ?] ?].
Qed.

Lemma attempt_clock (oracle : nat -> bool) (attempt : nat) (w : world) :
  match attempt_cycle signal_during oracle attempt w with
  | (_, w', _) => (clock w < clock w')%nat
  end.
Proof.
  unfold attempt_cycle.
  assert (Hclock1 : clock (fst (pass w)) = S (clock w)) by reflexivity.
  destruct (pass w) as [w1 evs1]. cbn [fst] in Hclock1.
  destruct (oracle attempt); [lia|].
  pose proof (closing_sleep_world w1) as Hworld.
  pose proof (sleep_clock w1) as Hsleep.
  destruct (closing_sleep signal_during w1) as [w2 evs2].
  destruct (interruptible_sleep w1) as [[interrupted w2'] evs2'].
  cbn [fst snd] in Hworld. subst w2'. lia.
Qed.

Lemma retry_loop_clock (oracle : nat -> bool) (attempts : list nat) : forall w,
  match retry_loop signal_during oracle attempts w with
  | (_, w', _) =>
      (clock w <= clock w')%nat
      /\ (flag w = false -> attempts <> [] -> (clock w < clock w')%nat)
  end.
Proof.
  induction attempts as [|attempt rest IH]; intros w;
    cbn [FetchArticles.retry_loop].
  { split; [lia|]. now intros _ []. }
  destruct (flag w) eqn:Hflag.
  { split; [lia|discriminate]. }
  pose proof (sleep_clock w) as Hsleep.
  destruct (interruptible_sleep w) as [[interrupted w1] evs1].
  destruct Hsleep as (_ & Hclock1). specialize (Hclock1 Hflag).
  destruct interrupted.
  { split; intros; lia. }
  pose proof (attempt_clock oracle attempt w1) as Hclock2.
  destruct (attempt_cycle signal_during oracle attempt w1) as [[raised w2] evs2].
  destruct raised; cbn [negb].
  2:{ split; intros; lia. }
  destruct (Nat.ltb attempt (MAX_RETRIES - 1)).
  - pose proof (sleep_clock w2) as Hsleep.
    destruct (interruptible_sleep w2) as [[interrupted w3] evs3].
    destruct Hsleep as (Hclock3 & _).
    destruct interrupted.
    { split; intros; lia. }
    specialize (IH w3).
    destruct (retry_loop signal_during oracle rest w3) as [[r w4] evs4].
    destruct IH as (Hclock4 & _). split; intros; lia.
  - specialize (IH w2).
    destruct (retry_loop signal_during oracle rest w2) as [[r w4] evs4].
    destruct IH as (Hclock4 & _). split; intros; lia.
Qed.

Section Signal.

Variable t : nat.
Hypothesis signal_at : signal_during t = true.

Lemma pass_armed (w : world) :
  Worker.armed_at t w -> Worker.armed_at t (fst (pass w)) /\ clock (fst (pass w)) = S (clock w).
Proof.
  unfold Worker.armed_at, Shutdown.pass. cbn [fst flag clock].
  intros [Hflag|Hclock]; split; try reflexivity.
  - left. now rewrite Hflag.
  - destruct (Nat.eq_dec (clock w) t) as [->|Hne].
    + left. rewrite signal_at. apply orb_true_r.
    + right. lia.
Qed.

Lemma sleep_armed (w : world) :
  Worker.armed_at t w ->
  match interruptible_sleep w with
  | (_, w', _) =>
      Worker.armed_at t w' /\ (clock w <= clock w')%nat
      /\ (flag w = false -> clock w' = S (clock w))
  end.
Proof.
  intros Harmed. unfold Shutdown.interruptible_sleep.
  destruct (flag w) eqn:Hflag.
  - split; [assumption|]. split; [lia|discriminate].
  - pose proof (pass_armed w Harmed) as [H1 H2].
    destruct (pass w) as [w' evs]. cbn [fst] in *.
    split; [assumption|]. split; [lia|auto].
Qed.

Lemma attempt_armed (oracle : nat -> bool) (attempt : nat) (w : world) :
  Worker.armed_at t w ->
  match attempt_cycle signal_during oracle attempt w with
  | (_, w', _) => Worker.armed_at t w' /\ (clock w < clock w')%nat
  end.
Proof.
  intros Harmed.
  pose proof (attempt_clock oracle attempt w) as Hclock.
  unfold attempt_cycle in *.
  pose proof (pass_armed w Harmed) as [H1 H2].
  destruct (pass w) as [w1 evs1]. cbn [fst] in *.
  destruct (oracle attempt); [auto|].
  pose proof (closing_sleep_world w1) as Hworld.
  pose proof (sleep_armed w1 H1) as Hsleep.
  destruct (closing_sleep signal_during w1) as [w2 evs2].
  destruct (interruptible_sleep w1) as [[interrupted w2'] evs2'].
  cbn [fst snd] in Hworld. subst w2'. tauto.
Qed.

Lemma retry_loop_armed (oracle : nat -> bool) (attempts : list nat) : forall w,
  Worker.armed_at t w ->
  match retry_loop signal_during oracle attempts w with
  | (_, w', _) =>
      Worker.armed_at t w' /\ (clock w <= clock w')%nat
      /\ (flag w = false -> attempts <> [] -> (clock w < clock w')%nat)
  end.
Proof.
  induction attempts as [|attempt rest IH]; intros w Harmed;
    cbn [FetchArticles.retry_loop].
  { split; [assumption|]. split; [lia|]. now intros _ []. }
  destruct (flag w) eqn:Hflag.
  { split; [assumption|]. split; [lia|discriminate]. }
  pose proof (sleep_armed w Harmed) as Hsleep.
  destruct (interruptible_sleep w) as [[interrupted w1] evs1].
  destruct Hsleep as (Harmed1 & _ & Hclock1). specialize (Hclock1 Hflag).
  destruct interrupted.
  { split; [assumption|]. split; intros; lia. }
  pose proof (attempt_armed oracle attempt w1 Harmed1) as Hattempt.
  destruct (attempt_cycle signal_during oracle attempt w1) as [[raised w2] evs2].
  destruct Hattempt as (Harmed2 & Hclock2).
  destruct raised; cbn [negb].
  2:{ split; [assumption|]. split; intros; lia. }
  destruct (Nat.ltb attempt (MAX_RETRIES - 1)).
  - pose proof (sleep_armed w2 Harmed2) as Hsleep.
    destruct (interruptible_sleep w2) as [[interrupted w3] evs3].
    destruct Hsleep as (Harmed3 & Hclock3 & _).
    destruct interrupted.
    { split; [assumption|]. split; intros; lia. }
    specialize (IH w3 Harmed3).
    destruct (retry_loop signal_during oracle rest w3) as [[r w4] evs4].
    destruct IH as (Harmed4 & Hclock4 & _).
    split; [assumption|]. split; intros; lia.
  - specialize (IH w2 Harmed2).
    destruct (retry_loop signal_during oracle rest w2) as [[r w4] evs4].
    destruct IH as (Harmed4 & Hclock4 & _).
    split; [assumption|]. split; intros; lia.
Qed.

End Signal.

(** One turn of the loop: what it records ends with the setting of the
    flag if the flag is set, the loop goes on exactly when it is not,
    and time has gone by. *)
Lemma loop_body_turn (turn : nat) (w : world) :
  flag w = false ->
  match loop_body turn w with
  | (goes_on, w', evs) =>
      Spec.attempts_then_stop evs (flag w')
      /\ goes_on = negb (flag w')
      /\ (clock w < clock w')%nat
      /\ forall t, signal_during t = true -> Worker.armed_at t w -> Worker.armed_at t w'
  end.
Proof.
  intros Hflag. unfold Worker.loop_body, run_with_retries.
  pose proof (retry_loop_shape signal_during (cycle_raises turn)
                (seq 0 MAX_RETRIES) w Hflag) as Hshape.
  assert (Hprogress : forall t, signal_during t = true -> Worker.armed_at t w ->
            match retry_loop signal_during (cycle_raises turn)
                             (seq 0 MAX_RETRIES) w with
            | (_, w', _) => Worker.armed_at t w'
            end).
  { intros t Ht Harmed.
    pose proof (retry_loop_armed t Ht (cycle_raises turn)
                  (seq 0 MAX_RETRIES) w Harmed) as H.
    destruct (retry_loop _ _ _ w) as [[? ?] ?]. tauto. }
  assert (Hclock : match retry_loop signal_during (cycle_raises turn)
                                    (seq 0 MAX_RETRIES) w with
                   | (_, w', _) => (clock w < clock w')%nat
                   end).
  { pose proof (retry_loop_clock (cycle_raises turn) (seq 0 MAX_RETRIES) w) as H.
    destruct (retry_loop _ _ _ w) as [[? ?] ?].
    apply H; [assumption|discriminate]. }
  destruct (retry_loop signal_during (cycle_raises turn) (seq 0 MAX_RETRIES) w)
    as [[success w1] evs1].
  destruct (flag w1) eqn:Hflag1.
  - rewrite andb_false_r, (sleep_set signal_during w1 Hflag1).
    cbn [negb]. rewrite !app_nil_r, Hflag1. auto.
  - assert (Hwait : forall w0, flag w0 = false -> (clock w < clock w0)%nat ->
              (forall t, signal_during t = true -> Worker.armed_at t w -> Worker.armed_at t w0) ->
              forall evs0, Spec.attempts_then_stop evs0 false ->
              match interruptible_sleep w0 with
              | (interrupted, w3, evs3) =>
                  Spec.attempts_then_stop (evs0 ++ evs3) (flag w3)
                  /\ negb interrupted = negb (flag w3)
                  /\ (clock w < clock w3)%nat
                  /\ (forall t, signal_during t = true ->
                                Worker.armed_at t w -> Worker.armed_at t w3)
              end).
    { intros w0 Hflag0 Hclock0 Harmed0 evs0 Hevs0.
      pose proof (sleep_cases signal_during w0 Hflag0) as Hsleep.
      assert (Hstep : forall t, signal_during t = true -> Worker.armed_at t w ->
                match interruptible_sleep w0 with
                | (_, w3, _) => Worker.armed_at t w3 /\ (clock w0 <= clock w3)%nat
                end).
      { intros t Ht Harmed.
        pose proof (sleep_armed t Ht w0 (Harmed0 t Ht Harmed)) as H.
        destruct (interruptible_sleep w0) as [[? ?] ?]. tauto. }
      assert (Hmono : match interruptible_sleep w0 with
                      | (_, w3, _) => (clock w0 <= clock w3)%nat
                      end).
      { unfold Shutdown.interruptible_sleep, Shutdown.pass.
        rewrite Hflag0. cbn. lia. }
      destruct (interruptible_sleep w0) as [[interrupted w3] evs3].
      destruct Hsleep as [(-> & Hw3 & ->)|(-> & Hw3 & ->)]; rewrite Hw3;
        (split; [apply ats_app; [assumption|repeat constructor]|]);
        (split; [reflexivity|]); (split; [lia|]);
        intros t Ht Harmed; now apply (Hstep t Ht Harmed). }
    destruct success; cbn [negb andb].
    + pose proof (Hwait w1 Hflag1 Hclock Hprogress evs1 Hshape) as Hinterval.
      destruct (interruptible_sleep w1) as [[interrupted w3] evs3].
      exact Hinterval.
    + pose proof (Hwait w1 Hflag1 Hclock Hprogress evs1 Hshape) as Hrestart.
      destruct (interruptible_sleep w1) as [[stopped w2] evs2].
      destruct Hrestart as (Hshape2 & Hstopped & Hclock2 & Harmed2).
      destruct stopped.
      * cbn [negb] in Hstopped.
        destruct (flag w2); [|discriminate]. auto.
      * cbn [negb] in Hstopped. destruct (flag w2) eqn:Hflag2; [discriminate|].
        pose proof (Hwait w2 Hflag2 Hclock2 Harmed2 (evs1 ++ evs2)%list Hshape2)
          as Hinterval.
        destruct (interruptible_sleep w2) as [[interrupted w3] evs3].
        now rewrite app_assoc.
Qed.

Lemma fetch_loop_quiet (fuel turn : nat) (w : world) :
  (forall t, signal_during t = false) ->
  flag w = false ->
  fetch_loop fuel turn w = None.
Proof.
  intros Hquiet. revert turn w.
  induction fuel as [|fuel IH]; intros turn w Hflag; [reflexivity|].
  cbn [Worker.fetch_loop]. rewrite Hflag.
  pose proof (loop_body_turn turn w Hflag) as Hturn.
  assert (Hclear : flag (snd (fst (loop_body turn w))) = false).
  { unfold Worker.loop_body, run_with_retries.
    pose proof (retry_loop_quiet signal_during (cycle_raises turn) Hquiet
                  (seq 0 MAX_RETRIES) w Hflag) as H1.
    destruct (retry_loop _ _ _ w) as [[success w1] evs1]. cbn [fst snd] in H1.
    rewrite H1, andb_true_r.
    destruct success; cbn [negb].
    - now rewrite (sleep_quiet signal_during Hquiet w1 H1).
    - rewrite (sleep_quiet signal_during Hquiet w1 H1). cbv beta iota zeta.
      now rewrite (sleep_quiet signal_during Hquiet) by reflexivity. }
  destruct (loop_body turn w) as [[goes_on w'] evs]. cbn [fst snd] in Hclear.
  destruct Hturn as (_ & -> & _). rewrite Hclear. cbn [negb].
  now rewrite IH.
Qed.

Lemma fetch_loop_signalled (t fuel turn : nat) (w : world) :
  signal_during t = true ->
  flag w = false ->
  (clock w <= t)%nat ->
  (t < clock w + fuel)%nat ->
  exists w' evs,
    fetch_loop fuel turn w = Some (w', evs)
    /\ flag w' = true
    /\ Spec.shutdown_is_final evs
    /\ exists pre, evs = (pre ++ [ShutdownSet])%list.
Proof.
  intros Ht. revert turn w.
  assert (Hmain : forall fuel turn w,
            flag w = false -> (clock w <= t)%nat -> (t < clock w + fuel)%nat ->
            exists w' evs,
              fetch_loop fuel turn w = Some (w', evs)
              /\ flag w' = true /\ Spec.attempts_then_stop evs true).
  { clear fuel. induction fuel as [|fuel IH]; intros turn w Hflag Hclock Hfuel;
      [lia|].
    cbn [Worker.fetch_loop]. rewrite Hflag.
    pose proof (loop_body_turn turn w Hflag) as Hturn.
    destruct (loop_body turn w) as [[goes_on w1] evs1].
    destruct Hturn as (Hshape & -> & Hclock1 & Harmed).
    specialize (Harmed t Ht (or_intror Hclock)).
    destruct (flag w1) eqn:Hflag1; cbn [negb].
    - exists w1, evs1. auto.
    - destruct Harmed as [Hset|Hclock1']; [congruence|].
      destruct (IH (S turn) w1 Hflag1 Hclock1' ltac:(lia))
        as (w' & evs & -> & Hflag' & Hshape').
      exists w', (evs1 ++ evs)%list. split; [reflexivity|].
      split; [assumption|]. now apply ats_app. }
  intros turn w Hflag Hclock Hfuel.
  destruct (Hmain fuel turn w Hflag Hclock Hfuel) as (w' & evs & Hrun & Hflag' & Hshape).
  exists w', evs. split; [assumption|]. split; [assumption|].
  split; [now apply (attempts_then_stop_final evs true)|now apply ats_last].
Qed.

(** X16.  Without a termination signal the loop of a category worker
    never ends, whether its cycles succeed or fail: after any number of
    turns it is still running.  With [--once] the worker ends after one
    run of the retry runner, of at most [MAX_RETRIES] attempts. *)
Theorem category_worker_runs_until_signalled (fuel : nat) (w : world) :
  (forall t, signal_during t = false) ->
  flag w = false ->
  Worker.run_category_fetch signal_during cycle_raises false fuel w = None
  /\ exists w' evs,
       Worker.run_category_fetch signal_during cycle_raises true fuel w
       = Some (w', evs)
       /\ flag w' = false
       /\ (1 <= List.length (Spec.attempts_of evs) <= MAX_RETRIES)%nat.
Proof.
  intros Hquiet Hflag. unfold Worker.run_category_fetch.
  split; [now apply fetch_loop_quiet|].
  unfold run_with_retries.
  pose proof (retry_loop_paced signal_during (cycle_raises 0)
                (seq 0 MAX_RETRIES) w) as Hpaced.
  pose proof (retry_loop_quiet signal_during (cycle_raises 0) Hquiet
                (seq 0 MAX_RETRIES) w Hflag) as Hclear.
  pose proof (retry_loop_quiet_first signal_during (cycle_raises 0) Hquiet
                0 (seq 1 2) w Hflag) as Hfirst.
  change (0%nat :: seq 1 2) with (seq 0 MAX_RETRIES) in Hfirst.
  destruct (retry_loop signal_during (cycle_raises 0) (seq 0 MAX_RETRIES) w)
    as [[success w'] evs].
  cbn [fst snd] in *. destruct Hpaced as [_ Hprefix], Hfirst as [rest Hrest].
  exists w', evs. split; [reflexivity|]. split; [assumption|].
  apply prefix_length in Hprefix. rewrite Hrest in *.
  cbn [List.length] in *. unfold MAX_RETRIES in *. cbn [seq List.length] in *. lia.
Qed.

(** X17.  Once a termination signal is delivered, the loop of a category
    worker ends: it returns with the flag set, and what it records ends
    with the setting of the flag, so that no wait and no fetch cycle is
    started afterwards. *)
Theorem category_worker_stops_on_signal (t fuel : nat) (w : world) :
  signal_during t = true ->
  flag w = false ->
  (clock w <= t)%nat ->
  (t < clock w + fuel)%nat ->
  exists w' evs,
    Worker.run_category_fetch signal_during cycle_raises false fuel w
    = Some (w', evs)
    /\ flag w' = true
    /\ Spec.shutdown_is_final evs
    /\ exists pre, evs = (pre ++ [ShutdownSet])%list.
Proof. unfold Worker.run_category_fetch. apply fetch_loop_signalled. Qed.

End WorkerFacts.

Lemma category_worker_runs_until_signalled_witness :
  Worker.run_category_fetch Sample.never (fun _ => Fixture.raises_once)
                            false 6 Sample.idle
  = None
  /\ exists w' evs,
       Worker.run_category_fetch Sample.never (fun _ => Fixture.raises_once)
                                 true 6 Sample.idle
       = Some (w', evs)
       /\ Shutdown.flag w' = false
       /\ (1 <= List.length (Spec.attempts_of evs) <= FetchArticles.MAX_RETRIES)%nat.
Proof.
  apply (category_worker_runs_until_signalled
           Sample.never (fun _ => Fixture.raises_once) 6 Sample.idle);
    reflexivity.
Defined.

Lemma category_worker_stops_on_signal_witness :
  exists w' evs,
    Worker.run_category_fetch (Nat.eqb 12) (fun _ => Sample.always)
                              false 13 Sample.idle
    = Some (w', evs)
    /\ Shutdown.flag w' = true
    /\ Spec.shutdown_is_final evs
    /\ exists pre, evs = (pre ++ [Shutdown.ShutdownSet])%list.
Proof.
  apply (category_worker_stops_on_signal
           (Nat.eqb 12) (fun _ => Sample.always) 12 13);
    [reflexivity|reflexivity|cbn; lia|cbn; lia].
Defined.

(** ** More on the fetch cycle of the sources *)

Section SourceFacts.

Import FetchSources.

Lemma get_Some (table : list Source) (n : string) (obj : Source) :
  get table n = Some obj -> name obj = n /\ In obj table.
Proof.
  unfold get. intros [Hin Hname]%find_some.
  apply String.eqb_eq in Hname. auto.
Qed.

Lemma name_stored_In (table : list Source) (n : string) :
  name_stored table n = true <-> In n (map name table).
Proof.
  unfold name_stored. rewrite existsb_exists, in_map_iff.
  split; intros (row & H1 & H2).
  - apply String.eqb_eq in H2. eauto.
  - exists row. split; [assumption|]. now apply String.eqb_eq.
Qed.

Lemma get_stored (table : list Source) (n : string) :
  get table n = None <-> name_stored table n = false.
Proof.
  unfold get, name_stored. induction table as [|row table IH]; cbn [find existsb];
    [tauto|].
  destruct (String.eqb (name row) n); cbn [orb]; [split; discriminate|assumption].
Qed.

Lemma get_source_app (table rows : list Source) (n : string) :
  get (table ++ rows) n =
    match get table n with Some row => Some row | None => get rows n end.
Proof.
  unfold get. induction table as [|row table IH]; cbn [app find]; [reflexivity|].
  now destruct (String.eqb (name row) n).
Qed.

Lemma names_save (table : list Source) (obj : Source) :
  map name (save table obj) = map name table.
Proof.
  unfold save. rewrite map_map. apply map_ext_in. intros row _.
  destruct (String.eqb (name row) (name obj)) eqn:H; [|reflexivity].
  now apply String.eqb_eq in H.
Qed.

Lemma get_save (table : list Source) (obj : Source) (n : string) :
  get (save table obj) n =
    if String.eqb (name obj) n
    then (if name_stored table n then Some obj else None)
    else get table n.
Proof.
  unfold get, save, name_stored.
  induction table as [|row table IH]; cbn [map find existsb].
  - now destruct (String.eqb (name obj) n).
  - destruct (String.eqb (name row) (name obj)) eqn:Hrow.
    + apply String.eqb_eq in Hrow. rewrite Hrow.
      destruct (String.eqb (name obj) n); [reflexivity|]. exact IH.
    + destruct (String.eqb (name row) n) eqn:Hn.
      * apply String.eqb_eq in Hn. subst n.
        rewrite String.eqb_sym, Hrow. reflexivity.
      * rewrite IH. cbn [orb]. reflexivity.
Qed.

Lemma assign_same_name (obj p : Source) : name obj = name p -> assign obj p = p.
Proof. unfold assign. intros ->. now destruct p. Qed.

Lemma unchanged_same (obj p : Source) :
  name obj = name p -> changed obj p = false -> obj = p.
Proof.
  unfold changed. destruct obj, p. cbn.
  intros -> H.
  repeat (apply orb_false_iff in H as [H ?]).
  repeat match goal with
         | H : negb (String.eqb _ _) = false |- _ =>
             apply negb_false_iff, String.eqb_eq in H
         end.
  congruence.
Qed.

Lemma changed_self (p : Source) : changed p p = false.
Proof. unfold changed. now rewrite !String.eqb_refl. Qed.

Lemma names_insert (objs : list Source) : forall table,
  map name table `prefix_of` map name (fold_left insert_ignoring_conflict objs table)
  /\ (NoDup (map name table) ->
      NoDup (map name (fold_left insert_ignoring_conflict objs table))).
Proof.
  induction objs as [|obj objs IH]; intros table; cbn [fold_left].
  { split; [reflexivity|trivial]. }
  destruct (IH (insert_ignoring_conflict table obj)) as [Hprefix Hunique].
  unfold insert_ignoring_conflict in *.
  destruct (name_stored table (name obj)) eqn:Hstored; [auto|].
  split.
  - etransitivity; [|exact Hprefix]. rewrite map_app. now apply prefix_app_r.
  - intros Hnodup. apply Hunique. rewrite map_app. cbn [map].
    apply NoDup_app. split; [assumption|]. split; [|apply NoDup_singleton].
    intros n Hn ->%list_elem_of_singleton.
    apply list_elem_of_In, name_stored_In in Hn. congruence.
Qed.

Section Oracles.

Variable bulk_create_raises : list Source -> list Source -> bool.
Variable save_raises : list Source -> Source -> bool.

Local Abbreviation update_existing := (FetchSources.update_existing save_raises).
Local Abbreviation persist := (FetchSources.persist bulk_create_raises save_raises).
Local Abbreviation persist_each :=
  (FetchSources.persist_each bulk_create_raises save_raises).
Local Abbreviation process_fetch_cycle :=
  (FetchSources.process_fetch_cycle bulk_create_raises save_raises).

(** The update loop never touches the names of the rows. *)
Lemma names_update_existing (existing_names : gset string) (prepared : list Source) :
  forall table updated table',
    fst (update_existing existing_names prepared table updated) = Returned table' ->
    map name table' = map name table.
Proof.
  induction prepared as [|p prepared IH]; intros table updated table';
    cbn [FetchSources.update_existing fst].
  { now intros [= <-]. }
  destruct (bool_decide (name p ∈ existing_names)); [|apply IH].
  destruct (get table (name p)) as [obj|]; [|apply IH].
  destruct (changed obj p); [|apply IH].
  destruct (save_raises table (assign obj p)); [discriminate|].
  intros H%IH. now rewrite H, names_save.
Qed.

Lemma names_persist (table prepared : list Source) :
  map name table `prefix_of` map name (fst (persist table prepared))
  /\ (NoDup (map name table) -> NoDup (map name (fst (persist table prepared)))).
Proof.
  unfold FetchSources.persist.
  set (existing_names := list_to_set _ : gset string).
  set (new_items := List.filter _ prepared).
  assert (Hcreate : forall table1,
            (if negb (is_nil new_items)
             then FetchSources.bulk_create bulk_create_raises table new_items
             else Returned table) = Returned table1 ->
            map name table `prefix_of` map name table1
            /\ (NoDup (map name table) -> NoDup (map name table1))).
  { intros table1. destruct (negb (is_nil new_items)).
    - unfold FetchSources.bulk_create.
      destruct (bulk_create_raises table new_items); [discriminate|].
      intros [= <-]. apply names_insert.
    - intros [= <-]. split; [reflexivity|trivial]. }
  destruct (if negb (is_nil new_items) then _ else _) as [table1|e].
  2:{ cbn [fst]. split; [reflexivity|trivial]. }
  specialize (Hcreate table1 eq_refl).
  pose proof (names_update_existing existing_names prepared table1 0%nat) as Hupdate.
  destruct (update_existing existing_names prepared table1 0) as [[table2|e] updated];
    cbn [fst] in *.
  - now rewrite (Hupdate table2 eq_refl).
  - split; [reflexivity|trivial].
Qed.

Lemma names_persist_each (sources : list Source) : forall prepared table summaries,
  map name table
    `prefix_of` map name (fst (persist_each sources prepared table summaries))
  /\ (NoDup (map name table) ->
      NoDup (map name (fst (persist_each sources prepared table summaries)))).
Proof.
  induction sources as [|s sources IH]; intros prepared table summaries;
    cbn [FetchSources.persist_each].
  { split; [reflexivity|trivial]. }
  destruct (negb (is_nil (prepared ++ [s]))); [|apply IH].
  pose proof (names_persist table (prepared ++ [s])) as [Hprefix Hunique].
  destruct (persist table (prepared ++ [s])) as [table' summary]. cbn [fst] in *.
  destruct (IH (prepared ++ [s])%list table' (summaries ++ [summary])%list)
    as [Hprefix' Hunique'].
  split; [etransitivity; [exact Hprefix|exact Hprefix']|auto].
Qed.

(** X20.  Whatever the database does, a fetch cycle of the sources that
    returns keeps the names of the table as they were and in place, and
    adds names only at the end; names that were distinct stay distinct.
    No source is ever removed. *)
Theorem sources_cycle_keeps_names
    (batch table table' : list Source) (summaries : list (nat * nat)) :
  process_fetch_cycle (Returned batch) table = Returned (table', summaries) ->
  map name table `prefix_of` map name table'
  /\ (NoDup (map name table) -> NoDup (map name table')).
Proof.
  unfold FetchSources.process_fetch_cycle. cbn [mbind result_bind].
  destruct (is_nil batch).
  - intros [= <- <-]. split; [reflexivity|trivial].
  - intros [= H]. pose proof (names_persist_each batch [] table []) as Hnames.
    rewrite H in Hnames. exact Hnames.
Qed.

(** A batch all of whose sources are stored as they are. *)
Lemma update_existing_stable (existing_names : gset string) (table : list Source)
    (prepared : list Source) (updated : nat) :
  Forall (fun p => get table (name p) = Some p) prepared ->
  update_existing existing_names prepared table updated = (Returned table, updated).
Proof.
  induction 1 as [|p prepared Hp _ IH];
    cbn [FetchSources.update_existing]; [reflexivity|].
  destruct (bool_decide (name p ∈ existing_names)); [|assumption].
  now rewrite Hp, changed_self.
Qed.

Lemma existing_names_spec (table : list Source) (names : list string) (n : string) :
  n ∈ (list_to_set
         (map name (List.filter (fun row => bool_decide (name row ∈ names)) table))
       : gset string)
  <-> In n (map name table) /\ In n names.
Proof.
  rewrite elem_of_list_to_set, list_elem_of_In, in_map_iff. split.
  - intros (row & <- & [Hrow Hin]%filter_In).
    apply bool_decide_eq_true_1, list_elem_of_In in Hin.
    split; [now apply in_map|assumption].
  - intros [(row & <- & Hrow)%in_map_iff Hin]. exists row. split; [reflexivity|].
    apply filter_In. split; [assumption|].
    now apply bool_decide_eq_true_2, list_elem_of_In.
Qed.

Lemma filter_none {A : Type} (f : A -> bool) (l : list A) :
  (forall x, In x l -> f x = false) -> List.filter f l = [].
Proof.
  induction l as [|x l IH]; cbn [List.filter]; [reflexivity|]. intros H.
  rewrite (H x (or_introl eq_refl)). apply IH. intros y Hy. apply H. now right.
Qed.

Lemma persist_stable (table prepared : list Source) :
  Forall (fun p => get table (name p) = Some p) prepared ->
  persist table prepared = (table, (0, 0)%nat).
Proof.
  intros Hstored. unfold FetchSources.persist.
  set (existing_names := list_to_set _ : gset string).
  assert (Hnew : List.filter (fun p => bool_decide (name p ∉ existing_names))
                             prepared = []).
  { apply filter_none. intros p Hp. apply bool_decide_eq_false_2.
    intros Hnot. apply Hnot. apply existing_names_spec.
    split; [|now apply in_map].
    apply (proj1 (List.Forall_forall _ _) Hstored), get_Some in Hp as [_ Hp].
    now apply in_map. }
  rewrite Hnew. cbn [is_nil negb].
  now rewrite update_existing_stable.
Qed.

Lemma persist_each_stable (table sources : list Source) :
  forall prepared summaries,
    Forall (fun p => get table (name p) = Some p) prepared ->
    Forall (fun p => get table (name p) = Some p) sources ->
    persist_each sources prepared table summaries
    = (table, (summaries ++ map (fun _ => (0, 0)%nat) sources)%list).
Proof.
  induction sources as [|s sources IH]; intros prepared summaries Hprepared Hsources;
    cbn [FetchSources.persist_each map].
  { now rewrite app_nil_r. }
  inversion Hsources as [|? ? Hs Hrest]; subst.
  assert (Hnext : Forall (fun p => get table (name p) = Some p) (prepared ++ [s]))
    by (apply Forall_app; split; [assumption|now constructor]).
  assert (Hnil : is_nil (prepared ++ [s]) = false) by now destruct prepared.
  rewrite Hnil. cbn [negb].
  rewrite (persist_stable table _ Hnext), (IH _ _ Hnext Hrest).
  now rewrite <- app_assoc.
Qed.

(** X18.  When every source of the fetched batch is stored as it is, the
    cycle leaves the table as it is and reports no insertion and no
    update for any of them, whatever the database would answer. *)
Theorem sources_cycle_stable (batch table : list Source) :
  Forall (fun p => get table (name p) = Some p) batch ->
  process_fetch_cycle (Returned batch) table
  = Returned (table, map (fun _ => (0, 0)%nat) batch).
Proof.
  intros Hstored. unfold FetchSources.process_fetch_cycle. cbn [mbind result_bind].
  destruct batch as [|s batch]; [reflexivity|]. cbn [is_nil].
  now rewrite (persist_each_stable table (s :: batch) [] [] (List.Forall_nil _) Hstored).
Qed.

(** The update loop either raises or does what it does when every save
    is accepted. *)
Lemma update_existing_atomic (existing_names : gset string) (prepared : list Source) :
  forall table updated,
    (exists e updated',
        update_existing existing_names prepared table updated = (Raised e, updated'))
    \/ update_existing existing_names prepared table updated
       = FetchSources.update_existing (fun _ _ => false)
           existing_names prepared table updated.
Proof.
  induction prepared as [|p prepared IH]; intros table updated;
    cbn [FetchSources.update_existing]; [now right|].
  destruct (bool_decide (name p ∈ existing_names)); [|apply IH].
  destruct (get table (name p)) as [obj|]; [|apply IH].
  destruct (changed obj p); [|apply IH].
  destruct (save_raises table (assign obj p)); [left; eauto|apply IH].
Qed.

(** X23.  The block that persists the prepared sources is atomic: either
    it leaves the table as it was, or it does exactly what it does when
    the database accepts every write, summary line included. *)
Theorem persist_is_atomic (table prepared : list Source) :
  fst (persist table prepared) = table
  \/ persist table prepared
     = FetchSources.persist (fun _ _ => false) (fun _ _ => false) table prepared.
Proof.
  unfold FetchSources.persist, FetchSources.bulk_create.
  set (existing_names := list_to_set _ : gset string).
  set (new_items := List.filter _ prepared).
  destruct (negb (is_nil new_items)).
  - destruct (bulk_create_raises table new_items); [now left|].
    destruct (update_existing_atomic existing_names prepared
                (fold_left insert_ignoring_conflict new_items table) 0)
      as [(e & updated & ->)| ->]; [now left|now right].
  - destruct (update_existing_atomic existing_names prepared table 0)
      as [(e & updated & ->)| ->]; [now left|now right].
Qed.

End Oracles.

End SourceFacts.

Lemma sources_cycle_keeps_names_witness :
  let table := [Fixture.source_named "Reuters" "https://reuters.example/1"] in
  let table' := (table ++ [Fixture.source_named "BBC" "https://bbc.example"])%list in
  map FetchSources.name table `prefix_of` map FetchSources.name table'
  /\ (NoDup (map FetchSources.name table) -> NoDup (map FetchSources.name table')).
Proof.
  apply (sources_cycle_keeps_names
           Sample.db_accepts Fixture.save_fails
           [Fixture.source_named "BBC" "https://bbc.example";
            Fixture.source_named "Reuters" "https://reuters.example/2"]
           _ _ [(1, 0); (0, 0)]%nat).
  vm_compute. reflexivity.
Defined.

Lemma sources_cycle_stable_witness :
  let reuters := Fixture.source_named "Reuters" "https://reuters.example/1" in
  let bbc := Fixture.source_named "BBC" "https://bbc.example" in
  FetchSources.process_fetch_cycle
    Sample.db_accepts Fixture.save_fails (Returned [bbc; reuters; bbc]) [reuters; bbc]
  = Returned ([reuters; bbc], [(0, 0); (0, 0); (0, 0)]%nat).
Proof.
  apply (sources_cycle_stable Sample.db_accepts Fixture.save_fails).
  repeat constructor.
Defined.

Section SourcesAccepted.

Import FetchSources.

Variable bulk_create_raises : list Source -> list Source -> bool.
Variable save_raises : list Source -> Source -> bool.

Hypothesis bulk_create_accepts : forall table objs, bulk_create_raises table objs = false.
Hypothesis save_accepts : forall table obj, save_raises table obj = false.

Local Abbreviation update_existing := (FetchSources.update_existing save_raises).
Local Abbreviation persist := (FetchSources.persist bulk_create_raises save_raises).
Local Abbreviation persist_each :=
  (FetchSources.persist_each bulk_create_raises save_raises).
Local Abbreviation process_fetch_cycle :=
  (FetchSources.process_fetch_cycle bulk_create_raises save_raises).

(** The last source of a list with a given name. *)
Local Abbreviation last_named n l :=
  (List.find (fun p : Source => String.eqb (name p) n) (rev l)).

Lemma find_app_first {A : Type} (f : A -> bool) (l1 l2 : list A) :
  List.find f (l1 ++ l2) =
    match List.find f l1 with Some x => Some x | None => List.find f l2 end.
Proof.
  induction l1 as [|x l1 IH]; cbn [app find]; [reflexivity|].
  now destruct (f x).
Qed.

Lemma last_named_cons (p : Source) (l : list Source) (n : string) :
  last_named n (p :: l) =
    match last_named n l with
    | Some q => Some q
    | None => if String.eqb (name p) n then Some p else None
    end.
Proof. cbn [rev]. now rewrite find_app_first. Qed.

Lemma last_named_snoc (l : list Source) (s : Source) (n : string) :
  last_named n (l ++ [s]) =
    if String.eqb (name s) n then Some s else last_named n l.
Proof. now rewrite rev_app_distr. Qed.

Lemma last_named_None (l : list Source) (n : string) :
  last_named n l = None <-> ~ In n (map name l).
Proof.
  split.
  - intros Hnone (p & Hp & Hin)%in_map_iff.
    apply in_rev in Hin. apply (find_none _ _ Hnone p) in Hin.
    rewrite Hp, String.eqb_refl in Hin. discriminate.
  - intros Hnot. destruct (last_named n l) as [p|] eqn:Hfind; [|reflexivity].
    apply find_some in Hfind as [Hin Hp]. apply String.eqb_eq in Hp.
    exfalso. apply Hnot. rewrite <- Hp. apply in_map. now apply in_rev.
Qed.

(** What the update loop leaves in the table when every save succeeds:
    a name that was both asked for and stored holds the last prepared
    source of that name. *)
Lemma update_existing_last (existing_names : gset string) (prepared : list Source) :
  forall table updated,
  exists table' updated',
    update_existing existing_names prepared table updated
    = (Returned table', updated')
    /\ map name table' = map name table
    /\ forall n,
         get table' n =
           if bool_decide (n ∈ existing_names) && name_stored table n
           then match last_named n prepared with
                | Some p => Some p
                | None => get table n
                end
           else get table n.
Proof.
  induction prepared as [|p prepared IH]; intros table updated;
    cbn [FetchSources.update_existing].
  { exists table, updated. split; [reflexivity|]. split; [reflexivity|].
    intros n. cbn [rev find]. now destruct (_ && _). }
  assert (Hskip : forall table1,
            map name table1 = map name table ->
            (forall n, get table1 n =
                         if String.eqb (name p) n
                            && bool_decide (n ∈ existing_names)
                            && name_stored table n
                         then Some p else get table n) ->
            forall updated1,
            exists table' updated',
              update_existing existing_names prepared table1 updated1
              = (Returned table', updated')
              /\ map name table' = map name table
              /\ forall n,
                   get table' n =
                     if bool_decide (n ∈ existing_names) && name_stored table n
                     then match last_named n (p :: prepared) with
                          | Some q => Some q
                          | None => get table n
                          end
                     else get table n).
  { intros table1 Hnames Hget updated1.
    destruct (IH table1 updated1) as (table' & updated' & Hrun & Hnames' & Hget').
    exists table', updated'. split; [assumption|].
    split; [congruence|]. intros n. rewrite Hget', last_named_cons.
    assert (Hstored : name_stored table1 n = name_stored table n).
    { destruct (name_stored table n) eqn:H.
      - apply name_stored_In. rewrite Hnames. now apply name_stored_In.
      - destruct (name_stored table1 n) eqn:H1; [|reflexivity].
        apply name_stored_In in H1. rewrite Hnames in H1.
        apply name_stored_In in H1. congruence. }
    rewrite Hstored, (Hget n).
    destruct (bool_decide (n ∈ existing_names)), (name_stored table n);
      cbn [andb]; rewrite ?andb_false_r; try reflexivity.
    rewrite andb_true_r.
    destruct (last_named n prepared); [reflexivity|].
    now destruct (String.eqb (name p) n). }
  destruct (bool_decide (name p ∈ existing_names)) eqn:Hin.
  2:{ apply Hskip; [reflexivity|]. intros n.
      destruct (String.eqb (name p) n) eqn:Hn; [|reflexivity].
      apply String.eqb_eq in Hn. subst n. now rewrite Hin. }
  destruct (get table (name p)) as [obj|] eqn:Hobj.
  2:{ apply Hskip; [reflexivity|]. intros n.
      destruct (String.eqb (name p) n) eqn:Hn; [|reflexivity].
      apply String.eqb_eq in Hn. subst n.
      apply get_stored in Hobj. now rewrite Hobj, andb_false_r. }
  pose proof (get_Some _ _ _ Hobj) as [Hname Hrow].
  assert (Hstored : name_stored table (name p) = true)
    by (apply name_stored_In; rewrite <- Hname; now apply in_map).
  destruct (changed obj p) eqn:Hchanged.
  - rewrite save_accepts, (assign_same_name obj p Hname).
    apply Hskip; [apply names_save|]. intros n. rewrite get_save.
    destruct (String.eqb (name p) n) eqn:Hn; [|reflexivity].
    apply String.eqb_eq in Hn. subst n. now rewrite Hin, Hstored.
  - apply unchanged_same in Hchanged; [|assumption]. subst obj.
    apply Hskip; [reflexivity|]. intros n.
    destruct (String.eqb (name p) n) eqn:Hn; [|reflexivity].
    apply String.eqb_eq in Hn. subst n. now rewrite Hin, Hstored.
Qed.

(** One turn of the loop over the fetched sources, entered when the
    table holds every source prepared so far under its last values. *)
Lemma persist_turn (table prepared : list Source) (s : Source) :
  (forall n, In n (map name prepared) -> get table n = last_named n prepared) ->
  exists table' updated,
    persist table (prepared ++ [s])
    = (table', (if name_stored table (name s) then 0%nat else 1%nat, updated))
    /\ List.length table'
       = (List.length table + if name_stored table (name s) then 0 else 1)%nat
    /\ (forall n, In n (map name (prepared ++ [s])) ->
                  get table' n = last_named n (prepared ++ [s]))
    /\ (forall n, ~ In n (map name (prepared ++ [s])) -> get table' n = get table n).
Proof.
  intros Hinv. unfold FetchSources.persist.
  set (existing_names := list_to_set _ : gset string).
  assert (Hexisting : forall n,
            n ∈ existing_names
            <-> name_stored table n = true /\ In n (map name (prepared ++ [s]))).
  { intros n. unfold existing_names. rewrite existing_names_spec.
    now rewrite name_stored_In. }
  assert (Hold : forall p, In p prepared -> name_stored table (name p) = true).
  { intros p Hp. apply (in_map name) in Hp as Hn.
    destruct (name_stored table (name p)) eqn:H; [reflexivity|].
    apply get_stored in H. rewrite (Hinv _ Hn) in H.
    apply last_named_None in H. contradiction. }
  assert (Hnew : List.filter (fun p => bool_decide (name p ∉ existing_names))
                             (prepared ++ [s])
                 = if name_stored table (name s) then [] else [s]).
  { rewrite List.filter_app.
    rewrite (filter_none _ prepared).
    2:{ intros p Hp. apply bool_decide_eq_false_2. intros Hnot. apply Hnot.
        apply Hexisting. split; [now apply Hold|].
        rewrite map_app. apply in_or_app. left. now apply in_map. }
    cbn [app List.filter].
    destruct (name_stored table (name s)) eqn:Hs.
    - rewrite bool_decide_eq_false_2; [reflexivity|].
      intros Hnot. apply Hnot, Hexisting. split; [assumption|].
      rewrite map_app. apply in_or_app. right. now left.
    - rewrite bool_decide_eq_true_2; [reflexivity|].
      intros [Hstored _]%Hexisting. congruence. }
  rewrite Hnew. clear Hnew.
  set (table1 := if name_stored table (name s) then table else (table ++ [s])%list).
  assert (Hcreate : (if negb (is_nil (if name_stored table (name s) then [] else [s]))
                     then FetchSources.bulk_create bulk_create_raises table
                            (if name_stored table (name s) then [] else [s])
                     else Returned table) = Returned table1).
  { unfold table1, FetchSources.bulk_create.
    destruct (name_stored table (name s)) eqn:Hs; cbn [is_nil negb]; [reflexivity|].
    rewrite bulk_create_accepts. cbn [fold_left].
    unfold insert_ignoring_conflict. now rewrite Hs. }
  rewrite Hcreate. clear Hcreate.
  destruct (update_existing_last existing_names (prepared ++ [s]) table1 0)
    as (table2 & updated & -> & Hnames & Hget).
  exists table2, updated. split.
  { now destruct (name_stored table (name s)). }
  split.
  { rewrite <- (length_map name table2), Hnames, length_map. unfold table1.
    destruct (name_stored table (name s)); [lia|].
    rewrite length_app. reflexivity. }
  assert (Hget1 : forall n, get table1 n =
            match get table n with
            | Some row => Some row
            | None => if name_stored table (name s) then None
                      else if String.eqb (name s) n then Some s else None
            end).
  { intros n. unfold table1. destruct (name_stored table (name s)).
    - now destruct (get table n).
    - rewrite get_source_app. unfold get at 2. cbn [find]. reflexivity. }
  assert (Hstored1 : forall n, name_stored table n = true ->
                               name_stored table1 n = true).
  { intros n Hn. unfold table1. destruct (name_stored table (name s));
      [assumption|].
    apply name_stored_In. rewrite map_app. apply in_or_app. left.
    now apply name_stored_In. }
  split.
  - intros n Hn. rewrite Hget.
    destruct (name_stored table n) eqn:Hstored.
    + rewrite bool_decide_eq_true_2 by now apply Hexisting.
      rewrite (Hstored1 n Hstored). cbn [andb].
      destruct (last_named n (prepared ++ [s])) eqn:Hlast; [reflexivity|].
      apply last_named_None in Hlast. contradiction.
    + rewrite bool_decide_eq_false_2.
      2:{ intros [H _]%Hexisting. congruence. }
      cbn [andb]. rewrite Hget1.
      apply get_stored in Hstored as Hnone. rewrite Hnone.
      rewrite map_app in Hn. apply in_app_or in Hn as [Hn|[Hn|[]]].
      * apply in_map_iff in Hn as (p & <- & Hp). rewrite (Hold p Hp) in Hstored.
        discriminate.
      * subst n. rewrite Hstored, String.eqb_refl, last_named_snoc.
        now rewrite String.eqb_refl.
  - intros n Hn. rewrite Hget.
    rewrite bool_decide_eq_false_2.
    2:{ intros [_ H]%Hexisting. contradiction. }
    cbn [andb]. rewrite Hget1. destruct (get table n); [reflexivity|].
    destruct (name_stored table (name s)); [reflexivity|].
    destruct (String.eqb (name s) n) eqn:Hs; [|reflexivity].
    apply String.eqb_eq in Hs. exfalso. apply Hn. rewrite map_app.
    apply in_or_app. right. now left.
Qed.

Lemma persist_each_last (sources : list Source) :
  forall prepared table summaries,
    (forall n, In n (map name prepared) -> get table n = last_named n prepared) ->
    match persist_each sources prepared table summaries with
    | (table', summaries') =>
        (forall n, In n (map name (prepared ++ sources)) ->
                   get table' n = last_named n (prepared ++ sources))
        /\ (forall n, ~ In n (map name (prepared ++ sources)) ->
                      get table' n = get table n)
        /\ (list_sum (map fst summaries') + List.length table
            = list_sum (map fst summaries) + List.length table')%nat
        /\ List.length summaries'
           = (List.length summaries + List.length sources)%nat
    end.
Proof.
  induction sources as [|s sources IH]; intros prepared table summaries Hinv;
    cbn [FetchSources.persist_each].
  { rewrite app_nil_r. repeat split; auto; cbn [List.length]; lia. }
  assert (Hnil : is_nil (prepared ++ [s]) = false) by now destruct prepared.
  rewrite Hnil. cbn [negb].
  destruct (persist_turn table prepared s Hinv)
    as (table1 & updated & -> & Hlength & Hlast & Hframe).
  specialize (IH (prepared ++ [s])%list table1
                 (summaries ++ [(if name_stored table (name s) then 0%nat
                                 else 1%nat, updated)])%list Hlast).
  destruct (persist_each sources _ table1 _) as [table' summaries'].
  rewrite <- app_assoc in IH. cbn [app] in IH.
  destruct IH as (Hlast' & Hframe' & Hsum & Hcount).
  split; [assumption|]. split; [|split].
  - intros n Hn. rewrite (Hframe' n Hn). apply Hframe.
    intros Hin. apply Hn. rewrite map_app in *. apply in_app_or in Hin.
    apply in_or_app. cbn [map In] in *. tauto.
  - rewrite map_app, list_sum_app in Hsum.
    destruct (name_stored table (name s));
      cbn [map fst list_sum fold_right] in Hsum; lia.
  - rewrite length_app in Hcount. cbn [List.length] in *. lia.
Qed.

(** X19.  When the database accepts every write, a fetch cycle of the
    sources leaves each name of the batch stored with the values of the
    last source of the batch that bears it, and every other row as it
    was. *)
Theorem sources_cycle_last_write_wins (batch table : list Source) :
  match process_fetch_cycle (Returned batch) table with
  | Returned (table', _) =>
      (forall n, In n (map name batch) -> get table' n = last_named n batch)
      /\ (forall n, ~ In n (map name batch) -> get table' n = get table n)
  | Raised _ => False
  end.
Proof.
  unfold FetchSources.process_fetch_cycle. cbn [mbind result_bind].
  destruct batch as [|s batch]; cbn [is_nil].
  { split; [intros n []|reflexivity]. }
  pose proof (persist_each_last (s :: batch) [] table [] ltac:(intros n [])) as H.
  destruct (persist_each (s :: batch) [] table []) as [table' summaries].
  cbn [app] in H. tauto.
Qed.

(** X21.  When the database accepts every write, the cycle reports one
    line for each source of the batch, and the insertions that these
    lines report add up to the number of rows that the table has
    gained. *)
Theorem sources_cycle_created_count (batch table : list Source) :
  match process_fetch_cycle (Returned batch) table with
  | Returned (table', summaries) =>
      List.length summaries = List.length batch
      /\ (List.length table + list_sum (map fst summaries))%nat = List.length table'
  | Raised _ => False
  end.
Proof.
  unfold FetchSources.process_fetch_cycle. cbn [mbind result_bind].
  destruct batch as [|s batch]; cbn [is_nil].
  { split; [reflexivity|cbn; lia]. }
  pose proof (persist_each_last (s :: batch) [] table [] ltac:(intros n [])) as H.
  destruct (persist_each (s :: batch) [] table []) as [table' summaries].
  destruct H as (_ & _ & Hsum & Hcount).
  cbn [map list_sum fold_right List.length] in *. split; lia.
Qed.

End SourcesAccepted.

Lemma sources_cycle_last_write_wins_witness :
  let batch :=
    [Fixture.source_named "Reuters" "https://reuters.example/1";
     Fixture.source_named "BBC" "https://bbc.example";
     Fixture.source_named "Reuters" "https://reuters.example/2"] in
  match FetchSources.process_fetch_cycle
          Sample.db_accepts Fixture.save_accepts (Returned batch) [] with
  | Returned (table', _) =>
      (forall n, In n (map FetchSources.name batch) ->
                 FetchSources.get table' n
                 = List.find (fun p => String.eqb (FetchSources.name p) n) (rev batch))
      /\ (forall n, ~ In n (map FetchSources.name batch) ->
                    FetchSources.get table' n = FetchSources.get [] n)
  | Raised _ => False
  end.
Proof.
  apply (sources_cycle_last_write_wins
           Sample.db_accepts Fixture.save_accepts
           (fun _ _ => eq_refl) (fun _ _ => eq_refl)).
Defined.

Lemma sources_cycle_created_count_witness :
  let batch :=
    [Fixture.source_named "Reuters" "https://reuters.example/1";
     Fixture.source_named "BBC" "https://bbc.example";
     Fixture.source_named "Reuters" "https://reuters.example/2"] in
  match FetchSources.process_fetch_cycle
          Sample.db_accepts Fixture.save_accepts (Returned batch) [] with
  | Returned (table', summaries) =>
      List.length summaries = List.length batch
      /\ (List.length (@nil FetchSources.Source) + list_sum (map fst summaries))%nat
         = List.length table'
  | Raised _ => False
  end.
Proof.
  apply (sources_cycle_created_count
           Sample.db_accepts Fixture.save_accepts
           (fun _ _ => eq_refl) (fun _ _ => eq_refl)).
Defined.

(** ** The keyword phrases of a search text, and the content preview *)

Section SortFacts.

Import Views.

Lemma precedes_total (p q : string) : precedes p q = false -> precedes q p = true.
Proof.
  unfold precedes. intros H.
  apply orb_false_iff in H as [H1 H2]. apply Nat.ltb_ge in H1.
  apply andb_false_iff in H2.
  destruct (Nat.ltb (word_count p) (word_count q)) eqn:Hlt; [reflexivity|].
  apply Nat.ltb_ge in Hlt. cbn [orb].
  assert (Heq : word_count q = word_count p) by lia.
  rewrite Heq, Nat.eqb_refl. cbn [andb]. apply Nat.leb_le.
  destruct H2 as [H2|H2]; [apply Nat.eqb_neq in H2; lia|].
  apply Nat.leb_gt in H2. lia.
Qed.

Lemma precedes_trans (p q r : string) :
  precedes p q = true -> precedes q r = true -> precedes p r = true.
Proof.
  unfold precedes. intros H1 H2.
  apply orb_true_iff in H1, H2. apply orb_true_iff.
  rewrite !andb_true_iff, !Nat.ltb_lt, !Nat.eqb_eq, !Nat.leb_le in *. lia.
Qed.

Lemma insert_sorted_perm (p : string) (l : list string) :
  insert_sorted p l ≡ₚ p :: l.
Proof.
  induction l as [|q l IH]; cbn [insert_sorted]; [reflexivity|].
  destruct (precedes p q); [reflexivity|].
  rewrite IH. apply Permutation_swap.
Qed.

Lemma sorted_perm (l : list string) : sorted l ≡ₚ l.
Proof.
  induction l as [|p l IH]; cbn [sorted fold_right]; [reflexivity|].
  fold (sorted l). now rewrite insert_sorted_perm, IH.
Qed.

Lemma insert_sorted_Forall (Q : string -> Prop) (p : string) (l : list string) :
  Q p -> Forall Q l -> Forall Q (insert_sorted p l).
Proof.
  intros Hp. induction 1 as [|q l Hq Hl IH]; cbn [insert_sorted].
  - repeat constructor. exact Hp.
  - destruct (precedes p q); repeat constructor; assumption.
Qed.

Lemma insert_sorted_ordered (p : string) (l : list string) :
  ForallOrdPairs (fun a b => precedes a b = true) l ->
  ForallOrdPairs (fun a b => precedes a b = true) (insert_sorted p l).
Proof.
  induction 1 as [|q l Hq Hl IH]; cbn [insert_sorted].
  - repeat constructor.
  - destruct (precedes p q) eqn:Hpq.
    + constructor; [|now constructor]. constructor; [assumption|].
      eapply List.Forall_impl; [|exact Hq]. intros r Hr. cbn beta in *.
      now apply (precedes_trans p q r).
    + constructor; [|assumption].
      apply insert_sorted_Forall; [now apply precedes_total|assumption].
Qed.

Lemma sorted_ordered (l : list string) :
  ForallOrdPairs (fun a b => precedes a b = true) (sorted l).
Proof.
  induction l as [|p l IH]; cbn [sorted fold_right]; [constructor|].
  now apply insert_sorted_ordered.
Qed.

Lemma firstn_ordered {A : Type} (R : A -> A -> Prop) (l : list A) : forall k,
  ForallOrdPairs R l -> ForallOrdPairs R (firstn k l).
Proof.
  induction l as [|a l IH]; intros [|k] H; cbn [firstn]; try constructor.
  - inversion H as [|? ? Ha Hl]; subst.
    apply List.Forall_forall. intros b Hb%In_firstn.
    now apply (proj1 (List.Forall_forall _ _) Ha).
  - inversion H; subst. now apply IH.
Qed.

End SortFacts.

Section PhraseFacts.

Import Views.

Variable list_of_set : gset string -> list string.
Hypothesis list_of_set_enumerates : forall X, list_of_set X ≡ₚ elements X.

Local Abbreviation derive_keyword_phrases :=
  (Views.derive_keyword_phrases list_of_set).

(** X24.  The phrases derived from a search text are at most
    [max_phrases], pairwise different, and in the order of the sort key:
    a phrase comes before every phrase with fewer words, and before every
    phrase with as many words and fewer characters. *)
Theorem derive_keyword_phrases_sorted (text : string) (max_ngram max_phrases : nat) :
  let phrases := derive_keyword_phrases text max_ngram max_phrases in
  (List.length phrases <= max_phrases)%nat
  /\ NoDup phrases
  /\ ForallOrdPairs (fun p q => precedes p q = true) phrases.
Proof.
  unfold Views.derive_keyword_phrases.
  destruct (PyStr.is_empty text).
  { cbn. split; [lia|]. split; constructor. }
  destruct (is_nil (tokenize text)).
  { cbn. split; [lia|]. split; constructor. }
  set (X := list_to_set _ : gset string).
  split; [apply firstn_le_length|]. split.
  - apply (sublist_NoDup (firstn max_phrases (sorted (list_of_set X)))
                         (sorted (list_of_set X))).
    + rewrite sorted_perm, list_of_set_enumerates. apply NoDup_elements.
    + apply sublist_take.
  - apply firstn_ordered, sorted_ordered.
Qed.

Lemma In_sizes (n size : nat) : In size (sizes n) <-> (1 <= size <= n)%nat.
Proof. unfold sizes. rewrite <- in_rev, in_seq. lia. Qed.

Lemma In_grams_of_size (tokens : list string) (size : nat) (p : string) :
  In p (grams_of_size tokens size)
  <-> (2 <= String.length p)%nat
      /\ exists i, (i + size <= List.length tokens)%nat /\ p = gram tokens size i.
Proof.
  unfold grams_of_size. rewrite filter_In, in_map_iff, negb_true_iff, Nat.ltb_ge.
  split.
  - intros [(i & <- & Hi%in_seq) Hlen]. split; [assumption|].
    exists i. split; [lia|reflexivity].
  - intros [Hlen (i & Hi & ->)]. split; [|assumption].
    exists i. split; [reflexivity|]. apply in_seq. lia.
Qed.

(** X25.  Every phrase derived from a search text has at least two
    characters and is made of between 1 and [max_ngram] successive tokens
    of the text, joined by blanks; and unless the result is cut at
    [max_phrases], every such phrase is in it. *)
Theorem derive_keyword_phrases_are_grams
    (text : string) (max_ngram max_phrases : nat) (p : string) :
  let tokens := tokenize text in
  let phrases := derive_keyword_phrases text max_ngram max_phrases in
  let is_gram :=
    (2 <= String.length p)%nat
    /\ exists size i,
         (1 <= size <= max_ngram)%nat
         /\ (i + size <= List.length tokens)%nat
         /\ p = gram tokens size i in
  (In p phrases -> is_gram)
  /\ ((List.length phrases < max_phrases)%nat -> is_gram -> In p phrases).
Proof.
  cbn zeta. unfold Views.derive_keyword_phrases.
  assert (Hempty : PyStr.is_empty text = true -> tokenize text = []).
  { destruct text; [reflexivity|discriminate]. }
  destruct (PyStr.is_empty text).
  { rewrite (Hempty eq_refl). split; [intros []|].
    intros _ (_ & size & i & Hsize & Hi & _). cbn in Hi. lia. }
  clear Hempty.
  destruct (tokenize text) as [|t tokens] eqn:Htokens; cbn [is_nil].
  { split; [intros []|].
    intros _ (_ & size & i & Hsize & Hi & _). cbn in Hi. lia. }
  set (n := Nat.min max_ngram (List.length (t :: tokens))).
  set (X := list_to_set _ : gset string).
  assert (HX : forall q, In q (sorted (list_of_set X)) <->
                         (2 <= String.length q)%nat
                         /\ exists size i,
                              (1 <= size <= max_ngram)%nat
                              /\ (i + size <= List.length (t :: tokens))%nat
                              /\ q = gram (t :: tokens) size i).
  { intros q. rewrite <- list_elem_of_In, sorted_perm, list_of_set_enumerates.
    rewrite elem_of_elements. unfold X.
    rewrite elem_of_list_to_set, list_elem_of_In, in_flat_map.
    split.
    - intros (size & Hsize%In_sizes & [Hlen (i & Hi & ->)]%In_grams_of_size).
      split; [assumption|]. exists size, i. unfold n in Hsize.
      repeat split; try lia.
    - intros (Hlen & size & i & Hsize & Hi & ->). exists size. split.
      + apply In_sizes. unfold n. lia.
      + apply In_grams_of_size. split; [assumption|]. now exists i. }
  split.
  - intros Hp%In_firstn. now apply HX.
  - intros Hshort Hgram. apply HX in Hgram.
    rewrite firstn_all2; [assumption|].
    destruct (Nat.le_gt_cases (List.length (sorted (list_of_set X))) max_phrases)
      as [Hle|Hgt]; [assumption|].
    rewrite length_firstn in Hshort. lia.
Qed.

Lemma re_split_separators (s : string) : forall in_run,
  PyStr.forallb is_separator s = true ->
  Forall (fun t => t = "") (re_split in_run "" s).
Proof.
  induction s as [|c s IH]; intros in_run; cbn [re_split PyStr.forallb].
  - repeat constructor.
  - intros [Hc Hs]%andb_true_iff. rewrite Hc.
    destruct in_run; [|constructor; [reflexivity|]]; now apply IH.
Qed.

(** X26.  A search text made only of whitespace and commas yields no
    phrase. *)
Theorem derive_keyword_phrases_blank (text : string) (max_ngram max_phrases : nat) :
  PyStr.forallb is_separator text = true ->
  derive_keyword_phrases text max_ngram max_phrases = [].
Proof.
  intros Hblank. unfold Views.derive_keyword_phrases.
  destruct (PyStr.is_empty text); [reflexivity|].
  assert (Htokens : tokenize text = []).
  { unfold tokenize. rewrite filter_none; [reflexivity|].
    intros t Ht.
    apply (proj1 (List.Forall_forall _ _)
                 (re_split_separators text false Hblank)) in Ht.
    now subst t. }
  now rewrite Htokens.
Qed.

End PhraseFacts.

(** X27.  The content preview of an article has at most 203 characters;
    it is the content itself when that has at most 200 characters, and
    otherwise its first 200 characters followed by an ellipsis. *)
Theorem content_preview_bounded (content : string) :
  let preview := Serializers.get_content_preview content in
  (String.length preview <= 203)%nat
  /\ ((String.length content <= 200)%nat -> preview = content)
  /\ ((200 < String.length content)%nat ->
      String.length preview = 203%nat
      /\ PyStr.take 200 preview = PyStr.take 200 content).
Proof.
  cbn zeta. unfold Serializers.get_content_preview.
  assert (Htake : forall n s, (n <= String.length s)%nat ->
                              String.length (PyStr.take n s) = n).
  { induction n as [|n IH]; intros [|c s] H; cbn [PyStr.take String.length] in *;
      try lia. now rewrite IH by lia. }
  assert (Hprefix : forall n s t, String.length s = n ->
                                  PyStr.take n (s ++ t) = s).
  { induction n as [|n IH]; intros [|c s] t H; cbn [String.length] in H;
      try discriminate.
    - now destruct t.
    - rewrite append_cons. cbn [PyStr.take]. f_equal. apply IH. lia. }
  destruct (Nat.ltb 200 (String.length content)) eqn:Hlong.
  - apply Nat.ltb_lt in Hlong.
    assert (Hlen : String.length (PyStr.take 200 content ++ "...") = 203%nat).
    { rewrite length_app_string, (Htake 200%nat content) by lia. reflexivity. }
    split; [lia|]. split; [lia|]. intros _. split; [assumption|].
    apply Hprefix, Htake. lia.
  - apply Nat.ltb_ge in Hlong. split; [lia|]. split; [reflexivity|lia].
Qed.

Lemma derive_keyword_phrases_sorted_witness :
  let phrases := Views.derive_keyword_phrases elements "big, market rally!" 2 30 in
  phrases = ["market rally"; "big market"; "market"; "rally"; "big"]
  /\ (List.length phrases <= 30)%nat
  /\ NoDup phrases
  /\ ForallOrdPairs (fun p q => Views.precedes p q = true) phrases.
Proof.
  split; [vm_compute; reflexivity|].
  apply (derive_keyword_phrases_sorted elements (fun _ => Permutation_refl _)).
Defined.

Lemma derive_keyword_phrases_are_grams_witness :
  (2 <= String.length "market rally")%nat
  /\ exists size i,
       (1 <= size <= 2)%nat
       /\ (i + size <= List.length (Views.tokenize "big, market rally!"))%nat
       /\ "market rally" = Views.gram (Views.tokenize "big, market rally!") size i.
Proof.
  apply (proj1 (derive_keyword_phrases_are_grams
                  elements (fun _ => Permutation_refl _)
                  "big, market rally!" 2 30 "market rally")).
  vm_compute. left. reflexivity.
Defined.

Lemma derive_keyword_phrases_blank_witness :
  Views.derive_keyword_phrases elements " , ,  " 4 30 = [].
Proof.
  apply (derive_keyword_phrases_blank elements). vm_compute. reflexivity.
Defined.

Lemma content_preview_bounded_witness :
  Serializers.get_content_preview "Shares climbed." = "Shares climbed.".
Proof.
  apply (proj1 (proj2 (content_preview_bounded "Shares climbed."))).
  cbn. lia.
Defined.

(** ** The model loader *)

(** X28.  Once [get_model] has returned a model, every later call
    returns this model without calling [load_model] again; and a call
    that raises leaves no model behind, so that the next call tries to
    load again. *)
Theorem get_model_loads_once
    (Model : Type) (load_model : nat -> result Model)
    (s s1 : ModelLoader.state Model) :
  (forall m,
      ModelLoader.get_model Model load_model s = (Returned m, s1) ->
      forall n,
        ModelLoader.get_model_times Model load_model n s1
        = (repeat (Returned m) n, s1))
  /\ (forall e,
         ModelLoader.get_model Model load_model s = (Raised e, s1) ->
         ModelLoader.model s1 = None
         /\ ModelLoader.loads s1 = S (ModelLoader.loads s)
         /\ fst (ModelLoader.get_model Model load_model s1)
            = load_model (S (ModelLoader.loads s))).
Proof.
  split.
  - intros m Hget.
    assert (Hloaded : ModelLoader.model s1 = Some m).
    { unfold ModelLoader.get_model in Hget.
      destruct (ModelLoader.model s) as [m'|] eqn:Hs.
      - injection Hget as <- <-. assumption.
      - destruct (load_model (ModelLoader.loads s)); [|discriminate].
        now injection Hget as <- <-. }
    induction n as [|n IH]; cbn [ModelLoader.get_model_times repeat];
      [reflexivity|].
    unfold ModelLoader.get_model at 1. now rewrite Hloaded, IH.
  - intros e Hget. unfold ModelLoader.get_model in Hget.
    destruct (ModelLoader.model s); [discriminate|].
    destruct (load_model (ModelLoader.loads s)); [discriminate|].
    injection Hget as _ <-. cbn. split; [reflexivity|]. split; [reflexivity|].
    now destruct (load_model (S (ModelLoader.loads s))).
Qed.

Lemma get_model_loads_once_witness :
  let load n := if Nat.eqb n 0 then Raised ValueError else Returned n in
  let empty := {| ModelLoader.model := None; ModelLoader.loads := 0 |} in
  ModelLoader.get_model_times nat load 3 empty
  = ([Raised ValueError; Returned 1%nat; Returned 1%nat],
     {| ModelLoader.model := Some 1%nat; ModelLoader.loads := 2 |})
  /\ ModelLoader.get_model_times
       nat load 2 {| ModelLoader.model := Some 1%nat; ModelLoader.loads := 2 |}
     = ([Returned 1%nat; Returned 1%nat],
        {| ModelLoader.model := Some 1%nat; ModelLoader.loads := 2 |}).
Proof.
  split; [reflexivity|].
  apply (proj1 (get_model_loads_once
                  nat (fun n => if Nat.eqb n 0 then Raised ValueError else Returned n)
                  {| ModelLoader.model := None; ModelLoader.loads := 1 |}
                  {| ModelLoader.model := Some 1%nat; ModelLoader.loads := 2 |})
               1%nat eq_refl 2%nat).
Defined.
